(** * A ledger account with an audit trail: [src/main.py]

    The amounts and balances of the program are Python floats, that is
    IEEE 754 binary64 numbers; they are modelled by Rocq's primitive floats,
    whose operations are specified by [SpecFloat].  The methods of [Account]
    and [CreditAccount] are state transformers that may raise an exception. *)

From Stdlib Require Import ZArith NArith Lia Bool List String Ascii.
From Stdlib Require Import Floats.
Import ListNotations.
Local Open Scope string_scope.
Local Open Scope Z_scope.
Local Open Scope list_scope.
Set Warnings "-inexact-float".

(** * Binary64 numbers as integers

    Every finite binary64 number is an integer multiple of [2^-1074]; the
    order and the rounding of sums and differences are stated on these
    integers. *)

(** The number of binary digits of a mantissa. *)
Definition D (m : positive) : Z := Zpos (digits2_pos m).

(** [m * 2^e], counted in units of [2^-1074]. *)
Definition val (m : positive) (e : Z) : Z := Zpos m * 2 ^ (e + 1074).

(** [(m, e)] is the canonical binary64 representation of its value. *)
Definition canon (m : positive) (e : Z) : Prop := e = Z.max (D m + e - 53) (-1074).

(** [b] is [a] shifted right by [k] bits; the round and sticky bits of [b]
    are clear when no set bit was shifted out. *)
Definition shifted (k : Z) (a b : shr_record) : Prop :=
  0 <= shr_m a ->
  0 <= shr_m b /\ shr_m b = shr_m a / 2 ^ k /\
  (shr_r a = false -> shr_s a = false -> shr_m a mod 2 ^ k = 0 ->
   shr_r b = false /\ shr_s b = false).

(** A zero or a canonical finite number in the binary64 range. *)
Definition fin_valid (x : spec_float) : Prop :=
  match x with
  | S754_zero _ => True
  | S754_finite _ m e => canon m e /\ e <= 971
  | _ => False
  end.

Definition SF2Z (x : spec_float) : Z :=
  match x with
  | S754_finite s m e => cond_Zopp s (val m e)
  | _ => 0
  end.

(** [r] is a rounding of the exact value [v]: no representable number lies
    strictly between them. *)
Definition rounds_to (v : Z) (r : spec_float) : Prop :=
  forall y, fin_valid y ->
    (SF2Z y <= v -> SFleb y r = true) /\ (v <= SF2Z y -> SFleb r y = true).

(** A bound above every finite binary64 number, standing for infinity. *)
Definition BIG : Z := 2 ^ 2100.

Definition SF2Zx (x : spec_float) : Z :=
  match x with
  | S754_infinity s => cond_Zopp s BIG
  | _ => SF2Z x
  end.

(** The position of a float on the integer line ([0] for NaN). *)
Definition FZ (x : float) : Z := SF2Zx (Prim2SF x).

Inductive sf_class (x : spec_float) : Prop :=
| sf_nan : x = S754_nan -> sf_class x
| sf_inf s : x = S754_infinity s -> sf_class x
| sf_fin : fin_valid x -> sf_class x.

Inductive float_class (x : float) : Prop :=
| fc_nan : is_nan x = true -> float_class x
| fc_inf s : Prim2SF x = S754_infinity s -> float_class x
| fc_fin : is_finite x = true -> float_class x.

(** * Python values *)

(** A Python [str] is a sequence of Unicode code points. *)
Definition str : Type := list N.

Definition ustr (s : string) : str :=
  List.map N_of_ascii (list_ascii_of_string s).

Fixpoint str_eqb (s t : str) : bool :=
  match s, t with
  | [], [] => true
  | c :: s', d :: t' => N.eqb c d && str_eqb s' t'
  | _, _ => false
  end.

(** [c.isspace()] for one character, as CPython decides it. *)
Definition isspace (c : N) : bool :=
  ((9 <=? c) && (c <=? 13) || (28 <=? c) && (c <=? 32) || (c =? 133) || (c =? 160)
   || (c =? 5760) || (8192 <=? c) && (c <=? 8202) || (c =? 8232) || (c =? 8233)
   || (c =? 8239) || (c =? 8287) || (c =? 12288))%N.

Fixpoint lstrip (s : str) : str :=
  match s with
  | c :: s' => if isspace c then lstrip s' else s
  | [] => []
  end.

Definition rstrip (s : str) : str := rev (lstrip (rev s)).

(** [s.strip()] *)
Definition strip (s : str) : str := rstrip (lstrip s).

(** A naive [datetime], as [datetime.now()] returns it. *)
Record datetime : Type := mk_datetime {
  year : N; month : N; day : N;
  hour : N; minute : N; second : N; microsecond : N
}.

(** [n] printed in decimal on [w] digits, zero padded. *)
Fixpoint digits (w : nat) (n : N) : str :=
  match w with
  | O => []
  | S w' => (digits w' (n / 10)%N ++ [(48 + n mod 10)%N])%list
  end.

(** [t.isoformat(sep=" ", timespec="seconds")] *)
Definition isoformat (t : datetime) : str :=
  (digits 4 (year t) ++ ustr "-" ++ digits 2 (month t) ++ ustr "-" ++ digits 2 (day t)
   ++ ustr " "
   ++ digits 2 (hour t) ++ ustr ":" ++ digits 2 (minute t) ++ ustr ":" ++ digits 2 (second t))%list.

Inductive pyval : Type :=
| PyNone
| PyBool (b : bool)
| PyInt (z : Z)
| PyFloat (f : float)
| PyStr (s : str)
| PyDatetime (d : datetime).

Inductive exn : Type :=
| TypeError (msg : string)
| ValueError (msg : string)
| OverflowError (msg : string).

Inductive result (A : Type) : Type :=
| Return (a : A)
| Raise (e : exn).
Arguments Return {A} a.
Arguments Raise {A} e.

(** The values for which [isinstance(v, (int, float))] holds; [bool] is a
    subclass of [int]. *)
Inductive number : Type :=
| NInt (z : Z)
| NFloat (f : float).

Definition as_number (v : pyval) : option number :=
  match v with
  | PyBool b => Some (NInt (if b then 1 else 0))
  | PyInt z => Some (NInt z)
  | PyFloat f => Some (NFloat f)
  | _ => None
  end.

(** [float(z)] for an [int]: rounded to nearest, ties to even; an integer
    beyond the binary64 range raises [OverflowError]. *)
Definition float_of_int (z : Z) : result float :=
  match binary_normalize prec emax z 0 false with
  | S754_infinity _ => Raise (OverflowError "int too large to convert to float")
  | sf => Return (SF2Prim sf)
  end.

(** [float(n)] *)
Definition py_float (n : number) : result float :=
  match n with
  | NInt z => float_of_int z
  | NFloat f => Return f
  end.

(** [n < 0] *)
Definition lt_zero (n : number) : bool :=
  match n with
  | NInt z => z <? 0
  | NFloat f => (f <? 0)%float
  end.

(** * State and exceptions *)

Definition M (S A : Type) : Type := S -> result A * S.

Definition ret {S A : Type} (a : A) : M S A := fun s => (Return a, s).

Definition bind {S A B : Type} (c : M S A) (k : A -> M S B) : M S B :=
  fun s =>
    match c s with
    | (Return a, s') => k a s'
    | (Raise e, s') => (Raise e, s')
    end.

Definition lift {S A : Type} (r : result A) : M S A := fun s => (r, s).

Definition get {S : Type} : M S S := fun s => (Return s, s).

Declare Scope monad_scope.
Delimit Scope monad_scope with monad.
Notation "x <- c ;; k" := (bind c (fun x => k))
  (at level 61, c at next level, right associativity) : monad_scope.
Notation "c ;; k" := (bind c (fun _ => k))
  (at level 61, right associativity) : monad_scope.
Local Open Scope monad_scope.

(** * The program: src/main.py *)

Record Operation : Type := mk_Operation {
  op_type : str;
  amount : float;
  timestamp : datetime;
  balance_after : float;
  status : str;
  credit_used : option bool
}.

Record Account : Type := mk_Account {
  holder : str;
  _balance : float;
  operations_history : list Operation
}.

Record CreditAccount : Type := mk_CreditAccount {
  base : Account;
  credit_limit : float
}.

Definition msg_holder : string := "account_holder должен быть непустой строкой".
Definition msg_balance_type : string := "balance должен быть числом".
Definition msg_balance_negative : string := "Начальный баланс не может быть отрицательным".
Definition msg_amount_type : string := "Сумма операции должна быть числом".
Definition msg_amount_positive : string := "Сумма операции должна быть положительной".
Definition msg_limit_type : string := "credit_limit должен быть числом".
Definition msg_limit_negative : string := "credit_limit не может быть отрицательным".
Definition msg_balance_below : string := "Начальный баланс не может быть ниже -credit_limit".

(** [Account.__init__] *)
Definition Account_init (account_holder balance : pyval) : result Account :=
  match account_holder with
  | PyStr s =>
    match strip s with
    | [] => Raise (ValueError msg_holder)
    | h =>
      match as_number balance with
      | None => Raise (TypeError msg_balance_type)
      | Some n =>
        if lt_zero n then Raise (ValueError msg_balance_negative)
        else
          match py_float n with
          | Raise e => Raise e
          | Return b => Return (mk_Account h b [])
          end
      end
    end
  | _ => Raise (ValueError msg_holder)
  end.

Definition set_balance (b : float) : M Account unit :=
  fun self => (Return tt, mk_Account (holder self) b (operations_history self)).

(** [Account._add_operation]; [now] is the reading of [datetime.now()]. *)
Definition _add_operation (op_type : str) (amount : float) (status : str)
    (credit_used : option bool) (now : datetime) : M Account unit :=
  fun self =>
    let op := mk_Operation op_type amount now (_balance self) status credit_used in
    (Return tt, mk_Account (holder self) (_balance self) (operations_history self ++ [op])%list).

(** [Account._validate_amount] *)
Definition _validate_amount (amount : pyval) : result float :=
  match as_number amount with
  | None => Raise (TypeError msg_amount_type)
  | Some n =>
    match py_float n with
    | Raise e => Raise e
    | Return amount =>
      if (amount <=? 0)%float then Raise (ValueError msg_amount_positive)
      else Return amount
    end
  end.

(** [Account.deposit] *)
Definition Account_deposit (amount : pyval) (now : datetime) : M Account bool :=
  amount <- lift (_validate_amount amount) ;;
  self <- get ;;
  set_balance (_balance self + amount)%float ;;
  _add_operation (ustr "deposit") amount (ustr "success") None now ;;
  ret true.

(** [Account.withdraw] *)
Definition Account_withdraw (amount : pyval) (now : datetime) : M Account bool :=
  amount <- lift (_validate_amount amount) ;;
  self <- get ;;
  if (_balance self <? amount)%float then
    _add_operation (ustr "withdraw") amount (ustr "fail") None now ;;
    ret false
  else
    set_balance (_balance self - amount)%float ;;
    _add_operation (ustr "withdraw") amount (ustr "success") None now ;;
    ret true.

(** [Account.get_balance] *)
Definition get_balance : M Account float :=
  self <- get ;; ret (_balance self).

(** A [dict] with [str] keys, in insertion order. *)
Definition dict : Type := list (str * pyval).

Fixpoint dict_set (d : dict) (k : str) (v : pyval) : dict :=
  match d with
  | [] => [(k, v)]
  | (k', v') :: d' =>
    if str_eqb k' k then (k', v) :: d' else (k', v') :: dict_set d' k v
  end.

(** [dataclasses.asdict] on an [Operation] *)
Definition asdict (op : Operation) : dict :=
  [ (ustr "op_type", PyStr (op_type op));
    (ustr "amount", PyFloat (amount op));
    (ustr "timestamp", PyDatetime (timestamp op));
    (ustr "balance_after", PyFloat (balance_after op));
    (ustr "status", PyStr (status op));
    (ustr "credit_used",
       match credit_used op with Some b => PyBool b | None => PyNone end) ].

Definition history_row (op : Operation) : dict :=
  let row := asdict op in
  dict_set row (ustr "timestamp") (PyStr (isoformat (timestamp op))).

(** [Account.get_history] *)
Definition get_history : M Account (list dict) :=
  self <- get ;;
  ret (fold_left (fun history op => (history ++ [history_row op])%list)
         (operations_history self) []).

(** [CreditAccount.__init__] *)
Definition CreditAccount_init (account_holder balance credit_limit : pyval)
    : result CreditAccount :=
  match as_number credit_limit with
  | None => Raise (TypeError msg_limit_type)
  | Some nl =>
    match py_float nl with
    | Raise e => Raise e
    | Return credit_limit =>
      if (credit_limit <? 0)%float then Raise (ValueError msg_limit_negative)
      else
        match as_number balance with
        | None => Raise (TypeError msg_balance_type)
        | Some nb =>
          match py_float nb with
          | Raise e => Raise e
          | Return balance =>
            if (balance <? - credit_limit)%float then Raise (ValueError msg_balance_below)
            else
              match account_holder with
              | PyStr s =>
                match strip s with
                | [] => Raise (ValueError msg_holder)
                | h => Return (mk_CreditAccount (mk_Account h balance []) credit_limit)
                end
              | _ => Raise (ValueError msg_holder)
              end
          end
        end
    end
  end.

(** The inherited part of a [CreditAccount]: methods of [Account] run on it. *)
Definition inherited {A : Type} (c : M Account A) : M CreditAccount A :=
  fun self =>
    let (r, b) := c (base self) in (r, mk_CreditAccount b (credit_limit self)).

(** [CreditAccount.get_available_credit] *)
Definition get_available_credit : M CreditAccount float :=
  self <- get ;; ret (_balance (base self) + credit_limit self)%float.

(** [CreditAccount.deposit] *)
Definition CreditAccount_deposit (amount : pyval) (now : datetime) : M CreditAccount bool :=
  amount <- lift (_validate_amount amount) ;;
  self <- get ;;
  inherited (set_balance (_balance (base self) + amount)%float) ;;
  inherited (_add_operation (ustr "deposit") amount (ustr "success") (Some false) now) ;;
  ret true.

(** [CreditAccount.withdraw] *)
Definition CreditAccount_withdraw (amount : pyval) (now : datetime) : M CreditAccount bool :=
  amount <- lift (_validate_amount amount) ;;
  self <- get ;;
  let new_balance := (_balance (base self) - amount)%float in
  if (new_balance <? - credit_limit self)%float then
    let credit_used := (_balance (base self) <? 0)%float in
    inherited (_add_operation (ustr "withdraw") amount (ustr "fail") (Some credit_used) now) ;;
    ret false
  else
    let was_credit_used_before := (_balance (base self) <? 0)%float in
    inherited (set_balance new_balance) ;;
    self <- get ;;
    let credit_used := was_credit_used_before || (_balance (base self) <? 0)%float in
    inherited (_add_operation (ustr "withdraw") amount (ustr "success") (Some credit_used) now) ;;
    ret true.

(** * Callers *)

Inductive call : Type :=
| Deposit (amount : pyval) (now : datetime)
| Withdraw (amount : pyval) (now : datetime).

Definition Account_call (c : call) : M Account bool :=
  match c with
  | Deposit a t => Account_deposit a t
  | Withdraw a t => Account_withdraw a t
  end.

Definition CreditAccount_call (c : call) : M CreditAccount bool :=
  match c with
  | Deposit a t => CreditAccount_deposit a t
  | Withdraw a t => CreditAccount_withdraw a t
  end.

(** A caller that issues the calls in turn and goes on after an exception;
    the trace lists the outcome of every call with the state it leaves. *)
Fixpoint run {S : Type} (step : call -> M S bool) (cs : list call) (s : S)
    : list (result bool * S) :=
  match cs with
  | [] => []
  | c :: cs' => let rs := step c s in rs :: run step cs' (snd rs)
  end.

Definition final {S : Type} (s : S) (trace : list (result bool * S)) : S :=
  last (List.map snd trace) s.

(** * Notions of the specification *)

(** A real number, as opposed to the other values a caller can pass: an
    [int] (or [bool]) or a finite float. *)
Definition is_real (v : pyval) : bool :=
  match v with
  | PyBool _ | PyInt _ => true
  | PyFloat f => is_finite f
  | _ => false
  end.

(** An argument that is not a NaN or an infinity. *)
Definition no_special (v : pyval) : bool :=
  match v with
  | PyFloat f => is_finite f
  | _ => true
  end.

Definition call_amount (c : call) : pyval :=
  match c with
  | Deposit a _ => a
  | Withdraw a _ => a
  end.

Definition a_time : datetime := mk_datetime 2024 1 15 10 30 0 0.

(** The record appended by an operation. *)
Definition record (kind : string) (w : float) (now : datetime) (after : float)
    (outcome : string) (flag : option bool) : Operation :=
  mk_Operation (ustr kind) w now after (ustr outcome) flag.

Definition is_success (op : Operation) : bool := str_eqb (status op) (ustr "success").

Definition is_kind (kind : string) (op : Operation) : bool := str_eqb (op_type op) (ustr kind).

(** The sum of the amounts of the successful records of one kind, added up
    in history order as Python's [sum] does. *)
Definition total (kind : string) (h : list Operation) : float :=
  fold_left (fun acc op => if is_success op && is_kind kind op then acc + amount op else acc)%float
    h 0%float.

(** Ledger conservation, as the specification words it. *)
Definition conserved (initial final : float) (h : list Operation) : bool :=
  (final - initial =? total "deposit" h - total "withdraw" h)%float.

(** The balance obtained by applying the successful records in order. *)
Definition replay (initial : float) (h : list Operation) : float :=
  fold_left (fun b op =>
    if is_success op then
      if is_kind "deposit" op then b + amount op
      else if is_kind "withdraw" op then b - amount op
      else b
    else b)%float h initial.

(** A record without its [credit_used] field. *)
Definition erase_flag (op : Operation) : Operation :=
  mk_Operation (op_type op) (amount op) (timestamp op) (balance_after op) (status op) None.

(** A standard and a credit account that agree on everything but the
    [credit_used] fields of their records. *)
Definition alike (s : Account) (c : CreditAccount) : Prop :=
  holder s = holder (base c) /\ _balance s = _balance (base c) /\
  List.map erase_flag (operations_history s) =
  List.map erase_flag (operations_history (base c)).

(** The states an account goes through: the initial one, then the one
    after every call. *)
Definition states {S : Type} (s : S) (trace : list (result bool * S)) : list S :=
  s :: List.map snd trace.

(** A call as the specification has them: its amount is a real number, or
    the validator rejects it. *)
Definition real_or_rejected (c : call) : Prop :=
  no_special (call_amount c) = true \/
  exists e, _validate_amount (call_amount c) = Raise e.

(** [v] is an [int] or a [float], and [float(v)] is [f]. *)
Definition converts_to (v : pyval) (f : float) : Prop :=
  exists n, as_number v = Some n /\ py_float n = Return f.

(** The outcomes of the two constructors on the same arguments agree. *)
Definition same_construction (rs : result Account) (rc : result CreditAccount) : Prop :=
  match rs, rc with
  | Return s, Return c => alike s c
  | Raise _, Raise _ => True
  | _, _ => False
  end.

(** * The object store

    Lists and dicts are mutable objects, reached through references; an
    [Operation] is frozen and stands for itself. *)

Definition loc : Type := nat.

Inductive item : Type :=
| IOp (op : Operation)
| IObj (l : loc).

Inductive obj : Type :=
| OList (items : list item)
| ODict (d : dict).

Definition heap : Type := list obj.

Definition alloc (o : obj) (h : heap) : loc * heap := (List.length h, h ++ [o]).

(** Mutation of the object at [l]; a dangling [l] changes nothing. *)
Fixpoint store (h : heap) (l : loc) (o : obj) : heap :=
  match h, l with
  | [], _ => []
  | _ :: t, O => o :: t
  | x :: t, S l' => x :: store t l' o
  end.

(** [lst.append(x)] on the list at [l] *)
Definition list_append (h : heap) (l : loc) (x : item) : heap :=
  match nth_error h l with
  | Some (OList items) => store h l (OList (items ++ [x]))
  | _ => h
  end.

(** One round of the loop of [Account.get_history]: a new row for [x],
    appended to the list at [history]. *)
Definition loop_body (history : loc) (h : heap) (x : item) : heap :=
  match x with
  | IOp op =>
    let (row, h) := alloc (ODict (asdict op)) h in
    let h := store h row
               (ODict (dict_set (asdict op) (ustr "timestamp")
                         (PyStr (isoformat (timestamp op))))) in
    list_append h history (IObj row)
  | IObj _ => h
  end.

(** [Account.get_history] on the store: [operations_history] is the
    reference held by [self.operations_history]; the result is the reference
    to the new list and the store after the call. *)
Definition get_history_store (operations_history : loc) (h : heap) : option (loc * heap) :=
  match nth_error h operations_history with
  | Some (OList ops) =>
    let (history, h) := alloc (OList []) h in
    Some (history, fold_left (loop_body history) ops h)
  | _ => None
  end.

(** The store [h] after the loop has gone through the records [done]: one
    new list of references, then one new dict per record. *)
Definition loop_heap (h : heap) (done : list Operation) : heap :=
  h ++ OList (List.map IObj (seq (S (List.length h)) (List.length done)))
    :: List.map (fun op => ODict (history_row op)) done.

(** The dicts a list of references leads to. *)
Definition rows_at (h : heap) (l : loc) : list dict :=
  match nth_error h l with
  | Some (OList items) =>
    flat_map (fun x =>
      match x with
      | IObj r => match nth_error h r with Some (ODict d) => [d] | _ => [] end
      | IOp _ => []
      end) items
  | _ => []
  end.

(** What a caller does to objects it holds: a sequence of mutations. *)
Definition mutate (h : heap) (writes : list (loc * obj)) : heap :=
  fold_left (fun h w => store h (fst w) (snd w)) writes h.

(** The locations reachable from the list at [l]. *)
Definition reachable (h : heap) (l : loc) : list loc :=
  l :: match nth_error h l with
       | Some (OList items) =>
         flat_map (fun x => match x with IObj r => [r] | IOp _ => [] end) items
       | _ => []
       end.

(** * Notions used to state what the code keeps *)

(** A string without whitespace at either end, and not empty. *)
Definition trimmed (s : str) : bool :=
  match s with
  | [] => false
  | c :: t => negb (isspace c) && negb (isspace (last t c))
  end.

(** A holder the constructors accept: a [str] with a character that is
    not whitespace. *)
Definition valid_holder (v : pyval) : bool :=
  match v with
  | PyStr s => negb (forallb isspace s)
  | _ => false
  end.

(** The values the calls of a trace returned, in order; a call that raised
    returned nothing. *)
Definition returned {S : Type} (trace : list (result bool * S)) : list bool :=
  flat_map (fun rs => match fst rs with Return r => [r] | Raise _ => [] end) trace.

Definition call_time (c : call) : datetime :=
  match c with
  | Deposit _ t => t
  | Withdraw _ t => t
  end.

Definition call_kind (c : call) : str :=
  match c with
  | Deposit _ _ => ustr "deposit"
  | Withdraw _ _ => ustr "withdraw"
  end.

(** The calls of a trace that returned. *)
Fixpoint answered {S : Type} (cs : list call) (trace : list (result bool * S)) : list call :=
  match cs, trace with
  | c :: cs', rs :: trace' =>
    match fst rs with
    | Return _ => c :: answered cs' trace'
    | Raise _ => answered cs' trace'
    end
  | _, _ => []
  end.

(** The shape of a record: a deposit always succeeded, a withdrawal
    succeeded or failed, the amount passed the validator, and the
    [credit_used] field is a [bool] exactly on a credit account, where a
    deposit has it [False]. *)
Definition well_formed (credit : bool) (op : Operation) : bool :=
  (is_kind "deposit" op && is_success op
   || is_kind "withdraw" op && (is_success op || str_eqb (status op) (ustr "fail")))
  && negb (amount op <=? 0)%float
  && match credit_used op with
     | None => negb credit
     | Some flag => credit && (is_kind "withdraw" op || negb flag)
     end.

(** A [datetime] within the ranges of the class. *)
Definition valid_datetime (t : datetime) : bool :=
  ((1 <=? year t) && (year t <=? 9999) && (1 <=? month t) && (month t <=? 12)
   && (1 <=? day t) && (day t <=? 31) && (hour t <? 24) && (minute t <? 60)
   && (second t <? 60) && (microsecond t <? 1000000))%N.

(** A record with the microseconds of its timestamp cleared. *)
Definition to_the_second (op : Operation) : Operation :=
  let t := timestamp op in
  mk_Operation (op_type op) (amount op)
    (mk_datetime (year t) (month t) (day t) (hour t) (minute t) (second t) 0)
    (balance_after op) (status op) (credit_used op).

(** The float [x] is the integer [z]. *)
Definition int_valued (x : float) (z : Z) : Prop :=
  is_finite x = true /\ FZ x = z * 2 ^ 1074.

(** The amount of a call, when it is an [int]. *)
Definition int_amount (c : call) : option Z :=
  match call_amount c with
  | PyInt z => Some z
  | _ => None
  end.

(** What the deposits of a call sequence add up to at most. *)
Definition deposits (cs : list call) : Z :=
  fold_right (fun c acc =>
    match c with
    | Deposit (PyInt z) _ => Z.max z 0 + acc
    | _ => acc
    end) 0 cs.

(** A standard account on whole numbers: the balance after a call. *)
Definition int_step (c : call) (b : Z) : Z :=
  match c with
  | Deposit (PyInt z) _ => if 0 <? z then b + z else b
  | Withdraw (PyInt z) _ => if (0 <? z) && (z <=? b) then b - z else b
  | _ => b
  end.

(** A credit account with limit [l] on whole numbers. *)
Definition int_credit_step (l : Z) (c : call) (b : Z) : Z :=
  match c with
  | Deposit (PyInt z) _ => if 0 <? z then b + z else b
  | Withdraw (PyInt z) _ => if (0 <? z) && (- l <=? b - z) then b - z else b
  | _ => b
  end.

(** The records that were appended to the history between two states of
    an account. *)
Definition appended (before after : Account) : list Operation :=
  skipn (List.length (operations_history before)) (operations_history after).

(** The float the validator makes of the amount of a call, if any. *)
Definition validated (c : call) : option float :=
  match _validate_amount (call_amount c) with
  | Return w => Some w
  | Raise _ => None
  end.

(** On a credit account, the [credit_used] field of a withdrawal says
    whether the balance it left is negative. *)
Definition flag_tells_sign (op : Operation) : Prop :=
  is_kind "withdraw" op = true -> is_nan (amount op) = false ->
  credit_used op = Some (balance_after op <? 0)%float.

(** A call whose amount is an [int] of at most [bound]. *)
Definition int_call (bound : Z) (c : call) : bool :=
  match int_amount c with
  | Some z => z <=? bound
  | None => false
  end.

(** The account [s] holds the integer [b]; the successful deposits of its
    history add up to the integer [D], the successful withdrawals to [W]. *)
Definition int_ledger (s : Account) (b D W : Z) : Prop :=
  int_valued (_balance s) b /\
  int_valued (total "deposit" (operations_history s)) D /\
  int_valued (total "withdraw" (operations_history s)) W.

(** * Facts on binary64 arithmetic *)

Lemma fexp_eq d : fexp prec emax d = Z.max (d - 53) (-1074).
Proof. reflexivity. Qed.

Lemma canonical_iff m e : canonical_mantissa prec emax m e = true <-> canon m e.
Proof.
  unfold canonical_mantissa, canon, D. rewrite fexp_eq, Z.eqb_eq.
  split; intros H; lia.
Qed.

Lemma D_pos m : 1 <= D m.
Proof. unfold D; lia. Qed.

Lemma D_bounds m : 2 ^ (D m - 1) <= Zpos m < 2 ^ (D m).
Proof.
  unfold D. induction m as [m IH | m IH |]; cbn [digits2_pos].
  - rewrite Pos2Z.inj_succ.
    replace (Z.succ (Zpos (digits2_pos m)) - 1) with (Z.succ (Zpos (digits2_pos m) - 1)) by lia.
    rewrite !Z.pow_succ_r by lia. lia.
  - rewrite Pos2Z.inj_succ.
    replace (Z.succ (Zpos (digits2_pos m)) - 1) with (Z.succ (Zpos (digits2_pos m) - 1)) by lia.
    rewrite !Z.pow_succ_r by lia. lia.
  - cbn. lia.
Qed.

Lemma D_unique m d : 2 ^ (d - 1) <= Zpos m < 2 ^ d -> D m = d.
Proof.
  intros [H1 H2]. pose proof (D_bounds m) as [H3 H4]. pose proof (D_pos m).
  assert (d >= 1).
  { destruct (Z_lt_le_dec d 1); [|lia]. exfalso.
    assert (2 ^ d <= 2 ^ 0) by (destruct (Z_lt_le_dec d 0); [rewrite Z.pow_neg_r by lia; cbn; lia | apply Z.pow_le_mono_r; lia]).
    cbn in *. lia. }
  destruct (Z.lt_trichotomy (D m) d) as [L | [E | G]]; [| exact E |].
  - exfalso. assert (2 ^ D m <= 2 ^ (d - 1)) by (apply Z.pow_le_mono_r; lia). lia.
  - exfalso. assert (2 ^ d <= 2 ^ (D m - 1)) by (apply Z.pow_le_mono_r; lia). lia.
Qed.

Lemma shl_val m d : Zpos (Pos.iter xO m d) = Zpos m * 2 ^ Zpos d.
Proof.
  revert m. induction d using Pos.peano_ind; intros m.
  - cbn. lia.
  - rewrite Pos.iter_succ, Pos2Z.inj_succ, Z.pow_succ_r by lia.
    rewrite Pos2Z.inj_xO, IHd. lia.
Qed.

Lemma D_shl m d : D (Pos.iter xO m d) = D m + Zpos d.
Proof.
  apply D_unique. rewrite shl_val. pose proof (D_bounds m) as [H1 H2]. pose proof (D_pos m).
  replace (D m + Zpos d - 1) with ((D m - 1) + Zpos d) by lia.
  rewrite !Z.pow_add_r by lia.
  assert (0 < 2 ^ Zpos d) by (apply Z.pow_pos_nonneg; lia).
  split; nia.
Qed.

(** Shifting a mantissa right. *)

Lemma shifted_1 a : shifted 1 a (shr_1 a).
Proof.
  destruct a as [m r s]. unfold shifted; cbn [shr_m shr_r shr_s]. intros Hm.
  change (2 ^ 1) with 2.
  destruct m as [| p | p]; [| | lia].
  - cbn. split; [lia|]. split; [reflexivity|]. intros -> -> _; auto.
  - destruct p as [p | p |]; cbn [shr_1 shr_m shr_r shr_s].
    + split; [lia|]. split.
      * rewrite Pos2Z.inj_xI. apply Z.div_unique with (r := 1); lia.
      * intros _ _ H. rewrite Pos2Z.inj_xI in H.
        rewrite Z.add_comm, Z.mul_comm, Z.mod_add in H by lia. discriminate H.
    + split; [lia|]. split.
      * rewrite Pos2Z.inj_xO. apply Z.div_unique with (r := 0); lia.
      * intros -> -> _; auto.
    + split; [lia|]. split; [reflexivity|]. intros _ _ H; discriminate H.
Qed.

Lemma shifted_comp j k a b c :
  0 <= j -> 0 <= k -> shifted j a b -> shifted k b c -> shifted (j + k) a c.
Proof.
  intros Hj Hk Hab Hbc Ha.
  destruct (Hab Ha) as (Hb & Eb & Xb).
  destruct (Hbc Hb) as (Hc & Ec & Xc).
  assert (Pj : 0 < 2 ^ j) by (apply Z.pow_pos_nonneg; lia).
  assert (Pk : 0 < 2 ^ k) by (apply Z.pow_pos_nonneg; lia).
  split; [exact Hc|]. split.
  - rewrite Ec, Eb, Z.pow_add_r, Z.div_div by lia. reflexivity.
  - intros Hr Hs Hmod. rewrite Z.pow_add_r in Hmod by lia.
    apply Z.mod_divide in Hmod; [|lia]. destruct Hmod as [q Hq].
    assert (Hm1 : shr_m a mod 2 ^ j = 0).
    { apply Z.mod_divide; [lia|]. exists (q * 2 ^ k). lia. }
    destruct (Xb Hr Hs Hm1) as [Hrb Hsb].
    apply Xc; auto. rewrite Eb.
    apply Z.mod_divide; [lia|]. exists q.
    rewrite Hq. replace (q * (2 ^ j * 2 ^ k)) with (q * 2 ^ k * 2 ^ j) by lia.
    apply Z.div_mul; lia.
Qed.

Lemma shifted_iter p a : shifted (Zpos p) a (iter_pos shr_1 p a).
Proof.
  revert a. induction p as [p IH | p IH |]; intros a; cbn [iter_pos].
  - replace (Zpos p~1) with (1 + Zpos p + Zpos p) by lia.
    eapply shifted_comp; [lia | lia | | apply IH].
    eapply shifted_comp; [lia | lia | apply shifted_1 | apply IH].
  - replace (Zpos p~0) with (Zpos p + Zpos p) by lia.
    eapply shifted_comp; [lia | lia | apply IH | apply IH].
  - apply shifted_1.
Qed.

(* one rounding stage on a positive integer [n] at exponent [e]:
   shift right by [k >= 0] *)
Lemma shr_spec n e k :
  0 <= n -> 0 <= k ->
  exists mrs, shr (shr_record_of_loc n loc_Exact) e k = (mrs, e + k) /\
    shr_m mrs = n / 2 ^ k /\
    (n mod 2 ^ k = 0 -> loc_of_shr_record mrs = loc_Exact).
Proof.
  intros Hn Hk. unfold shr. destruct k as [| p | p]; [| | lia].
  - exists (shr_record_of_loc n loc_Exact). cbn. rewrite Z.add_0_r, Z.div_1_r. auto.
  - eexists; split; [reflexivity|].
    destruct (shifted_iter p (shr_record_of_loc n loc_Exact) Hn) as (_ & E & X).
    cbn [shr_record_of_loc shr_m shr_r shr_s] in *. split; [exact E|].
    intros Hmod. destruct (X eq_refl eq_refl Hmod) as [Hr Hs].
    destruct (iter_pos shr_1 p _) as [m r s]; cbn in *. subst; reflexivity.
Qed.

Lemma shr_nonpos mrs e k : k <= 0 -> shr mrs e k = (mrs, e).
Proof. intros H; unfold shr; destruct k; auto; lia. Qed.

Lemma rne_bounds m l : m <= round_nearest_even m l <= m + 1.
Proof. unfold round_nearest_even. destruct l as [|[]]; try destruct (Z.even m); lia. Qed.

Lemma canon_cases m e : canon m e <-> (D m <= 53 /\ e = -1074) \/ (D m = 53 /\ -1074 <= e).
Proof. unfold canon; split; lia. Qed.

Lemma val_pos m e : -1074 <= e -> 0 < val m e.
Proof. intros; unfold val. assert (0 < 2 ^ (e + 1074)) by (apply Z.pow_pos_nonneg; lia). nia. Qed.

Lemma pow2_split a b : 0 <= a -> 0 <= b -> 2 ^ (a + b) = 2 ^ a * 2 ^ b.
Proof. intros; apply Z.pow_add_r; auto. Qed.

Lemma val_bounds m e : -1074 <= e -> 2 ^ (D m + e + 1073) <= val m e < 2 ^ (D m + e + 1074).
Proof.
  intros He. unfold val. pose proof (D_bounds m) as [H1 H2]. pose proof (D_pos m).
  replace (D m + e + 1073) with ((D m - 1) + (e + 1074)) by lia.
  replace (D m + e + 1074) with (D m + (e + 1074)) by lia.
  rewrite (pow2_split (D m - 1) (e + 1074)), (pow2_split (D m) (e + 1074)) by lia.
  assert (0 < 2 ^ (e + 1074)) by (apply Z.pow_pos_nonneg; lia).
  split; [apply Z.mul_le_mono_nonneg_r; lia | apply Z.mul_lt_mono_pos_r; lia].
Qed.

(** The order of canonical representations. *)
Lemma canon_exp_le m1 e1 m2 e2 :
  canon m1 e1 -> canon m2 e2 -> e1 < e2 -> val m1 e1 < val m2 e2.
Proof.
  intros C1 C2 L. apply canon_cases in C1, C2.
  assert (He1 : -1074 <= e1) by lia. assert (He2 : -1074 <= e2) by lia.
  assert (Hd2 : D m2 = 53) by lia. assert (Hd1 : D m1 <= 53) by lia.
  pose proof (val_bounds m1 e1 He1) as [_ U]. pose proof (val_bounds m2 e2 He2) as [Lo _].
  assert (2 ^ (D m1 + e1 + 1074) <= 2 ^ (D m2 + e2 + 1073)) by (apply Z.pow_le_mono_r; lia).
  lia.
Qed.

Lemma val_same_exp m1 m2 e : -1074 <= e -> (val m1 e ?= val m2 e) = (Zpos m1 ?= Zpos m2).
Proof.
  intros He. unfold val. assert (0 < 2 ^ (e + 1074)) by (apply Z.pow_pos_nonneg; lia).
  symmetry. apply Zmult_compare_compat_r. lia.
Qed.

Lemma compare_canon m1 e1 m2 e2 :
  canon m1 e1 -> canon m2 e2 ->
  match e1 ?= e2 with Lt => Lt | Gt => Gt | Eq => Pos.compare_cont Eq m1 m2 end
  = (val m1 e1 ?= val m2 e2).
Proof.
  intros C1 C2. destruct (Z.compare_spec e1 e2) as [E | L | G].
  - subst e2. rewrite val_same_exp by (apply canon_cases in C1; lia). reflexivity.
  - symmetry. apply Z.compare_lt_iff. apply canon_exp_le; auto.
  - symmetry. apply Z.compare_gt_iff. apply canon_exp_le; auto.
Qed.

Lemma canon_val_le_exp m1 e1 m2 e2 :
  canon m1 e1 -> canon m2 e2 -> val m1 e1 <= val m2 e2 -> e1 <= e2.
Proof.
  intros C1 C2 L. destruct (Z_lt_le_dec e2 e1) as [G|]; [|lia].
  pose proof (canon_exp_le _ _ _ _ C2 C1 G). lia.
Qed.

Lemma shr_fexp_spec m e :
  0 < m ->
  exists mrs k, 
    k = Z.max 0 (Z.max (Zdigits2 m + e - 53) (-1074) - e) /\
    shr_fexp prec emax m e loc_Exact = (mrs, e + k) /\
    shr_m mrs = m / 2 ^ k /\
    (m mod 2 ^ k = 0 -> loc_of_shr_record mrs = loc_Exact).
Proof.
  intros Hm. unfold shr_fexp. rewrite fexp_eq.
  set (j := Z.max (Zdigits2 m + e - 53) (-1074) - e).
  destruct (Z_lt_le_dec j 0) as [Hj | Hj].
  - exists (shr_record_of_loc m loc_Exact), 0.
    rewrite shr_nonpos by lia. rewrite Z.add_0_r. cbn. rewrite Z.div_1_r.
    repeat split; auto. lia.
  - destruct (shr_spec m e j) as (mrs & E1 & E2 & E3); [lia | lia |].
    exists mrs, j. repeat split; auto. lia.
Qed.

Lemma Zdigits2_pos m : Zdigits2 (Zpos m) = D m.
Proof. reflexivity. Qed.

Lemma binary_round_aux_canon s M E :
  canon M E ->
  binary_round_aux prec emax s (Zpos M) E loc_Exact
  = if E <=? 971 then S754_finite s M E else S754_infinity s.
Proof.
  intros C. unfold binary_round_aux.
  destruct (shr_fexp_spec (Zpos M) E) as (mrs & k & Hk & E1 & E2 & E3); [lia|].
  rewrite Zdigits2_pos in Hk. unfold canon in C.
  assert (K0 : k = 0) by lia. clear Hk. subst k. rewrite Z.add_0_r in E1. rewrite E1.
  change (2 ^ 0) with 1 in *. rewrite Z.div_1_r in E2. rewrite E3 by apply Z.mod_1_r.
  rewrite E2. cbn [round_nearest_even].
  destruct (shr_fexp_spec (Zpos M) E) as (mrs2 & k2 & Hk2 & F1 & F2 & F3); [lia|].
  rewrite Zdigits2_pos in Hk2. assert (K0 : k2 = 0) by lia. clear Hk2. subst k2.
  rewrite Z.add_0_r in F1. rewrite F1.
  change (2 ^ 0) with 1 in *. rewrite Z.div_1_r in F2. rewrite F2.
  reflexivity.
Qed.

Lemma pow2_pos k : 0 <= k -> 0 < 2 ^ k.
Proof. intros; apply Z.pow_pos_nonneg; lia. Qed.

Lemma div_pow2_bounds n k d :
  0 <= k -> 2 ^ (d + k - 1) <= n < 2 ^ (d + k) -> 1 <= d ->
  2 ^ (d - 1) <= n / 2 ^ k < 2 ^ d.
Proof.
  intros Hk [L U] Hd. pose proof (pow2_pos k Hk) as P.
  replace (d + k - 1) with ((d - 1) + k) in L by lia.
  rewrite pow2_split in L, U by lia.
  split.
  - apply Z.div_le_lower_bound; lia.
  - apply Z.div_lt_upper_bound; lia.
Qed.

(* arithmetic of one rounding step: [n = Pk * m' + rem] is cut to [m'],
   then rounded to [m''] *)
Lemma round_up_le Pk Q m' m'' rem c :
  0 < Pk -> 0 < Q -> 0 <= rem < Pk -> m' <= m'' <= m' + 1 ->
  (rem = 0 -> m'' = m') ->
  (Pk * m' + rem) * Q <= c * (Pk * Q) -> m'' * (Pk * Q) <= c * (Pk * Q).
Proof.
  intros HP HQ Hrem Hm Hex H.
  assert (HPQ : 0 < Pk * Q) by nia.
  assert (Hc : m' <= c).
  { apply Z.mul_le_mono_pos_r with (p := Pk * Q); [exact HPQ | nia]. }
  apply Z.mul_le_mono_nonneg_r; [lia|].
  destruct (Z.eq_dec c m') as [E | N]; [| lia].
  subst c. assert (rem * Q <= 0) by nia. assert (rem = 0) by nia.
  rewrite Hex by assumption. lia.
Qed.

Lemma round_down_ge Pk Q m' m'' rem c :
  0 < Pk -> 0 < Q -> 0 <= rem < Pk -> m' <= m'' <= m' + 1 ->
  c * (Pk * Q) <= (Pk * m' + rem) * Q -> c * (Pk * Q) <= m'' * (Pk * Q).
Proof.
  intros HP HQ Hrem Hm H.
  assert (HPQ : 0 < Pk * Q) by nia.
  apply Z.mul_le_mono_nonneg_r; [lia|].
  assert (c < m' + 1); [| lia].
  apply Z.mul_lt_mono_pos_r with (p := Pk * Q); [exact HPQ | nia].
Qed.

Lemma small_lt_cut Y PK m' :
  0 < PK -> 2 ^ 52 <= m' -> Y < 2 ^ 52 * PK -> Y < m' * PK.
Proof. intros. assert (2 ^ 52 * PK <= m' * PK) by (apply Z.mul_le_mono_nonneg_r; lia). lia. Qed.

(* the rounding of a positive integer [n * 2^e], [e >= emin], to binary64 *)
Lemma binary_round_spec s n e :
  -1074 <= e ->
  exists M E, canon M E /\
    binary_round prec emax s n e
    = (if E <=? 971 then S754_finite s M E else S754_infinity s) /\
    (forall my ey, canon my ey -> val n e <= val my ey -> val M E <= val my ey) /\
    (forall my ey, canon my ey -> val my ey <= val n e -> val my ey <= val M E).
Proof.
  intros He. unfold binary_round. rewrite fexp_eq. fold (D n).
  set (fe := Z.max (D n + e - 53) (-1074)).
  pose proof (D_pos n) as Dn1. pose proof (D_bounds n) as [DnL DnU].
  destruct (Z_le_gt_dec (D n) 53) as [Hd | Hd].
  - (* exact: the mantissa fits *)
    assert (Hfe : fe <= e) by lia.
    unfold shl_align. destruct (fe - e) as [| p | p] eqn:Hs; [| lia |].
    + assert (fe = e) by lia.
      exists n, e. split; [unfold canon; lia|].
      split; [apply binary_round_aux_canon; unfold canon; lia|].
      split; auto.
    + assert (Hp : Zpos p = e - fe) by lia.
      assert (C : canon (Pos.iter xO n p) fe).
      { unfold canon. rewrite D_shl. lia. }
      assert (V : val (Pos.iter xO n p) fe = val n e).
      { unfold val. rewrite shl_val. replace (e + 1074) with (Zpos p + (fe + 1074)) by lia.
        rewrite (pow2_split (Zpos p) (fe + 1074)) by lia. ring. }
      exists (Pos.iter xO n p), fe. split; [exact C|].
      split; [apply binary_round_aux_canon; exact C|].
      rewrite V. split; auto.
  - (* the mantissa is shifted right and rounded *)
    assert (Hfe : fe = D n + e - 53) by lia.
    unfold shl_align. destruct (fe - e) as [| p | p] eqn:Hs; [lia | | lia].
    unfold binary_round_aux.
    destruct (shr_fexp_spec (Zpos n) e) as (mrs & k & Hk & E1 & E2 & E3); [lia|].
    rewrite Zdigits2_pos in Hk. assert (Hk' : k = D n - 53) by lia. clear Hk.
    rewrite E1.
    set (m' := shr_m mrs) in *.
    set (m'' := round_nearest_even m' (loc_of_shr_record mrs)).
    assert (Hm' : 2 ^ 52 <= m' < 2 ^ 53).
    { rewrite E2. apply (div_pow2_bounds (Zpos n) k 53); try lia.
      replace (53 + k - 1) with (D n - 1) by lia. replace (53 + k) with (D n) by lia. lia. }
    pose proof (rne_bounds m' (loc_of_shr_record mrs)) as Hr. fold m'' in Hr.
    assert (Hex : Zpos n mod 2 ^ k = 0 -> m'' = m').
    { intros H. unfold m''. rewrite (E3 H). reflexivity. }
    assert (Pk : 0 < 2 ^ k) by (apply pow2_pos; lia).
    assert (Pe : 0 < 2 ^ (e + 1074)) by (apply pow2_pos; lia).
    assert (PK : 2 ^ (e + k + 1074) = 2 ^ k * 2 ^ (e + 1074)).
    { replace (e + k + 1074) with (k + (e + 1074)) by lia. apply pow2_split; lia. }
    pose proof (Z.div_mod (Zpos n) (2 ^ k) ltac:(lia)) as Hdm. rewrite <- E2 in Hdm.
    pose proof (Z.mod_pos_bound (Zpos n) (2 ^ k) Pk) as Hrem.
    set (rem := Zpos n mod 2 ^ k) in *.
    (* bounds shared by the two outcomes, stated on [m'' * 2^(fe+1074)] *)
    assert (Vn : val n e = (2 ^ k * m' + rem) * 2 ^ (e + 1074)).
    { unfold val. rewrite Hdm at 1. reflexivity. }
    assert (small : forall my ey, canon my ey -> ey < e + k ->
                    val my ey < 2 ^ 52 * (2 ^ k * 2 ^ (e + 1074))).
    { intros my ey C Lt. apply canon_cases in C.
      assert (Hey : -1074 <= ey) by lia.
      pose proof (val_bounds my ey Hey) as [_ YU].
      assert (2 ^ (D my + ey + 1074) <= 2 ^ (52 + (e + k + 1074))) by (apply Z.pow_le_mono_r; lia).
      rewrite (pow2_split 52 (e + k + 1074)), PK in H by lia. lia. }
    assert (big : forall my ey, canon my ey -> e + k <= ey ->
                  exists c, val my ey = c * (2 ^ k * 2 ^ (e + 1074))).
    { intros my ey C Ge. exists (Zpos my * 2 ^ (ey - (e + k))).
      unfold val. replace (ey + 1074) with ((ey - (e + k)) + (e + k + 1074)) by lia.
      rewrite (pow2_split (ey - (e + k)) (e + k + 1074)), PK by lia. ring. }
    assert (Pm : 0 < 2 ^ k * 2 ^ (e + 1074)) by (apply Z.mul_pos_pos; assumption).
    assert (UB : forall my ey, canon my ey -> val n e <= val my ey ->
                 m'' * 2 ^ (e + k + 1074) <= val my ey).
    { intros my ey C LV. rewrite PK.
      destruct (Z_lt_le_dec ey (e + k)) as [Lt | Ge].
      - exfalso. pose proof (small my ey C Lt) as S.
        pose proof (small_lt_cut _ _ m' Pm (proj1 Hm') S) as S'.
        assert (m' * (2 ^ k * 2 ^ (e + 1074)) <= val n e).
        { rewrite Vn, Z.mul_assoc, (Z.mul_comm m').
          apply Z.mul_le_mono_nonneg_r; lia. }
        lia.
      - destruct (big my ey C Ge) as [c Ec]. rewrite Ec in *. rewrite Vn in LV.
        apply (round_up_le (2 ^ k) (2 ^ (e + 1074)) m' m'' rem c); auto. }
    assert (LB : forall my ey, canon my ey -> val my ey <= val n e ->
                 val my ey <= m'' * 2 ^ (e + k + 1074)).
    { intros my ey C LV. rewrite PK.
      destruct (Z_lt_le_dec ey (e + k)) as [Lt | Ge].
      - pose proof (small my ey C Lt) as S.
        pose proof (small_lt_cut _ _ m' Pm (proj1 Hm') S) as S'.
        assert (m' * (2 ^ k * 2 ^ (e + 1074)) <= m'' * (2 ^ k * 2 ^ (e + 1074))).
        { apply Z.mul_le_mono_nonneg_r; lia. }
        lia.
      - destruct (big my ey C Ge) as [c Ec]. rewrite Ec in *. rewrite Vn in LV.
        apply (round_down_ge (2 ^ k) (2 ^ (e + 1074)) m' m'' rem c); auto. }
    destruct (Z_lt_le_dec m'' (2 ^ 53)) as [Hlt | Hge].
    + (* no carry *)
      destruct m'' as [| M | M] eqn:EM; [lia | | lia].
      assert (DM : D M = 53) by (apply D_unique; lia).
      assert (C : canon M (e + k)) by (unfold canon; lia).
      destruct (shr_fexp_spec (Zpos M) (e + k)) as (mrs2 & k2 & Hk2 & F1 & F2 & F3); [lia|].
      rewrite Zdigits2_pos in Hk2. assert (K0 : k2 = 0) by lia. clear Hk2. subst k2.
      rewrite Z.add_0_r in F1. rewrite F1.
      change (2 ^ 0) with 1 in F2. rewrite Z.div_1_r in F2. rewrite F2.
      exists M, (e + k). split; [exact C|]. split; [reflexivity|].
      unfold val at 1 4. split; auto.
    + (* carry into the next binade *)
      assert (EM : m'' = 2 ^ 53) by lia.
      destruct m'' as [| M | M] eqn:EM'; [lia | | lia].
      assert (DM : D M = 54) by (apply D_unique; lia).
      destruct (shr_fexp_spec (Zpos M) (e + k)) as (mrs2 & k2 & Hk2 & F1 & F2 & F3); [lia|].
      rewrite Zdigits2_pos in Hk2. assert (K1 : k2 = 1) by lia. clear Hk2. subst k2.
      rewrite F1. rewrite EM in F2. change (2 ^ 53 / 2 ^ 1) with (Zpos (2 ^ 52)) in F2.
      rewrite F2.
      exists (2 ^ 52)%positive, (e + k + 1).
      assert (C : canon (2 ^ 52) (e + k + 1)).
      { unfold canon. replace (D (2 ^ 52)) with 53 by reflexivity. lia. }
      split; [exact C|]. split; [reflexivity|].
      assert (V : val (2 ^ 52) (e + k + 1) = Zpos M * 2 ^ (e + k + 1074)).
      { unfold val. replace (e + k + 1 + 1074) with (1 + (e + k + 1074)) by lia.
        rewrite (pow2_split 1 (e + k + 1074)) by lia. rewrite EM.
        change (Zpos (2 ^ 52)) with (2 ^ 52). change (2 ^ 53) with (2 ^ 52 * 2 ^ 1). ring. }
      rewrite V. split; auto.
Qed.

(** * The round and sticky bits of a shifted mantissa *)

Lemma shr_1_spec m r s :
  0 <= m -> shr_1 (Build_shr_record m r s) = Build_shr_record (m / 2) (Z.odd m) (r || s).
Proof.
  intros Hm. destruct m as [| p | p]; [reflexivity | | lia].
  destruct p as [p | p |]; cbn [shr_1].
  - f_equal. rewrite Pos2Z.inj_xI. apply Z.div_unique with (r := 1); lia.
  - f_equal. rewrite Pos2Z.inj_xO. apply Z.div_unique with (r := 0); lia.
  - reflexivity.
Qed.

Lemma iter_pos_nat {A : Type} (f : A -> A) p x :
  iter_pos f p x = Nat.iter (Pos.to_nat p) f x.
Proof.
  revert x. induction p as [p IH | p IH |]; intros x; cbn [iter_pos].
  - rewrite !IH, Pos2Nat.inj_xI.
    replace (S (2 * Pos.to_nat p)) with (Pos.to_nat p + (Pos.to_nat p + 1))%nat by lia.
    rewrite !Nat.iter_add. reflexivity.
  - rewrite !IH, Pos2Nat.inj_xO.
    replace (2 * Pos.to_nat p)%nat with (Pos.to_nat p + Pos.to_nat p)%nat by lia.
    rewrite Nat.iter_add. reflexivity.
  - reflexivity.
Qed.

Lemma mod_pow2_succ n k :
  0 <= k -> n mod 2 ^ (k + 1) = n mod 2 ^ k + 2 ^ k * ((n / 2 ^ k) mod 2).
Proof.
  intros Hk. rewrite Z.pow_add_r by lia. change (2 ^ 1) with 2.
  assert (0 < 2 ^ k) by (apply Z.pow_pos_nonneg; lia).
  apply Z.rem_mul_r; lia.
Qed.

(** [k + 1] shifts of [n]: the mantissa is [n / 2^(k+1)], the round bit
    is bit [k] of [n], and the sticky bit says whether a lower bit is set. *)
Lemma shr_iter n k :
  0 <= n ->
  Nat.iter (S k) shr_1 (Build_shr_record n false false)
  = Build_shr_record (n / 2 ^ (Z.of_nat k + 1)) (Z.odd (n / 2 ^ Z.of_nat k))
      (negb (n mod 2 ^ Z.of_nat k =? 0)).
Proof.
  intros Hn. induction k as [| k IH].
  - cbn [Nat.iter]. rewrite shr_1_spec by lia. cbn [Z.of_nat]. change (2 ^ 0) with 1.
    rewrite Z.div_1_r, Z.mod_1_r. reflexivity.
  - change (Nat.iter (S (S k)) shr_1 (Build_shr_record n false false))
      with (shr_1 (Nat.iter (S k) shr_1 (Build_shr_record n false false))).
    rewrite IH.
    assert (P : 0 < 2 ^ Z.of_nat k) by (apply Z.pow_pos_nonneg; lia).
    assert (P1 : 0 < 2 ^ (Z.of_nat k + 1)) by (apply Z.pow_pos_nonneg; lia).
    rewrite shr_1_spec by (apply Z.div_pos; lia).
    rewrite Nat2Z.inj_succ. unfold Z.succ. f_equal.
    + rewrite Z.div_div by lia. rewrite (Z.pow_add_r 2 (Z.of_nat k + 1) 1) by lia.
      reflexivity.
    + rewrite (mod_pow2_succ n (Z.of_nat k)) by lia.
      pose proof (Z.mod_pos_bound n (2 ^ Z.of_nat k) P) as B.
      rewrite <- Z.bit0_mod, Z.bit0_odd.
      destruct (Z.odd (n / 2 ^ Z.of_nat k)); cbn [Z.b2z orb].
      * symmetry. apply negb_true_iff, Z.eqb_neq. lia.
      * rewrite Z.mul_0_r, Z.add_0_r. reflexivity.
Qed.

Lemma shr_cut n e k :
  0 <= n -> 0 < k ->
  shr (shr_record_of_loc n loc_Exact) e k
  = (Build_shr_record (n / 2 ^ k) (Z.odd (n / 2 ^ (k - 1)))
       (negb (n mod 2 ^ (k - 1) =? 0)), e + k).
Proof.
  intros Hn Hk. destruct k as [| p | p]; try lia. cbn [shr shr_record_of_loc].
  rewrite iter_pos_nat.
  destruct (Pos.to_nat p) as [| j] eqn:Ej; [lia|].
  rewrite (shr_iter n j Hn).
  assert (Ez : Z.of_nat j = Zpos p - 1) by lia.
  rewrite Ez. replace (Zpos p - 1 + 1) with (Zpos p) by lia. reflexivity.
Qed.

(** * Integers next to the largest binary64 number *)

Lemma binary_round_near_top s n :
  (2 ^ 53 - 1) * 2 ^ 971 <= Zpos n < 2 ^ 1024 ->
  binary_round prec emax s n 0 =
  if Zpos n <? 2 ^ 1024 - 2 ^ 970 then S754_finite s (2 ^ 53 - 1)%positive 971
  else S754_infinity s.
Proof.
  intros [L U]. unfold binary_round.
  assert (Dn : D n = 1024) by (apply D_unique; lia).
  rewrite fexp_eq. fold (D n). rewrite Dn.
  change (Z.max (1024 + 0 - 53) (-1074)) with 971.
  unfold shl_align. change (971 - 0) with 971. cbv beta iota.
  unfold binary_round_aux, shr_fexp. rewrite Zdigits2_pos, Dn, fexp_eq.
  change (Z.max (1024 + 0 - 53) (-1074) - 0) with 971.
  rewrite (shr_cut (Zpos n) 0 971) by lia.
  change (971 - 1) with 970. change (0 + 971) with 971.
  assert (Em : Zpos n / 2 ^ 971 = 2 ^ 53 - 1).
  { symmetry. apply Z.div_unique with (r := Zpos n - (2 ^ 53 - 1) * 2 ^ 971); lia. }
  rewrite Em. cbn [shr_m].
  destruct (Z.ltb_spec (Zpos n) (2 ^ 1024 - 2 ^ 970)) as [Lt | Ge].
  - assert (Er : Zpos n / 2 ^ 970 = 2 ^ 54 - 2).
    { symmetry. apply Z.div_unique with (r := Zpos n - (2 ^ 54 - 2) * 2 ^ 970); lia. }
    rewrite Er. change (Z.odd (2 ^ 54 - 2)) with false.
    assert (Rn : forall b,
              round_nearest_even (2 ^ 53 - 1)
                (loc_of_shr_record (Build_shr_record (2 ^ 53 - 1) false b)) = 2 ^ 53 - 1).
    { intros [|]; reflexivity. }
    rewrite Rn. reflexivity.
  - assert (Er : Zpos n / 2 ^ 970 = 2 ^ 54 - 1).
    { symmetry. apply Z.div_unique with (r := Zpos n - (2 ^ 54 - 1) * 2 ^ 970); lia. }
    rewrite Er. change (Z.odd (2 ^ 54 - 1)) with true.
    assert (Rn : forall b,
              round_nearest_even (2 ^ 53 - 1)
                (loc_of_shr_record (Build_shr_record (2 ^ 53 - 1) true b)) = 2 ^ 53).
    { intros [|]; reflexivity. }
    rewrite Rn. reflexivity.
Qed.

Lemma canon_val_pos m e : canon m e -> 0 < val m e.
Proof. intros C; apply val_pos; apply canon_cases in C; lia. Qed.

Lemma SFcompare_fin x y :
  fin_valid x -> fin_valid y -> SFcompare x y = Some (SF2Z x ?= SF2Z y).
Proof.
  destruct x as [sx | sx | | sx mx ex], y as [sy | sy | | sy my ey]; cbn [fin_valid]; try (intros ? ?; contradiction).
  - reflexivity.
  - intros _ [C _]. pose proof (canon_val_pos _ _ C). cbn [SFcompare SF2Z]. f_equal.
    symmetry. destruct sy; cbn [cond_Zopp]; [apply Z.compare_gt_iff | apply Z.compare_lt_iff]; lia.
  - intros [C _] _. pose proof (canon_val_pos _ _ C). cbn [SFcompare SF2Z]. f_equal.
    symmetry. destruct sx; cbn [cond_Zopp]; [apply Z.compare_lt_iff | apply Z.compare_gt_iff]; lia.
  - intros [Cx _] [Cy _]. pose proof (canon_val_pos _ _ Cx). pose proof (canon_val_pos _ _ Cy).
    cbn [SFcompare SF2Z]. f_equal.
    destruct sx, sy; cbn [cond_Zopp].
    + rewrite Z.compare_opp. rewrite <- (compare_canon my ey mx ex) by assumption.
      rewrite (Z.compare_antisym ey ex). 
      destruct (ey ?= ex); cbn [CompOpp]; try reflexivity.
      rewrite Pos.compare_cont_antisym. reflexivity.
    + symmetry. apply Z.compare_lt_iff; lia.
    + symmetry. apply Z.compare_gt_iff; lia.
    + apply compare_canon; assumption.
Qed.

Lemma SFleb_fin x y : fin_valid x -> fin_valid y -> SFleb x y = (SF2Z x <=? SF2Z y).
Proof.
  intros Hx Hy. unfold SFleb. rewrite (SFcompare_fin x y Hx Hy). unfold Z.leb.
  destruct (SF2Z x ?= SF2Z y); reflexivity.
Qed.

Lemma rounds_to_fin v r : fin_valid r -> SF2Z r = v -> rounds_to v r.
Proof.
  intros Hr <- y Hy. split; intros H.
  - rewrite SFleb_fin by assumption. apply Z.leb_le; assumption.
  - rewrite SFleb_fin by assumption. apply Z.leb_le; assumption.
Qed.

Lemma rounds_to_pos n e :
  -1074 <= e -> rounds_to (val n e) (binary_round prec emax false n e).
Proof.
  intros He. destruct (binary_round_spec false n e He) as (M & E & C & -> & UB & LB).
  pose proof (val_pos n e He) as Vp.
  intros y Hy. destruct y as [sy | sy | | sy my ey]; cbn [fin_valid] in Hy; try contradiction.
  - cbn [SF2Z]. split; [intros _ | lia]. destruct (E <=? 971); reflexivity.
  - destruct Hy as [Cy By]. pose proof (canon_val_pos _ _ Cy) as Yp.
    destruct sy; cbn [SF2Z cond_Zopp].
    + split; [intros _ | lia]. destruct (E <=? 971); reflexivity.
    + split; intros H.
      * specialize (LB my ey Cy H). destruct (E <=? 971) eqn:B; [| reflexivity].
        apply Z.leb_le in B.
        rewrite SFleb_fin by (cbn; auto). cbn [SF2Z cond_Zopp]. apply Z.leb_le; exact LB.
      * specialize (UB my ey Cy H).
        pose proof (canon_val_le_exp _ _ _ _ C Cy UB) as LE.
        assert (B : (E <=? 971) = true) by (apply Z.leb_le; lia). rewrite B.
        apply Z.leb_le in B.
        rewrite SFleb_fin by (cbn; auto). cbn [SF2Z cond_Zopp]. apply Z.leb_le; exact UB.
Qed.

Lemma rounds_to_neg n e :
  -1074 <= e -> rounds_to (- val n e) (binary_round prec emax true n e).
Proof.
  intros He. destruct (binary_round_spec true n e He) as (M & E & C & -> & UB & LB).
  pose proof (val_pos n e He) as Vp.
  intros y Hy. destruct y as [sy | sy | | sy my ey]; cbn [fin_valid] in Hy; try contradiction.
  - cbn [SF2Z]. split; [lia | intros _]. destruct (E <=? 971); reflexivity.
  - destruct Hy as [Cy By]. pose proof (canon_val_pos _ _ Cy) as Yp.
    destruct sy; cbn [SF2Z cond_Zopp].
    + split; intros H.
      * assert (H' : val n e <= val my ey) by lia.
        specialize (UB my ey Cy H').
        pose proof (canon_val_le_exp _ _ _ _ C Cy UB) as LE.
        assert (B : (E <=? 971) = true) by (apply Z.leb_le; lia). rewrite B.
        apply Z.leb_le in B.
        rewrite SFleb_fin by (cbn; auto). cbn [SF2Z cond_Zopp]. apply Z.leb_le; lia.
      * assert (H' : val my ey <= val n e) by lia.
        specialize (LB my ey Cy H'). destruct (E <=? 971) eqn:B; [| reflexivity].
        apply Z.leb_le in B.
        rewrite SFleb_fin by (cbn; auto). cbn [SF2Z cond_Zopp]. apply Z.leb_le; lia.
    + split; [lia | intros _]. destruct (E <=? 971); reflexivity.
Qed.

Lemma rounds_to_normalize I e :
  -1074 <= e -> rounds_to (I * 2 ^ (e + 1074)) (binary_normalize prec emax I e false).
Proof.
  intros He. destruct I as [| n | n]; cbn [binary_normalize].
  - apply rounds_to_fin; [exact Logic.I | reflexivity].
  - apply (rounds_to_pos n e He).
  - replace (Zneg n * 2 ^ (e + 1074)) with (- val n e) by (unfold val; lia).
    apply (rounds_to_neg n e He).
Qed.

Lemma shl_align_fst m e ez :
  ez <= e -> Zpos (fst (shl_align m e ez)) = Zpos m * 2 ^ (e - ez).
Proof.
  intros H. unfold shl_align. destruct (ez - e) as [| p | p] eqn:Hs; cbn [fst]; [| lia |].
  - replace (e - ez) with 0 by lia. cbn. lia.
  - rewrite shl_val. f_equal. f_equal. lia.
Qed.

Lemma aligned_val s m e ez :
  -1074 <= ez -> ez <= e ->
  cond_Zopp s (Zpos (fst (shl_align m e ez))) * 2 ^ (ez + 1074) = cond_Zopp s (val m e).
Proof.
  intros H1 H2. rewrite shl_align_fst by assumption. unfold val.
  replace (e + 1074) with ((e - ez) + (ez + 1074)) by lia.
  rewrite (pow2_split (e - ez) (ez + 1074)) by lia.
  destruct s; cbn [cond_Zopp]; ring.
Qed.

Lemma fin_valid_exp s m e : fin_valid (S754_finite s m e) -> -1074 <= e.
Proof. intros [C _]. apply canon_cases in C. lia. Qed.

Lemma SFadd_rounds x y :
  fin_valid x -> fin_valid y -> rounds_to (SF2Z x + SF2Z y) (SF64add x y).
Proof.
  intros Hx Hy.
  destruct x as [sx | sx | | sx mx ex], y as [sy | sy | | sy my ey];
    cbn [fin_valid] in Hx, Hy; try contradiction.
  - apply rounds_to_fin; [destruct sx, sy; exact Logic.I | destruct sx, sy; reflexivity].
  - apply rounds_to_fin; [exact Hy | reflexivity].
  - apply rounds_to_fin; [exact Hx | unfold SF64add, SF64sub, SFadd, SFsub; cbn [SF2Z]; lia].
  - pose proof (fin_valid_exp sx mx ex Hx). pose proof (fin_valid_exp sy my ey Hy).
    unfold SF64add, SFadd. cbn zeta.
    set (ez := Z.min ex ey).
    cbn [SF2Z].
    rewrite <- (aligned_val sx mx ex ez), <- (aligned_val sy my ey ez) by (unfold ez; lia).
    rewrite <- Z.mul_add_distr_r.
    apply rounds_to_normalize. unfold ez; lia.
Qed.

Lemma SFsub_rounds x y :
  fin_valid x -> fin_valid y -> rounds_to (SF2Z x - SF2Z y) (SF64sub x y).
Proof.
  intros Hx Hy.
  destruct x as [sx | sx | | sx mx ex], y as [sy | sy | | sy my ey];
    cbn [fin_valid] in Hx, Hy; try contradiction.
  - apply rounds_to_fin; [destruct sx, sy; exact Logic.I | destruct sx, sy; reflexivity].
  - apply rounds_to_fin; [exact Hy | unfold SF64sub, SFsub; cbn [SF2Z]; destruct sy; cbn [negb cond_Zopp]; lia].
  - apply rounds_to_fin; [exact Hx | unfold SF64add, SF64sub, SFadd, SFsub; cbn [SF2Z]; lia].
  - pose proof (fin_valid_exp sx mx ex Hx). pose proof (fin_valid_exp sy my ey Hy).
    unfold SF64sub, SFsub. cbn zeta.
    set (ez := Z.min ex ey).
    cbn [SF2Z].
    rewrite <- (aligned_val sx mx ex ez), <- (aligned_val sy my ey ez) by (unfold ez; lia).
    rewrite <- Z.mul_sub_distr_r.
    apply rounds_to_normalize. unfold ez; lia.
Qed.

Lemma BIG_pos : 0 < BIG.
Proof. apply pow2_pos; lia. Qed.

Lemma val_lt_BIG m e : canon m e -> e <= 971 -> val m e < BIG.
Proof.
  intros C B. pose proof C as C'. apply canon_cases in C'.
  assert (He : -1074 <= e) by lia.
  pose proof (val_bounds m e He) as [_ U].
  assert (2 ^ (D m + e + 1074) <= 2 ^ 2098) by (apply Z.pow_le_mono_r; lia).
  assert (2 ^ 2098 < BIG) by (apply Z.pow_lt_mono_r; lia).
  lia.
Qed.

Lemma valid_fin s m e : valid_binary (S754_finite s m e) = true <-> fin_valid (S754_finite s m e).
Proof.
  cbn [SpecFloat.valid_binary fin_valid]. unfold bounded.
  rewrite andb_true_iff, canonical_iff, Z.leb_le. reflexivity.
Qed.

Lemma classify_valid x : valid_binary x = true -> sf_class x.
Proof.
  destruct x as [s | s | | s m e]; intros V.
  - apply sf_fin; exact I.
  - eapply sf_inf; reflexivity.
  - apply sf_nan; reflexivity.
  - apply sf_fin, valid_fin, V.
Qed.

Lemma SF2Z_bound x : fin_valid x -> - BIG < SF2Z x < BIG.
Proof.
  pose proof BIG_pos.
  destruct x as [s | s | | s m e]; cbn [fin_valid SF2Z]; try lia.
  intros [C B]. pose proof (val_lt_BIG m e C B). pose proof (canon_val_pos m e C).
  destruct s; cbn [cond_Zopp]; lia.
Qed.

Lemma SFcompare_x x y :
  valid_binary x = true -> valid_binary y = true ->
  x <> S754_nan -> y <> S754_nan ->
  SFcompare x y = Some (SF2Zx x ?= SF2Zx y).
Proof.
  intros Vx Vy Nx Ny.
  destruct (classify_valid x Vx) as [E | sx E | Fx]; [contradiction | |];
  destruct (classify_valid y Vy) as [E' | sy E' | Fy]; try contradiction.
  - subst. pose proof BIG_pos. cbn [SFcompare SF2Zx]. f_equal. symmetry.
    destruct sx, sy; cbn [cond_Zopp];
      [apply Z.compare_refl | apply Z.compare_lt_iff; lia | apply Z.compare_gt_iff; lia | apply Z.compare_refl].
  - subst. pose proof (SF2Z_bound y Fy).
    destruct y as [s | s | | s m e]; cbn [fin_valid] in Fy; try contradiction;
      cbn [SFcompare SF2Zx] in *; f_equal; symmetry;
      destruct sx; cbn [cond_Zopp]; try (apply Z.compare_lt_iff; lia); apply Z.compare_gt_iff; lia.
  - subst. pose proof (SF2Z_bound x Fx).
    destruct x as [s | s | | s m e]; cbn [fin_valid] in Fx; try contradiction;
      cbn [SFcompare SF2Zx] in *; f_equal; symmetry;
      destruct sy; cbn [cond_Zopp]; try (apply Z.compare_lt_iff; lia); apply Z.compare_gt_iff; lia.
  - rewrite (SFcompare_fin x y Fx Fy).
    destruct x, y; cbn [fin_valid] in *; try contradiction; reflexivity.
Qed.

(** Primitive floats. *)

Lemma SFcompare_nan_l y : SFcompare S754_nan y = None.
Proof. reflexivity. Qed.

Lemma SFcompare_nan_r x : SFcompare x S754_nan = None.
Proof. destruct x; reflexivity. Qed.

Lemma SFcompare_refl x : x <> S754_nan -> SFcompare x x = Some Eq.
Proof.
  destruct x as [s | s | | s m e]; intros N; try reflexivity; try congruence.
  - destruct s; reflexivity.
  - cbn. rewrite Z.compare_refl, Pos.compare_cont_refl. destruct s; reflexivity.
Qed.

Lemma is_nan_spec x : is_nan x = true <-> Prim2SF x = S754_nan.
Proof.
  unfold is_nan. rewrite eqb_spec. unfold SFeqb. split.
  - intros H. destruct (Prim2SF x) eqn:E; try reflexivity;
      rewrite SFcompare_refl in H by congruence; discriminate H.
  - intros ->. reflexivity.
Qed.

Lemma is_nan_false x : is_nan x = false <-> Prim2SF x <> S754_nan.
Proof.
  rewrite <- is_nan_spec. destruct (is_nan x); split; congruence.
Qed.

Lemma leb_FZ x y : is_nan x = false -> is_nan y = false -> (x <=? y)%float = (FZ x <=? FZ y).
Proof.
  intros Nx Ny. apply is_nan_false in Nx, Ny.
  rewrite leb_spec. unfold SFleb, FZ.
  rewrite (SFcompare_x _ _ (Prim2SF_valid x) (Prim2SF_valid y) Nx Ny).
  unfold Z.leb. destruct (_ ?= _); reflexivity.
Qed.

Lemma ltb_FZ x y : is_nan x = false -> is_nan y = false -> (x <? y)%float = (FZ x <? FZ y).
Proof.
  intros Nx Ny. apply is_nan_false in Nx, Ny.
  rewrite ltb_spec. unfold SFltb, FZ.
  rewrite (SFcompare_x _ _ (Prim2SF_valid x) (Prim2SF_valid y) Nx Ny).
  unfold Z.ltb. destruct (_ ?= _); reflexivity.
Qed.

Lemma eqb_FZ x y : is_nan x = false -> is_nan y = false -> (x =? y)%float = (FZ x =? FZ y).
Proof.
  intros Nx Ny. apply is_nan_false in Nx, Ny.
  rewrite eqb_spec. unfold SFeqb, FZ.
  rewrite (SFcompare_x _ _ (Prim2SF_valid x) (Prim2SF_valid y) Nx Ny).
  destruct (Z.compare_spec (SF2Zx (Prim2SF x)) (SF2Zx (Prim2SF y))) as [E | L | G].
  - symmetry; apply Z.eqb_eq; exact E.
  - symmetry; apply Z.eqb_neq; lia.
  - symmetry; apply Z.eqb_neq; lia.
Qed.

Lemma leb_nan x y : is_nan x = true \/ is_nan y = true -> (x <=? y)%float = false.
Proof.
  rewrite !is_nan_spec, leb_spec. unfold SFleb.
  intros [-> | ->]; [rewrite SFcompare_nan_l | rewrite SFcompare_nan_r]; reflexivity.
Qed.

Lemma ltb_nan x y : is_nan x = true \/ is_nan y = true -> (x <? y)%float = false.
Proof.
  rewrite !is_nan_spec, ltb_spec. unfold SFltb.
  intros [-> | ->]; [rewrite SFcompare_nan_l | rewrite SFcompare_nan_r]; reflexivity.
Qed.

Lemma eqb_nan x y : is_nan x = true \/ is_nan y = true -> (x =? y)%float = false.
Proof.
  rewrite !is_nan_spec, eqb_spec. unfold SFeqb.
  intros [-> | ->]; [rewrite SFcompare_nan_l | rewrite SFcompare_nan_r]; reflexivity.
Qed.

Lemma leb_true x y : (x <=? y)%float = true -> is_nan x = false /\ is_nan y = false /\ FZ x <= FZ y.
Proof.
  intros H. destruct (is_nan x) eqn:Nx; [rewrite leb_nan in H by auto; discriminate|].
  destruct (is_nan y) eqn:Ny; [rewrite leb_nan in H by auto; discriminate|].
  rewrite leb_FZ in H by assumption. apply Z.leb_le in H. auto.
Qed.

Lemma ltb_true x y : (x <? y)%float = true -> is_nan x = false /\ is_nan y = false /\ FZ x < FZ y.
Proof.
  intros H. destruct (is_nan x) eqn:Nx; [rewrite ltb_nan in H by auto; discriminate|].
  destruct (is_nan y) eqn:Ny; [rewrite ltb_nan in H by auto; discriminate|].
  rewrite ltb_FZ in H by assumption. apply Z.ltb_lt in H. auto.
Qed.

Lemma is_infinity_spec x : is_infinity x = true <-> exists s, Prim2SF x = S754_infinity s.
Proof.
  unfold is_infinity. rewrite eqb_spec, abs_spec.
  change (Prim2SF infinity) with (S754_infinity false).
  destruct (Prim2SF x) as [s | s | | s m e]; cbn; split; intros H;
    try discriminate; try (destruct H; discriminate); eauto.
Qed.

Lemma is_finite_spec x : is_finite x = true <-> fin_valid (Prim2SF x).
Proof.
  unfold is_finite. rewrite negb_true_iff, orb_false_iff.
  pose proof (Prim2SF_valid x) as V. split.
  - intros [N I]. apply is_nan_false in N.
    destruct (classify_valid _ V) as [E | s E | F]; [contradiction | | exact F].
    exfalso. assert (is_infinity x = true) by (apply is_infinity_spec; eauto). congruence.
  - intros F. split.
    + apply is_nan_false. intros E; rewrite E in F; exact F.
    + destruct (is_infinity x) eqn:I; [|reflexivity].
      apply is_infinity_spec in I. destruct I as [s E]. rewrite E in F. destruct F.
Qed.

Lemma is_finite_not_nan x : is_finite x = true -> is_nan x = false.
Proof. unfold is_finite. rewrite negb_true_iff, orb_false_iff. tauto. Qed.

Lemma FZ_finite x : is_finite x = true -> FZ x = SF2Z (Prim2SF x).
Proof.
  intros F. apply is_finite_spec in F. unfold FZ.
  destruct (Prim2SF x); cbn [fin_valid] in F; try contradiction; reflexivity.
Qed.

Lemma FZ_opp x : FZ (- x) = - FZ x.
Proof.
  unfold FZ. rewrite opp_spec.
  destruct (Prim2SF x) as [s | s | | s m e]; cbn [SFopp SF2Zx SF2Z]; try reflexivity;
    destruct s; cbn [negb cond_Zopp]; lia.
Qed.

Lemma is_nan_opp x : is_nan (- x) = is_nan x.
Proof.
  destruct (is_nan x) eqn:N.
  - apply is_nan_spec. apply is_nan_spec in N. rewrite opp_spec, N. reflexivity.
  - apply is_nan_false. apply is_nan_false in N. rewrite opp_spec.
    destruct (Prim2SF x); cbn; congruence.
Qed.

(** A rounded value lies between the same representable numbers as the exact one. *)
Lemma rounded_between v (r : float) :
  rounds_to v (Prim2SF r) ->
  is_nan r = false /\
  forall c, is_finite c = true ->
    (FZ c <= v -> FZ c <= FZ r) /\ (v <= FZ c -> FZ r <= FZ c).
Proof.
  intros R.
  assert (N : is_nan r = false).
  { destruct (R (S754_zero false) I) as [A B]. cbn [SF2Z] in A, B.
    apply is_nan_false. intros E. rewrite E in A, B.
    destruct (Z_le_gt_dec 0 v); [specialize (A l) | specialize (B ltac:(lia))]; discriminate. }
  split; [exact N|]. intros c Fc.
  pose proof (is_finite_not_nan c Fc) as Nc.
  rewrite (FZ_finite c Fc). apply is_finite_spec in Fc.
  destruct (R _ Fc) as [A B]. split; intros H.
  - specialize (A H). rewrite <- leb_spec in A. apply leb_true in A.
    rewrite <- (FZ_finite c) by (apply is_finite_spec; exact Fc). tauto.
  - specialize (B H). rewrite <- leb_spec in B. apply leb_true in B.
    rewrite <- (FZ_finite c) by (apply is_finite_spec; exact Fc). tauto.
Qed.

Lemma rounded_sign v (r : float) :
  rounds_to v (Prim2SF r) ->
  (0 < v -> 0 < FZ r) /\ (v < 0 -> FZ r < 0) /\ (v = 0 -> FZ r = 0).
Proof.
  intros R.
  assert (N : Prim2SF r <> S754_nan).
  { apply is_nan_false. apply (rounded_between v r R). }
  assert (Fp : fin_valid (S754_finite false 1 (-1074))) by (cbn; unfold canon; cbn; lia).
  assert (Fn : fin_valid (S754_finite true 1 (-1074))) by (cbn; unfold canon; cbn; lia).
  assert (Fz : fin_valid (S754_zero false)) by exact I.
  assert (cmp : forall y, fin_valid y ->
            (SFleb y (Prim2SF r) = true -> SF2Z y <= FZ r) /\
            (SFleb (Prim2SF r) y = true -> FZ r <= SF2Z y)).
  { intros y Fy.
    assert (Vy : valid_binary y = true).
    { destruct y; try reflexivity; try contradiction. apply valid_fin; exact Fy. }
    assert (Ny : y <> S754_nan) by (intros ->; exact Fy).
    assert (Ey : SF2Zx y = SF2Z y) by (destruct y; try reflexivity; contradiction).
    unfold SFleb, FZ.
    rewrite (SFcompare_x _ _ Vy (Prim2SF_valid r) Ny N).
    rewrite (SFcompare_x _ _ (Prim2SF_valid r) Vy N Ny). rewrite Ey.
    split; intros H.
    - destruct (Z.compare_spec (SF2Z y) (SF2Zx (Prim2SF r))); try lia; discriminate.
    - destruct (Z.compare_spec (SF2Zx (Prim2SF r)) (SF2Z y)); try lia; discriminate. }
  split; [|split]; intros H.
  - destruct (R _ Fp) as [A _]. destruct (cmp _ Fp) as [A' _].
    cbn [SF2Z cond_Zopp] in A, A'. change (val 1 (-1074)) with 1 in A, A'.
    specialize (A' (A ltac:(lia))). lia.
  - destruct (R _ Fn) as [_ B]. destruct (cmp _ Fn) as [_ B'].
    cbn [SF2Z cond_Zopp] in B, B'. change (val 1 (-1074)) with 1 in B, B'.
    specialize (B' (B ltac:(lia))). lia.
  - destruct (R _ Fz) as [A B]. destruct (cmp _ Fz) as [A' B'].
    cbn [SF2Z] in A, B, A', B'.
    specialize (A' (A ltac:(lia))). specialize (B' (B ltac:(lia))). lia.
Qed.

Lemma add_rounds x y :
  is_finite x = true -> is_finite y = true ->
  rounds_to (FZ x + FZ y) (Prim2SF (x + y)).
Proof.
  intros Fx Fy. rewrite (FZ_finite x Fx), (FZ_finite y Fy), add_spec.
  apply SFadd_rounds; apply is_finite_spec; assumption.
Qed.

Lemma sub_rounds x y :
  is_finite x = true -> is_finite y = true ->
  rounds_to (FZ x - FZ y) (Prim2SF (x - y)).
Proof.
  intros Fx Fy. rewrite (FZ_finite x Fx), (FZ_finite y Fy), sub_spec.
  apply SFsub_rounds; apply is_finite_spec; assumption.
Qed.

Lemma FZ_0 : FZ 0%float = 0.
Proof. reflexivity. Qed.
Global Opaque BIG.

Local Open Scope float_scope.

Lemma float_cases x : float_class x.
Proof.
  destruct (classify_valid _ (Prim2SF_valid x)) as [E | s E | F].
  - apply fc_nan, is_nan_spec, E.
  - eapply fc_inf, E.
  - apply fc_fin, is_finite_spec, F.
Qed.

Lemma inf_not_nan x s : Prim2SF x = S754_infinity s -> is_nan x = false.
Proof. intros E. apply is_nan_false. rewrite E. discriminate. Qed.

Lemma FZ_inf x s : Prim2SF x = S754_infinity s -> FZ x = cond_Zopp s BIG.
Proof. intros E. unfold FZ. rewrite E. reflexivity. Qed.

Lemma FZ_fin_bound x : is_finite x = true -> (- BIG < FZ x < BIG)%Z.
Proof.
  intros F. rewrite (FZ_finite x F). apply SF2Z_bound, is_finite_spec, F.
Qed.

Lemma finite_of_FZ x : is_nan x = false -> (- BIG < FZ x < BIG)%Z -> is_finite x = true.
Proof.
  intros N B. destruct (float_cases x) as [N' | s E | F]; [congruence | | exact F].
  rewrite (FZ_inf x s E) in B. destruct s; cbn [cond_Zopp] in B; lia.
Qed.

Lemma add_nan x y : is_nan x = true \/ is_nan y = true -> is_nan (x + y) = true.
Proof.
  rewrite !is_nan_spec, add_spec. unfold SF64add, SFadd.
  intros [-> | ->]; [reflexivity | destruct (Prim2SF x); reflexivity].
Qed.

Lemma sub_nan x y : is_nan x = true \/ is_nan y = true -> is_nan (x - y) = true.
Proof.
  rewrite !is_nan_spec, sub_spec. unfold SF64sub, SFsub.
  intros [-> | ->]; [reflexivity | destruct (Prim2SF x); reflexivity].
Qed.

Lemma add_inf_fin x y s :
  Prim2SF x = S754_infinity s -> is_finite y = true -> Prim2SF (x + y) = S754_infinity s.
Proof.
  intros E F. apply is_finite_spec in F. rewrite add_spec, E. unfold SF64add, SFadd.
  destruct (Prim2SF y); cbn in F; try contradiction; reflexivity.
Qed.

Lemma add_fin_inf x y s :
  is_finite x = true -> Prim2SF y = S754_infinity s -> Prim2SF (x + y) = S754_infinity s.
Proof.
  intros F E. apply is_finite_spec in F. rewrite add_spec, E. unfold SF64add, SFadd.
  destruct (Prim2SF x); cbn in F; try contradiction; reflexivity.
Qed.

Lemma add_inf_inf x y s :
  Prim2SF x = S754_infinity s -> Prim2SF y = S754_infinity s -> Prim2SF (x + y) = S754_infinity s.
Proof.
  intros E1 E2. rewrite add_spec, E1, E2. destruct s; reflexivity.
Qed.

Lemma sub_inf_fin x y s :
  Prim2SF x = S754_infinity s -> is_finite y = true -> Prim2SF (x - y) = S754_infinity s.
Proof.
  intros E F. apply is_finite_spec in F. rewrite sub_spec, E. unfold SF64sub, SFsub.
  destruct (Prim2SF y); cbn in F; try contradiction; reflexivity.
Qed.

Lemma sub_fin_inf x y s :
  is_finite x = true -> Prim2SF y = S754_infinity s -> Prim2SF (x - y) = S754_infinity (negb s).
Proof.
  intros F E. apply is_finite_spec in F. rewrite sub_spec, E. unfold SF64sub, SFsub.
  destruct (Prim2SF x); cbn in F; try contradiction; reflexivity.
Qed.

Lemma sub_inf_inf x y s s' :
  Prim2SF x = S754_infinity s -> Prim2SF y = S754_infinity s' ->
  Prim2SF (x - y) = if Bool.eqb s s' then S754_nan else S754_infinity s.
Proof.
  intros E1 E2. rewrite sub_spec, E1, E2. destruct s, s'; reflexivity.
Qed.

(** Order facts used by the account model. *)

Lemma ltb_negb_leb x y :
  is_nan x = false -> is_nan y = false -> (x <? y) = negb (y <=? x).
Proof.
  intros Nx Ny. rewrite ltb_FZ, leb_FZ by assumption.
  destruct (Z.ltb_spec (FZ x) (FZ y)), (Z.leb_spec (FZ y) (FZ x)); try reflexivity; lia.
Qed.

Lemma leb_intro x y : is_nan x = false -> is_nan y = false -> (FZ x <= FZ y)%Z -> (x <=? y) = true.
Proof. intros Nx Ny H. rewrite leb_FZ by assumption. apply Z.leb_le, H. Qed.

Lemma leb_trans x y z : (x <=? y) = true -> (y <=? z) = true -> (x <=? z) = true.
Proof.
  intros H1 H2. apply leb_true in H1, H2.
  apply leb_intro; try tauto. lia.
Qed.

(** Side conditions of the form [is_nan x = false]. *)
Create HintDb not_nan discriminated.
#[local] Hint Resolve is_finite_not_nan : not_nan.
#[local] Hint Extern 1 (is_nan _ = false) => reflexivity : not_nan.
#[local] Hint Extern 3 (is_nan _ = false) => (eapply inf_not_nan; eassumption) : not_nan.

(** A comparison of two numbers, decided by their positions on the
    integer line. *)
Ltac on_the_line := apply leb_intro; [auto with not_nan | auto with not_nan | ].

Lemma leb_add_r b a :
  is_nan b = false -> is_finite a = true -> (0 <=? a) = true -> (b <=? b + a) = true.
Proof.
  intros Nb Fa Pa. apply leb_true in Pa. rewrite FZ_0 in Pa. destruct Pa as (_ & Na & Pa).
  destruct (float_cases b) as [N | sb Eb | Fb]; [congruence | |].
  - pose proof (add_inf_fin b a sb Eb Fa) as E.
    on_the_line. rewrite (FZ_inf _ _ E), (FZ_inf _ _ Eb). lia.
  - destruct (rounded_between _ _ (add_rounds b a Fb Fa)) as [N B].
    on_the_line. apply (B b Fb). lia.
Qed.

Lemma add_limit_nonneg b l :
  is_finite l = true -> (- l <=? b) = true -> (0 <=? b + l) = true.
Proof.
  intros Fl H. apply leb_true in H. destruct H as (_ & Nb & L).
  rewrite FZ_opp in L. pose proof (FZ_fin_bound l Fl). pose proof BIG_pos.
  destruct (float_cases b) as [N | sb Eb | Fb]; [congruence | |].
  - rewrite (FZ_inf b sb Eb) in L. destruct sb; cbn [cond_Zopp] in L; try lia.
    pose proof (add_inf_fin b l false Eb Fl) as E.
    on_the_line. rewrite (FZ_inf _ _ E), FZ_0. cbn [cond_Zopp]. lia.
  - destruct (rounded_between _ _ (add_rounds b l Fb Fl)) as [N B].
    on_the_line. apply (B 0 eq_refl). rewrite FZ_0. lia.
Qed.

Lemma sub_finite_not_nan b a :
  is_nan b = false -> is_finite a = true -> is_nan (b - a) = false.
Proof.
  intros Nb Fa.
  destruct (float_cases b) as [N | sb Eb | Fb]; [congruence | |].
  - eapply inf_not_nan, sub_inf_fin; eassumption.
  - apply (rounded_between _ _ (sub_rounds b a Fb Fa)).
Qed.

Lemma add_finite_not_nan b a :
  is_nan b = false -> is_finite a = true -> is_nan (b + a) = false.
Proof.
  intros Nb Fa.
  destruct (float_cases b) as [N | sb Eb | Fb]; [congruence | |].
  - eapply inf_not_nan, add_inf_fin; eassumption.
  - apply (rounded_between _ _ (add_rounds b a Fb Fa)).
Qed.

(** The sign of a difference agrees with the comparison, for all floats. *)
Lemma sub_ltb_zero b a z :
  is_nan z = false -> FZ z = 0%Z -> (b - a <? z) = (b <? a).
Proof.
  intros Nz Ez. pose proof BIG_pos.
  destruct (float_cases b) as [Nb | sb Eb | Fb].
  { rewrite !ltb_nan; auto. left. apply sub_nan; auto. }
  all: destruct (float_cases a) as [Na | sa Ea | Fa].
  all: try (rewrite !ltb_nan; auto; left; apply sub_nan; auto; fail).
  - pose proof (sub_inf_inf b a sb sa Eb Ea) as E.
    rewrite (ltb_FZ b a) by (eapply inf_not_nan; eassumption).
    rewrite (FZ_inf _ _ Eb), (FZ_inf _ _ Ea).
    destruct sb, sa; cbn [Bool.eqb] in E.
    + rewrite ltb_nan by (left; apply is_nan_spec, E). symmetry. apply Z.ltb_ge. lia.
    + rewrite ltb_FZ by (try assumption; eapply inf_not_nan, E).
      rewrite (FZ_inf _ _ E), Ez. cbn [cond_Zopp]. destruct (Z.ltb_spec (- BIG) 0), (Z.ltb_spec (- BIG) BIG); auto; lia.
    + rewrite ltb_FZ by (try assumption; eapply inf_not_nan, E).
      rewrite (FZ_inf _ _ E), Ez. cbn [cond_Zopp]. destruct (Z.ltb_spec BIG 0), (Z.ltb_spec BIG (- BIG)); auto; lia.
    + rewrite ltb_nan by (left; apply is_nan_spec, E). symmetry. apply Z.ltb_ge. lia.
  - pose proof (sub_inf_fin b a sb Eb Fa) as E. pose proof (FZ_fin_bound a Fa).
    rewrite (ltb_FZ b a) by (try (eapply inf_not_nan; eassumption); apply is_finite_not_nan, Fa).
    rewrite ltb_FZ by (try assumption; eapply inf_not_nan, E).
    rewrite (FZ_inf _ _ E), (FZ_inf _ _ Eb), Ez.
    destruct sb; cbn [cond_Zopp].
    + destruct (Z.ltb_spec (- BIG) 0), (Z.ltb_spec (- BIG) (FZ a)); auto; lia.
    + destruct (Z.ltb_spec BIG 0), (Z.ltb_spec BIG (FZ a)); auto; lia.
  - pose proof (sub_fin_inf b a sa Fb Ea) as E. pose proof (FZ_fin_bound b Fb).
    rewrite (ltb_FZ b a) by (try (eapply inf_not_nan; eassumption); apply is_finite_not_nan, Fb).
    rewrite ltb_FZ by (try assumption; eapply inf_not_nan, E).
    rewrite (FZ_inf _ _ E), (FZ_inf _ _ Ea), Ez.
    destruct sa; cbn [cond_Zopp negb].
    + destruct (Z.ltb_spec BIG 0), (Z.ltb_spec (FZ b) (- BIG)); auto; lia.
    + destruct (Z.ltb_spec (- BIG) 0), (Z.ltb_spec (FZ b) BIG); auto; lia.
  - pose proof (sub_rounds b a Fb Fa) as R.
    destruct (rounded_between _ _ R) as [N _].
    destruct (rounded_sign _ _ R) as (Sp & Sn & S0).
    rewrite (ltb_FZ b a) by (apply is_finite_not_nan; assumption).
    rewrite ltb_FZ by assumption. rewrite Ez.
    destruct (Z.ltb_spec (FZ b) (FZ a)), (Z.ltb_spec (FZ (b - a)) 0); auto; try lia.
Qed.

Lemma sub_self_zero b w :
  is_finite b = true -> (w =? b) = true -> (b - w =? 0) = true.
Proof.
  intros Fb H.
  destruct (is_nan w) eqn:Nw; [rewrite eqb_nan in H by auto; discriminate|].
  pose proof (is_finite_not_nan b Fb) as Nb.
  rewrite eqb_FZ in H by assumption. apply Z.eqb_eq in H.
  assert (Fw : is_finite w = true).
  { apply finite_of_FZ; [exact Nw|]. rewrite H. apply FZ_fin_bound, Fb. }
  pose proof (sub_rounds b w Fb Fw) as R.
  destruct (rounded_between _ _ R) as [N _].
  destruct (rounded_sign _ _ R) as (_ & _ & S0).
  rewrite eqb_FZ by (try assumption; reflexivity).
  rewrite S0 by lia. reflexivity.
Qed.

Lemma eqb_not_ltb x y : (x =? y) = true -> (x <? y) = false.
Proof.
  intros H.
  destruct (is_nan x) eqn:Nx; [rewrite eqb_nan in H by auto; discriminate|].
  destruct (is_nan y) eqn:Ny; [rewrite eqb_nan in H by auto; discriminate|].
  rewrite eqb_FZ in H by assumption. apply Z.eqb_eq in H.
  rewrite ltb_FZ by assumption. apply Z.ltb_ge. lia.
Qed.

Lemma not_nan_add_l x y : is_nan (x + y) = false -> is_nan x = false.
Proof.
  intros H. destruct (is_nan x) eqn:N; [|reflexivity].
  rewrite add_nan in H by auto. discriminate.
Qed.

Lemma not_nan_add_r x y : is_nan (x + y) = false -> is_nan y = false.
Proof.
  intros H. destruct (is_nan y) eqn:N; [|reflexivity].
  rewrite add_nan in H by auto. discriminate.
Qed.

Lemma ltb_false_leb x y :
  is_nan x = false -> is_nan y = false -> (x <? y) = false -> (y <=? x) = true.
Proof.
  intros Nx Ny H. rewrite ltb_negb_leb in H by assumption.
  destruct (y <=? x); [reflexivity | discriminate].
Qed.

Lemma leb_not_ltb x y : (y <=? x) = true -> (x <? y) = false.
Proof.
  intros H. apply leb_true in H. destruct H as (Ny & Nx & L).
  rewrite ltb_FZ by assumption. apply Z.ltb_ge. exact L.
Qed.

Lemma leb_false_ltb x y :
  is_nan x = false -> is_nan y = false -> (x <=? y) = false -> (y <? x) = true.
Proof.
  intros Nx Ny H. rewrite ltb_negb_leb by assumption. rewrite H. reflexivity.
Qed.

Lemma ltb_leb x y : (x <? y) = true -> (x <=? y) = true.
Proof.
  intros H. apply ltb_true in H. destruct H as (Nx & Ny & L).
  on_the_line. lia.
Qed.

(** Adding a non-negative amount does not lower a balance. *)
Lemma leb_add_pos b a :
  is_nan (b + a) = false -> (0 <=? a) = true -> (b <=? b + a) = true.
Proof.
  intros N Pa. pose proof (not_nan_add_l _ _ N) as Nb.
  apply leb_true in Pa. rewrite FZ_0 in Pa. destruct Pa as (_ & Na & Pa). pose proof BIG_pos.
  destruct (float_cases a) as [Na' | sa Ea | Fa]; [congruence | |].
  - rewrite (FZ_inf a sa Ea) in Pa. destruct sa; cbn [cond_Zopp] in Pa; try lia.
    destruct (float_cases b) as [Nb' | sb Eb | Fb]; [congruence | |].
    + destruct sb.
      * exfalso. apply is_nan_false in N. apply N. rewrite add_spec, Ea, Eb. reflexivity.
      * pose proof (add_inf_inf b a false Eb Ea) as E.
        on_the_line. rewrite (FZ_inf _ _ E), (FZ_inf _ _ Eb). lia.
    + pose proof (add_fin_inf b a false Fb Ea) as E.
      on_the_line. rewrite (FZ_inf _ _ E). cbn [cond_Zopp].
      pose proof (FZ_fin_bound b Fb). lia.
  - apply leb_add_r; auto. on_the_line. rewrite FZ_0. lia.
Qed.

(** The available credit of a balance that respects the limit. *)
Lemma add_limit_nonneg_gen b l :
  is_nan (b + l) = false -> (- l <=? b) = true -> (0 <=? b + l) = true.
Proof.
  intros N H. pose proof BIG_pos.
  destruct (float_cases l) as [Nl | sl El | Fl].
  - rewrite add_nan in N by auto. discriminate.
  - apply leb_true in H. destruct H as (_ & Nb & L). rewrite FZ_opp, (FZ_inf l sl El) in L.
    destruct (float_cases b) as [Nb' | sb Eb | Fb]; [congruence | |].
    + rewrite (FZ_inf b sb Eb) in L.
      destruct sb, sl; cbn [cond_Zopp] in L; try lia.
      * exfalso. apply is_nan_false in N. apply N. rewrite add_spec, El, Eb. reflexivity.
      * exfalso. apply is_nan_false in N. apply N. rewrite add_spec, El, Eb. reflexivity.
      * pose proof (add_inf_inf b l false Eb El) as E.
        on_the_line. rewrite (FZ_inf _ _ E), FZ_0. cbn [cond_Zopp]. lia.
    + pose proof (add_fin_inf b l sl Fb El) as E. pose proof (FZ_fin_bound b Fb).
      destruct sl; cbn [cond_Zopp] in L; try lia.
      on_the_line. rewrite (FZ_inf _ _ E), FZ_0. cbn [cond_Zopp]. lia.
  - apply add_limit_nonneg; assumption.
Qed.

(** [float(z)] *)

Lemma binary_normalize_cases z :
  let r := binary_normalize prec emax z 0 false in
  (exists s, r = S754_infinity s) \/ fin_valid r.
Proof.
  destruct z as [| n | n]; cbn [binary_normalize].
  - right. exact I.
  - destruct (binary_round_spec false n 0 ltac:(lia)) as (M & E & C & -> & _).
    destruct (E <=? 971)%Z eqn:B; [right | left; eauto].
    apply Z.leb_le in B. split; assumption.
  - destruct (binary_round_spec true n 0 ltac:(lia)) as (M & E & C & -> & _).
    destruct (E <=? 971)%Z eqn:B; [right | left; eauto].
    apply Z.leb_le in B. split; assumption.
Qed.

Lemma fin_valid_valid r : fin_valid r -> valid_binary r = true.
Proof.
  destruct r; cbn [fin_valid]; try contradiction; try reflexivity.
  intros H. apply valid_fin. exact H.
Qed.

Local Close Scope float_scope.

(** * Facts on the conversions *)

Lemma float_of_int_spec z f :
  float_of_int z = Return f ->
  Prim2SF f = binary_normalize prec emax z 0 false /\ is_finite f = true.
Proof.
  unfold float_of_int. intros H.
  destruct (binary_normalize_cases z) as [[s E] | F].
  - rewrite E in H. discriminate H.
  - assert (V := fin_valid_valid _ F).
    assert (E : f = SF2Prim (binary_normalize prec emax z 0 false)).
    { destruct (binary_normalize prec emax z 0 false); cbn [fin_valid] in F;
        try contradiction; inversion H; reflexivity. }
    subst f. rewrite (Prim2SF_SF2Prim _ V). split; [reflexivity|].
    apply is_finite_spec. rewrite (Prim2SF_SF2Prim _ V). exact F.
Qed.

Lemma float_of_int_rounds z f :
  float_of_int z = Return f -> rounds_to (z * 2 ^ 1074) (Prim2SF f).
Proof.
  intros H. destruct (float_of_int_spec z f H) as [-> _].
  apply (rounds_to_normalize z 0). lia.
Qed.

Lemma float_of_int_sign z f :
  float_of_int z = Return f ->
  is_nan f = false /\ (0 <= z -> (f <? 0)%float = false) /\ (z < 0 -> (f <? 0)%float = true).
Proof.
  intros H. pose proof (float_of_int_rounds z f H) as R.
  destruct (rounded_between _ _ R) as [N _].
  destruct (rounded_sign _ _ R) as (Sp & Sn & S0).
  assert (P : 0 < 2 ^ 1074) by (apply pow2_pos; lia).
  split; [exact N|]. rewrite ltb_FZ by (auto; reflexivity). rewrite FZ_0.
  split; intros Hz.
  - apply Z.ltb_ge. destruct (Z.eq_dec z 0) as [-> | Nz]; [rewrite S0; lia|].
    assert (0 < FZ f) by (apply Sp; nia). lia.
  - apply Z.ltb_lt. apply Sn. nia.
Qed.

Lemma py_float_finite n f :
  py_float n = Return f ->
  match n with NFloat x => x = f | NInt _ => is_finite f = true end.
Proof.
  destruct n as [z | x]; cbn [py_float]; intros H.
  - apply (float_of_int_spec z f H).
  - inversion H; reflexivity.
Qed.

(** * The validator *)

Lemma validate_inv a w :
  _validate_amount a = Return w ->
  exists n, as_number a = Some n /\ py_float n = Return w /\ (w <=? 0)%float = false.
Proof.
  unfold _validate_amount. intros H.
  destruct (as_number a) as [n|]; [|discriminate H].
  destruct (py_float n) as [x | e] eqn:E; [|discriminate H].
  destruct (x <=? 0)%float eqn:L; [discriminate H|].
  inversion H; subst. eauto.
Qed.

(** * The methods, step by step *)

Lemma Account_deposit_eq a w now self :
  _validate_amount a = Return w ->
  Account_deposit a now self =
  (Return true,
   mk_Account (holder self) (_balance self + w)
     (operations_history self ++
      [mk_Operation (ustr "deposit") w now (_balance self + w) (ustr "success") None])).
Proof.
  intros H. unfold Account_deposit, bind, lift. rewrite H. reflexivity.
Qed.

Lemma Account_withdraw_eq a w now self :
  _validate_amount a = Return w ->
  Account_withdraw a now self =
  if (_balance self <? w)%float then
    (Return false,
     mk_Account (holder self) (_balance self)
       (operations_history self ++
        [mk_Operation (ustr "withdraw") w now (_balance self) (ustr "fail") None]))
  else
    (Return true,
     mk_Account (holder self) (_balance self - w)
       (operations_history self ++
        [mk_Operation (ustr "withdraw") w now (_balance self - w) (ustr "success") None])).
Proof.
  intros H. unfold Account_withdraw, bind, lift. rewrite H. cbn [get].
  destruct (_balance self <? w)%float; reflexivity.
Qed.

Lemma CreditAccount_deposit_eq a w now self :
  _validate_amount a = Return w ->
  CreditAccount_deposit a now self =
  (Return true,
   mk_CreditAccount
     (mk_Account (holder (base self)) (_balance (base self) + w)
        (operations_history (base self) ++
         [mk_Operation (ustr "deposit") w now (_balance (base self) + w) (ustr "success")
            (Some false)]))
     (credit_limit self)).
Proof.
  intros H. unfold CreditAccount_deposit, bind, lift. rewrite H. reflexivity.
Qed.

Lemma CreditAccount_withdraw_eq a w now self :
  _validate_amount a = Return w ->
  CreditAccount_withdraw a now self =
  let b := _balance (base self) in
  if (b - w <? - credit_limit self)%float then
    (Return false,
     mk_CreditAccount
       (mk_Account (holder (base self)) b
          (operations_history (base self) ++
           [mk_Operation (ustr "withdraw") w now b (ustr "fail") (Some (b <? 0)%float)]))
       (credit_limit self))
  else
    (Return true,
     mk_CreditAccount
       (mk_Account (holder (base self)) (b - w)
          (operations_history (base self) ++
           [mk_Operation (ustr "withdraw") w now (b - w) (ustr "success")
              (Some ((b <? 0)%float || (b - w <? 0)%float))]))
       (credit_limit self)).
Proof.
  intros H. unfold CreditAccount_withdraw, bind, lift. rewrite H. cbn [get].
  destruct (_balance (base self) - w <? - credit_limit self)%float; reflexivity.
Qed.

(** A call that raises leaves the account as it was. *)
Lemma validate_raise_Account c e :
  (forall a now, c = Deposit a now \/ c = Withdraw a now -> _validate_amount a = Raise e) ->
  forall self, Account_call c self = (Raise e, self).
Proof.
  intros H self. destruct c as [a now | a now]; cbn [Account_call];
    unfold Account_deposit, Account_withdraw, bind, lift;
    rewrite (H a now) by auto; reflexivity.
Qed.

Lemma validate_raise_CreditAccount c e :
  (forall a now, c = Deposit a now \/ c = Withdraw a now -> _validate_amount a = Raise e) ->
  forall self, CreditAccount_call c self = (Raise e, self).
Proof.
  intros H self. destruct c as [a now | a now]; cbn [CreditAccount_call];
    unfold CreditAccount_deposit, CreditAccount_withdraw, bind, lift;
    rewrite (H a now) by auto; reflexivity.
Qed.

(** * Integers among the binary64 numbers *)

(** An integer of at most 53 bits has a canonical representation. *)
Lemma int_canonical n :
  Zpos n <= 2 ^ 53 ->
  exists my ey, canon my ey /\ ey <= 1 /\ val my ey = Zpos n * 2 ^ 1074.
Proof.
  intros B. pose proof (D_bounds n) as [L U]. pose proof (D_pos n) as P.
  destruct (Z.eq_dec (Zpos n) (2 ^ 53)) as [E | NE].
  - exists (Pos.iter xO 1%positive 52%positive), 1.
    split; [|split]; [| lia |].
    + unfold canon. rewrite D_shl. change (D 1) with 1. lia.
    + unfold val. rewrite shl_val, E. change (1 + 1074) with (1 + 1074).
      rewrite <- !Z.pow_add_r by lia. reflexivity.
  - assert (Dn : D n <= 53).
    { destruct (Z_le_gt_dec (D n) 53) as [|G]; [assumption|]. exfalso.
      assert (2 ^ 53 <= 2 ^ (D n - 1)) by (apply Z.pow_le_mono_r; lia). lia. }
    destruct (Z.eq_dec (D n) 53) as [E53 | N53].
    + exists n, 0. split; [unfold canon; lia|]. split; [lia|]. reflexivity.
    + destruct (53 - D n) as [| p | p] eqn:Ep; try lia.
      exists (Pos.iter xO n p), (- Zpos p).
      split; [|split]; [| lia |].
      * unfold canon. rewrite D_shl. lia.
      * unfold val. rewrite shl_val.
        rewrite <- Z.mul_assoc, <- Z.pow_add_r by lia.
        replace (Zpos p + (- Zpos p + 1074)) with 1074 by lia. reflexivity.
Qed.

(** The result of rounding an integer of at most 53 bits. *)
Lemma binary_round_int s n :
  Zpos n <= 2 ^ 53 ->
  exists M E, binary_round prec emax s n 0 = S754_finite s M E /\
    canon M E /\ E <= 971 /\ val M E = Zpos n * 2 ^ 1074.
Proof.
  intros B. destruct (int_canonical n B) as (my & ey & Cy & By & Vy).
  destruct (binary_round_spec s n 0 ltac:(lia)) as (M & E & C & Eq & UB & LB).
  assert (V0 : val n 0 = Zpos n * 2 ^ 1074) by reflexivity.
  assert (V : val M E = val my ey).
  { apply Z.le_antisymm; [apply UB | apply LB]; auto; lia. }
  assert (LE : E <= ey) by (apply (canon_val_le_exp M E my ey); auto; lia).
  exists M, E. assert (T : (E <=? 971) = true) by (apply Z.leb_le; lia).
  rewrite T in Eq. repeat split; auto; lia.
Qed.

(** The result of rounding an integer beyond the binary64 range. *)
Lemma binary_round_overflow s n :
  2 ^ 1024 <= Zpos n -> binary_round prec emax s n 0 = S754_infinity s.
Proof.
  intros B.
  destruct (binary_round_spec s n 0 ltac:(lia)) as (M & E & C & Eq & UB & LB).
  assert (Cy : canon (Pos.iter xO 1%positive 52%positive) 972).
  { unfold canon. rewrite D_shl. change (D 1) with 1. lia. }
  assert (Vy : val (Pos.iter xO 1%positive 52%positive) 972 = 2 ^ 1024 * 2 ^ 1074).
  { unfold val. rewrite shl_val. rewrite Z.mul_1_l, <- !Z.pow_add_r by lia. reflexivity. }
  assert (V0 : val n 0 = Zpos n * 2 ^ 1074) by reflexivity.
  assert (P : 0 < 2 ^ 1074) by (apply pow2_pos; lia).
  assert (H : val (Pos.iter xO 1%positive 52%positive) 972 <= val M E).
  { apply LB; [exact Cy|]. rewrite Vy, V0. apply Z.mul_le_mono_nonneg_r; lia. }
  pose proof (canon_val_le_exp _ _ _ _ Cy C H) as LE.
  assert (F : (E <=? 971) = false) by (apply Z.leb_gt; lia).
  rewrite F in Eq. exact Eq.
Qed.

(** The result of rounding an integer that is at most the largest float. *)
Lemma binary_round_in_range s n :
  Zpos n <= (2 ^ 53 - 1) * 2 ^ 971 ->
  exists M E, binary_round prec emax s n 0 = S754_finite s M E /\ canon M E /\ E <= 971.
Proof.
  intros B.
  destruct (binary_round_spec s n 0 ltac:(lia)) as (M & E & C & Eq & UB & LB).
  assert (X : exists mx, Zpos mx = 2 ^ 53 - 1).
  { exists (Z.to_pos (2 ^ 53 - 1)). rewrite Z2Pos.id; [reflexivity|]. cbn; lia. }
  destruct X as [mx Emx].
  assert (Cy : canon mx 971).
  { unfold canon. assert (D mx = 53); [|lia]. apply D_unique. rewrite Emx. cbn. lia. }
  assert (Vy : val mx 971 = (2 ^ 53 - 1) * 2 ^ 971 * 2 ^ 1074).
  { unfold val. rewrite Emx. rewrite <- Z.mul_assoc, <- Z.pow_add_r by lia. reflexivity. }
  assert (V0 : val n 0 = Zpos n * 2 ^ 1074) by reflexivity.
  assert (P : 0 < 2 ^ 1074) by (apply pow2_pos; lia).
  assert (H : val M E <= val mx 971).
  { apply UB; [exact Cy|]. rewrite Vy, V0. apply Z.mul_le_mono_nonneg_r; lia. }
  pose proof (canon_val_le_exp _ _ _ _ C Cy H) as LE.
  exists M, E. assert (T : (E <=? 971) = true) by (apply Z.leb_le; lia).
  rewrite T in Eq. auto.
Qed.

Lemma float_of_int_overflow z :
  2 ^ 1024 <= Z.abs z ->
  float_of_int z = Raise (OverflowError "int too large to convert to float").
Proof.
  intros B. unfold float_of_int.
  destruct z as [| n | n]; cbn [binary_normalize].
  - exfalso. cbn in B. lia.
  - rewrite (binary_round_overflow false n) by (cbn in B; lia). reflexivity.
  - rewrite (binary_round_overflow true n) by (cbn in B; lia). reflexivity.
Qed.

Lemma float_of_int_in_range z :
  Z.abs z <= (2 ^ 53 - 1) * 2 ^ 971 -> exists f, float_of_int z = Return f.
Proof.
  intros B. unfold float_of_int.
  destruct z as [| n | n]; cbn [binary_normalize].
  - eauto.
  - destruct (binary_round_in_range false n) as (M & E & -> & _); [exact B | eauto].
  - destruct (binary_round_in_range true n) as (M & E & -> & _); [exact B | eauto].
Qed.

(** [float(z)] is [z] itself when [z] has at most 53 bits. *)
Lemma float_of_int_exact z :
  Z.abs z <= 2 ^ 53 -> exists f, float_of_int z = Return f /\ int_valued f z.
Proof.
  intros B.
  assert (G : forall s n, Zpos n <= 2 ^ 53 ->
            exists f, (match binary_round prec emax s n 0 with
                       | S754_infinity _ =>
                           Raise (OverflowError "int too large to convert to float")
                       | sf => Return (SF2Prim sf)
                       end) = Return f /\
                      is_finite f = true /\ FZ f = cond_Zopp s (Zpos n * 2 ^ 1074)).
  { intros s n Bn. destruct (binary_round_int s n Bn) as (M & E & -> & C & BE & V).
    eexists. split; [reflexivity|].
    assert (Fv : fin_valid (S754_finite s M E)) by (split; assumption).
    assert (Vb := fin_valid_valid _ Fv).
    assert (Fin : is_finite (SF2Prim (S754_finite s M E)) = true).
    { apply is_finite_spec. rewrite (Prim2SF_SF2Prim _ Vb). exact Fv. }
    split; [exact Fin|].
    rewrite (FZ_finite _ Fin), (Prim2SF_SF2Prim _ Vb). cbn [SF2Z]. rewrite V. reflexivity. }
  unfold float_of_int, int_valued.
  destruct z as [| n | n]; cbn [binary_normalize].
  - exists (SF2Prim (S754_zero false)). split; [reflexivity|]. split; reflexivity.
  - destruct (G false n B) as (f & E & Fin & V). exists f. cbn [cond_Zopp] in V. auto.
  - destruct (G true n B) as (f & E & Fin & V). exists f. cbn [cond_Zopp] in V.
    split; [exact E|]. split; [exact Fin|]. rewrite V. lia.
Qed.

(** A rounding of a representable value is that value. *)
Lemma rounded_exact v (r c : float) :
  rounds_to v (Prim2SF r) -> is_finite c = true -> FZ c = v ->
  is_finite r = true /\ FZ r = v.
Proof.
  intros R Fc Ec. destruct (rounded_between v r R) as [N B].
  destruct (B c Fc) as [Lo Hi]. pose proof (FZ_fin_bound c Fc) as Bc.
  assert (E : FZ r = v) by lia.
  split; [|exact E]. apply finite_of_FZ; [exact N | lia].
Qed.

Lemma int_valued_exists z : Z.abs z <= 2 ^ 53 -> exists c, int_valued c z.
Proof. intros B. destruct (float_of_int_exact z B) as (f & _ & H). eauto. Qed.

Local Open Scope float_scope.

(** Sums and differences of integers are exact up to [2^53]. *)
Lemma int_valued_add x y a b :
  int_valued x a -> int_valued y b -> (Z.abs (a + b) <= 2 ^ 53)%Z ->
  int_valued (x + y) (a + b).
Proof.
  intros [Fx Ex] [Fy Ey] B. destruct (int_valued_exists (a + b) B) as (c & Fc & Ec).
  apply (rounded_exact _ _ c); [| exact Fc | rewrite Ec; lia].
  replace ((a + b) * 2 ^ 1074)%Z with (FZ x + FZ y)%Z by lia.
  apply add_rounds; assumption.
Qed.

Lemma int_valued_sub x y a b :
  int_valued x a -> int_valued y b -> (Z.abs (a - b) <= 2 ^ 53)%Z ->
  int_valued (x - y) (a - b).
Proof.
  intros [Fx Ex] [Fy Ey] B. destruct (int_valued_exists (a - b) B) as (c & Fc & Ec).
  apply (rounded_exact _ _ c); [| exact Fc | rewrite Ec; lia].
  replace ((a - b) * 2 ^ 1074)%Z with (FZ x - FZ y)%Z by lia.
  apply sub_rounds; assumption.
Qed.

Lemma int_valued_ltb x y a b :
  int_valued x a -> int_valued y b -> (x <? y) = (a <? b)%Z.
Proof.
  intros [Fx Ex] [Fy Ey]. rewrite ltb_FZ by (apply is_finite_not_nan; assumption). rewrite Ex, Ey.
  assert (P : (0 < 2 ^ 1074)%Z) by (apply pow2_pos; lia).
  destruct (Z.ltb_spec a b); [apply Z.ltb_lt | apply Z.ltb_ge]; nia.
Qed.

Lemma int_valued_eqb x y a b :
  int_valued x a -> int_valued y b -> (x =? y) = (a =? b)%Z.
Proof.
  intros [Fx Ex] [Fy Ey]. rewrite eqb_FZ by (apply is_finite_not_nan; assumption). rewrite Ex, Ey.
  assert (P : (0 < 2 ^ 1074)%Z) by (apply pow2_pos; lia).
  destruct (Z.eqb_spec a b); [apply Z.eqb_eq | apply Z.eqb_neq]; nia.
Qed.

Lemma int_valued_zero : int_valued 0 0.
Proof. split; reflexivity. Qed.

Lemma int_valued_opp x a : int_valued x a -> int_valued (- x) (- a).
Proof.
  intros [Fx Ex]. split.
  - apply finite_of_FZ.
    + rewrite is_nan_opp. apply is_finite_not_nan; assumption.
    + rewrite FZ_opp. pose proof (FZ_fin_bound x Fx). lia.
  - rewrite FZ_opp, Ex. lia.
Qed.

Local Close Scope float_scope.

(** * Which amounts the conversions and the validator accept *)

(** [float(z)] raises [OverflowError] from [2^1024 - 2^970] on, the first
    integer that rounds beyond the largest float, and for no smaller
    magnitude. *)
Lemma float_of_int_threshold z :
  (Z.abs z < 2 ^ 1024 - 2 ^ 970 -> exists f, float_of_int z = Return f) /\
  (2 ^ 1024 - 2 ^ 970 <= Z.abs z ->
   float_of_int z = Raise (OverflowError "int too large to convert to float")).
Proof.
  assert (G : forall s n,
            (Zpos n < 2 ^ 1024 - 2 ^ 970 ->
             exists M E, binary_round prec emax s n 0 = S754_finite s M E) /\
            (2 ^ 1024 - 2 ^ 970 <= Zpos n -> binary_round prec emax s n 0 = S754_infinity s)).
  { intros s n.
    destruct (Z_le_gt_dec (Zpos n) ((2 ^ 53 - 1) * 2 ^ 971)) as [Small | Big].
    - split; [|lia]. intros _.
      destruct (binary_round_in_range s n Small) as (M & E & H & _). eauto.
    - destruct (Z_lt_le_dec (Zpos n) (2 ^ 1024)) as [Top | Over].
      + rewrite (binary_round_near_top s n) by lia.
        destruct (Z.ltb_spec (Zpos n) (2 ^ 1024 - 2 ^ 970)); split; try lia; eauto.
      + split; [lia|]. intros _. apply binary_round_overflow, Over. }
  unfold float_of_int. destruct z as [| n | n]; cbn [binary_normalize Z.abs].
  - split; [eauto | lia].
  - destruct (G false n) as [A B]. split; intros H.
    + destruct (A H) as (M & E & ->). eauto.
    + rewrite (B H). reflexivity.
  - destruct (G true n) as [A B]. split; intros H.
    + destruct (A H) as (M & E & ->). eauto.
    + rewrite (B H). reflexivity.
Qed.

Lemma py_float_raises n e :
  py_float n = Raise e ->
  e = OverflowError "int too large to convert to float" /\
  exists z, n = NInt z /\ 2 ^ 1024 - 2 ^ 970 <= Z.abs z.
Proof.
  destruct n as [z | f]; cbn [py_float]; [|discriminate].
  intros H. destruct (float_of_int_threshold z) as [A B].
  destruct (Z_lt_le_dec (Z.abs z) (2 ^ 1024 - 2 ^ 970)) as [Lt | Ge].
  - destruct (A Lt) as [f E]. congruence.
  - rewrite (B Ge) in H. inversion H. split; [reflexivity|]. eauto.
Qed.

Lemma float_of_int_pos z f :
  float_of_int z = Return f -> 0 < z -> (f <=? 0)%float = false.
Proof.
  intros H Hz. pose proof (float_of_int_rounds z f H) as R.
  destruct (rounded_between _ _ R) as [N _].
  destruct (rounded_sign _ _ R) as (Sp & _ & _).
  assert (P : 0 < 2 ^ 1074) by (apply pow2_pos; lia).
  rewrite leb_FZ by (auto; reflexivity). rewrite FZ_0.
  apply Z.leb_gt. apply Sp. nia.
Qed.

Lemma float_of_int_nonpos z f :
  float_of_int z = Return f -> z <= 0 -> (f <=? 0)%float = true.
Proof.
  intros H Hz. pose proof (float_of_int_rounds z f H) as R.
  destruct (rounded_between _ _ R) as [N _].
  destruct (rounded_sign _ _ R) as (_ & Sn & S0).
  assert (P : 0 < 2 ^ 1074) by (apply pow2_pos; lia).
  rewrite leb_FZ by (auto; reflexivity). rewrite FZ_0.
  apply Z.leb_le. destruct (Z.eq_dec z 0) as [-> | Nz]; [rewrite S0; lia|].
  assert (FZ f < 0) by (apply Sn; nia). lia.
Qed.

(** The validator on an [int] (or [bool]) amount. *)
Lemma validate_int v z :
  as_number v = Some (NInt z) ->
  _validate_amount v =
  match float_of_int z with
  | Raise e => Raise e
  | Return w => if 0 <? z then Return w else Raise (ValueError msg_amount_positive)
  end.
Proof.
  intros A. unfold _validate_amount. rewrite A. cbn [py_float].
  destruct (float_of_int z) as [w | e] eqn:E; [|reflexivity].
  destruct (Z.ltb_spec 0 z) as [P | P].
  - rewrite (float_of_int_pos z w E P). reflexivity.
  - rewrite (float_of_int_nonpos z w E P). reflexivity.
Qed.

(** A float amount greater than 0 is accepted as it is. *)
Lemma validate_positive_float d :
  (0 <? d)%float = true -> _validate_amount (PyFloat d) = Return d.
Proof.
  intros H. unfold _validate_amount. cbn [as_number py_float].
  apply ltb_true in H. destruct H as (N0 & Nd & L).
  rewrite leb_FZ by assumption.
  assert (E : Z.leb (FZ d) (FZ 0%float) = false) by (apply Z.leb_gt; exact L).
  rewrite E. reflexivity.
Qed.

(** An [int] (or [bool]) amount greater than 0 is accepted as [float(z)]
    as long as [float(z)] exists. *)
Lemma validate_positive_int v z :
  as_number v = Some (NInt z) -> 0 < z < 2 ^ 1024 - 2 ^ 970 ->
  exists d, _validate_amount v = Return d /\ float_of_int z = Return d /\
    is_finite d = true /\ (z <= 2 ^ 53 -> int_valued d z).
Proof.
  intros A [P B]. rewrite (validate_int v z A).
  destruct (proj1 (float_of_int_threshold z)) as [d E]; [lia|].
  rewrite E. assert (L : (0 <? z) = true) by (apply Z.ltb_lt; lia). rewrite L.
  exists d. split; [reflexivity|]. split; [reflexivity|].
  split; [apply (float_of_int_spec z d E)|].
  intros S53. destruct (float_of_int_exact z) as (d' & E' & I); [lia|].
  rewrite E in E'. inversion E'; subst d'. exact I.
Qed.

(** An [int] amount that [float] cannot convert. *)
Lemma validate_huge_int v z :
  as_number v = Some (NInt z) -> 2 ^ 1024 - 2 ^ 970 <= Z.abs z ->
  _validate_amount v = Raise (OverflowError "int too large to convert to float").
Proof.
  intros A B. rewrite (validate_int v z A).
  rewrite (proj2 (float_of_int_threshold z) B). reflexivity.
Qed.

Local Open Scope float_scope.

Lemma opp_finite x : is_finite x = true -> is_finite (- x) = true.
Proof.
  intros F. apply finite_of_FZ.
  - rewrite is_nan_opp. apply is_finite_not_nan, F.
  - rewrite FZ_opp. pose proof (FZ_fin_bound x F). lia.
Qed.

(** The test of a credit withdrawal against the exact difference: a
    difference that respects the limit passes, and one that fails the test
    is below the limit. *)
Lemma sub_exact_floor b l w :
  is_finite b = true -> is_finite l = true -> is_finite w = true ->
  ((- FZ l <= FZ b - FZ w)%Z -> (b - w <? - l) = false) /\
  ((b - w <? - l) = true -> (FZ b - FZ w < - FZ l)%Z).
Proof.
  intros Fb Fl Fw.
  destruct (rounded_between _ _ (sub_rounds b w Fb Fw)) as [Ns Bs].
  pose proof (opp_finite l Fl) as Fo.
  assert (A : (- FZ l <= FZ b - FZ w)%Z -> (b - w <? - l) = false).
  { intros H. rewrite ltb_FZ by (try exact Ns; apply is_finite_not_nan, Fo).
    apply Z.ltb_ge. apply (Bs (- l) Fo). rewrite FZ_opp. exact H. }
  split; [exact A|]. intros H.
  destruct (Z_lt_le_dec (FZ b - FZ w) (- FZ l)) as [Lt | Ge]; [exact Lt|].
  rewrite (A Ge) in H. discriminate H.
Qed.

Local Close Scope float_scope.

(** ** Floors of the balance *)

Local Open Scope float_scope.

Lemma add_never_below b w f :
  (b <? f) = false -> (w <=? 0) = false -> (b + w <? f) = false.
Proof.
  intros Hb Hw.
  destruct (is_nan (b + w)) eqn:N; [apply ltb_nan; auto|].
  destruct (is_nan f) eqn:Nf; [apply ltb_nan; auto|].
  pose proof (not_nan_add_l _ _ N) as Nb. pose proof (not_nan_add_r _ _ N) as Nw.
  apply leb_not_ltb. apply leb_trans with b.
  - apply ltb_false_leb; assumption.
  - apply leb_add_pos; [exact N|]. apply ltb_leb. apply leb_false_ltb; auto.
Qed.

Lemma available_never_negative b l :
  (b <? - l) = false -> (b + l <? 0) = false.
Proof.
  intros H.
  destruct (is_nan (b + l)) eqn:N; [apply ltb_nan; auto|].
  pose proof (not_nan_add_l _ _ N) as Nb. pose proof (not_nan_add_r _ _ N) as Nl.
  apply leb_not_ltb, add_limit_nonneg_gen; [exact N|].
  apply ltb_false_leb; auto. rewrite is_nan_opp. exact Nl.
Qed.

Local Close Scope float_scope.

Lemma validate_no_special a w :
  _validate_amount a = Return w -> no_special a = true -> is_finite w = true.
Proof.
  intros H R. destruct (validate_inv a w H) as (n & An & Pn & _).
  pose proof (py_float_finite n w Pn) as F.
  destruct a; cbn in An; try discriminate; inversion An; subst; cbn in *; try exact F.
  subst; exact R.
Qed.

Lemma run_invariant {S : Type} (P : S -> Prop) (Q : call -> Prop)
    (step : call -> M S bool) :
  (forall c s, Q c -> P s -> P (snd (step c s))) ->
  forall cs s, Forall Q cs -> P s -> Forall P (states s (run step cs s)).
Proof.
  intros Hstep cs. unfold states.
  induction cs as [| c cs IH]; intros s HQ Hs; cbn [run List.map].
  - constructor; [exact Hs | constructor].
  - inversion HQ as [| ? ? Hc Hcs]; subst.
    constructor; [exact Hs|]. apply IH; [exact Hcs|]. apply Hstep; assumption.
Qed.

Lemma Forall_trivial {A : Type} (l : list A) : Forall (fun _ => True) l.
Proof. induction l; constructor; auto. Qed.

(** One call on a standard account. *)
Lemma Account_call_cases c self :
  (exists e, Account_call c self = (Raise e, self)) \/
  (exists w r self', _validate_amount (call_amount c) = Return w /\
     Account_call c self = (Return r, self') /\
     holder self' = holder self /\
     ((_balance self' = (_balance self + w)%float /\ r = true /\
       (exists now, c = Deposit (call_amount c) now /\
        operations_history self' = operations_history self ++
          [record "deposit" w now (_balance self') "success" None]))
      \/
      (_balance self' = (_balance self - w)%float /\ r = true /\
       (_balance self <? w)%float = false /\
       (exists now, c = Withdraw (call_amount c) now /\
        operations_history self' = operations_history self ++
          [record "withdraw" w now (_balance self') "success" None]))
      \/
      (_balance self' = _balance self /\ r = false /\
       (_balance self <? w)%float = true /\
       (exists now, c = Withdraw (call_amount c) now /\
        operations_history self' = operations_history self ++
          [record "withdraw" w now (_balance self') "fail" None])))).
Proof.
  destruct c as [a now | a now]; cbn [Account_call call_amount];
    destruct (_validate_amount a) as [w | e] eqn:V.
  - right. rewrite (Account_deposit_eq a w now self V).
    eexists w, true, _. split; [reflexivity|]. split; [reflexivity|]. split; [reflexivity|].
    left. cbn. split; [reflexivity|]. split; [reflexivity|]. exists now. split; reflexivity.
  - left. exists e. unfold Account_deposit, bind, lift. rewrite V. reflexivity.
  - right. rewrite (Account_withdraw_eq a w now self V).
    destruct (_balance self <? w)%float eqn:L.
    + eexists w, false, _. split; [reflexivity|]. split; [reflexivity|]. split; [reflexivity|].
      right; right. cbn. split; [reflexivity|]. split; [reflexivity|]. split; [exact L|].
      exists now. split; reflexivity.
    + eexists w, true, _. split; [reflexivity|]. split; [reflexivity|]. split; [reflexivity|].
      right; left. cbn. split; [reflexivity|]. split; [reflexivity|]. split; [exact L|].
      exists now. split; reflexivity.
  - left. exists e. unfold Account_withdraw, bind, lift. rewrite V. reflexivity.
Qed.

(** One call on a credit account. *)
Lemma CreditAccount_call_cases c self :
  (exists e, CreditAccount_call c self = (Raise e, self)) \/
  (exists w r self', _validate_amount (call_amount c) = Return w /\
     CreditAccount_call c self = (Return r, self') /\
     holder (base self') = holder (base self) /\
     credit_limit self' = credit_limit self /\
     let b := _balance (base self) in
     let b' := _balance (base self') in
     ((b' = (b + w)%float /\ r = true /\
       (exists now, c = Deposit (call_amount c) now /\
        operations_history (base self') = operations_history (base self) ++
          [record "deposit" w now b' "success" (Some false)]))
      \/
      (b' = (b - w)%float /\ r = true /\
       (b - w <? - credit_limit self)%float = false /\
       (exists now, c = Withdraw (call_amount c) now /\
        operations_history (base self') = operations_history (base self) ++
          [record "withdraw" w now b' "success"
             (Some ((b <? 0)%float || (b' <? 0)%float))]))
      \/
      (b' = b /\ r = false /\
       (b - w <? - credit_limit self)%float = true /\
       (exists now, c = Withdraw (call_amount c) now /\
        operations_history (base self') = operations_history (base self) ++
          [record "withdraw" w now b' "fail" (Some (b <? 0)%float)])))).
Proof.
  destruct c as [a now | a now]; cbn [CreditAccount_call call_amount];
    destruct (_validate_amount a) as [w | e] eqn:V.
  - right. rewrite (CreditAccount_deposit_eq a w now self V).
    eexists w, true, _. split; [reflexivity|]. split; [reflexivity|].
    split; [reflexivity|]. split; [reflexivity|].
    left. cbn. split; [reflexivity|]. split; [reflexivity|]. exists now. split; reflexivity.
  - left. exists e. unfold CreditAccount_deposit, bind, lift. rewrite V. reflexivity.
  - right. rewrite (CreditAccount_withdraw_eq a w now self V). cbn zeta.
    destruct (_balance (base self) - w <? - credit_limit self)%float eqn:L.
    + eexists w, false, _. split; [reflexivity|]. split; [reflexivity|].
      split; [reflexivity|]. split; [reflexivity|].
      right; right. cbn. split; [reflexivity|]. split; [reflexivity|]. split; [exact L|].
      exists now. split; reflexivity.
    + eexists w, true, _. split; [reflexivity|]. split; [reflexivity|].
      split; [reflexivity|]. split; [reflexivity|].
      right; left. cbn. split; [reflexivity|]. split; [reflexivity|]. split; [exact L|].
      exists now. split; reflexivity.
  - left. exists e. unfold CreditAccount_withdraw, bind, lift. rewrite V. reflexivity.
Qed.

Lemma Account_step_never_negative c self :
  (_balance self <? 0)%float = false ->
  (_balance (snd (Account_call c self)) <? 0)%float = false.
Proof.
  intros I. destruct (Account_call_cases c self) as [[e ->] | (w & r & s' & V & -> & _ & H)];
    [exact I|]. cbn [snd].
  destruct (validate_inv _ _ V) as (_ & _ & _ & Pw).
  destruct H as [(-> & _) | [(-> & _ & L & _) | (-> & _)]].
  - apply add_never_below; assumption.
  - rewrite sub_ltb_zero by reflexivity. exact L.
  - exact I.
Qed.

Lemma Account_step_not_nan c self :
  real_or_rejected c ->
  is_nan (_balance self) = false ->
  is_nan (_balance (snd (Account_call c self))) = false.
Proof.
  intros R I. destruct (Account_call_cases c self) as [[e ->] | (w & r & s' & V & -> & _ & H)];
    [exact I|]. cbn [snd].
  assert (F : is_finite w = true).
  { destruct R as [R | [e E]]; [exact (validate_no_special _ _ V R) | congruence]. }
  destruct H as [(-> & _) | [(-> & _) | (-> & _)]].
  - apply add_finite_not_nan; assumption.
  - apply sub_finite_not_nan; assumption.
  - exact I.
Qed.

Lemma CreditAccount_step_limit c self :
  credit_limit (snd (CreditAccount_call c self)) = credit_limit self.
Proof.
  destruct (CreditAccount_call_cases c self) as [[e ->] | (w & r & s' & _ & -> & _ & E & _)];
    [reflexivity | exact E].
Qed.

Lemma CreditAccount_step_never_below c self :
  (_balance (base self) <? - credit_limit self)%float = false ->
  (_balance (base (snd (CreditAccount_call c self)))
   <? - credit_limit (snd (CreditAccount_call c self)))%float = false.
Proof.
  intros I. rewrite CreditAccount_step_limit.
  destruct (CreditAccount_call_cases c self) as [[e ->] | (w & r & s' & V & -> & _ & _ & H)];
    [exact I|]. cbn [snd]. cbn zeta in H.
  destruct (validate_inv _ _ V) as (_ & _ & _ & Pw).
  destruct H as [(-> & _) | [(-> & _ & L & _) | (-> & _)]].
  - apply add_never_below; assumption.
  - exact L.
  - exact I.
Qed.

Lemma CreditAccount_step_not_nan c self :
  real_or_rejected c ->
  is_nan (_balance (base self)) = false ->
  is_nan (_balance (base (snd (CreditAccount_call c self)))) = false.
Proof.
  intros R I.
  destruct (CreditAccount_call_cases c self) as [[e ->] | (w & r & s' & V & -> & _ & _ & H)];
    [exact I|]. cbn [snd]. cbn zeta in H.
  assert (F : is_finite w = true).
  { destruct R as [R | [e E]]; [exact (validate_no_special _ _ V R) | congruence]. }
  destruct H as [(-> & _) | [(-> & _) | (-> & _)]].
  - apply add_finite_not_nan; assumption.
  - apply sub_finite_not_nan; assumption.
  - exact I.
Qed.

(** The constructors. *)
Lemma Account_init_inv h b acc :
  Account_init h b = Return acc ->
  exists s n, h = PyStr s /\ strip s <> [] /\ as_number b = Some n /\
    lt_zero n = false /\ py_float n = Return (_balance acc) /\
    acc = mk_Account (strip s) (_balance acc) [].
Proof.
  unfold Account_init. intros H.
  destruct h as [| | | | s |]; try discriminate H.
  destruct (strip s) as [| c t] eqn:St; [discriminate H|].
  destruct (as_number b) as [n|]; [|discriminate H].
  destruct (lt_zero n) eqn:L; [discriminate H|].
  destruct (py_float n) as [x | e] eqn:P; [|discriminate H].
  inversion H; subst. exists s, n. cbn. rewrite St. repeat split; try congruence.
Qed.

Lemma CreditAccount_init_inv h b l acc :
  CreditAccount_init h b l = Return acc ->
  exists s nb nl, h = PyStr s /\ strip s <> [] /\
    as_number l = Some nl /\ py_float nl = Return (credit_limit acc) /\
    (credit_limit acc <? 0)%float = false /\
    as_number b = Some nb /\ py_float nb = Return (_balance (base acc)) /\
    (_balance (base acc) <? - credit_limit acc)%float = false /\
    acc = mk_CreditAccount (mk_Account (strip s) (_balance (base acc)) []) (credit_limit acc).
Proof.
  unfold CreditAccount_init. intros H.
  destruct (as_number l) as [nl|]; [|discriminate H].
  destruct (py_float nl) as [L | e] eqn:PL; [|discriminate H].
  destruct (L <? 0)%float eqn:LL; [discriminate H|].
  destruct (as_number b) as [nb|]; [|discriminate H].
  destruct (py_float nb) as [B | e] eqn:PB; [|discriminate H].
  destruct (B <? - L)%float eqn:LB; [discriminate H|].
  destruct h as [| | | | s |]; try discriminate H.
  destruct (strip s) as [| c t] eqn:St; [discriminate H|].
  inversion H; subst. exists s, nb, nl. cbn. rewrite St. repeat split; try congruence.
Qed.

Lemma py_float_no_special v n f :
  as_number v = Some n -> py_float n = Return f -> no_special v = true -> is_finite f = true.
Proof.
  intros An Pn R. pose proof (py_float_finite n f Pn) as F.
  destruct v; cbn in An; try discriminate; inversion An; subst; cbn in *; try exact F.
  subst; exact R.
Qed.

Lemma py_float_lt_zero n f :
  py_float n = Return f -> lt_zero n = (f <? 0)%float.
Proof.
  destruct n as [z | x]; cbn [py_float lt_zero]; intros H.
  - destruct (float_of_int_sign z f H) as (_ & P & N).
    destruct (Z.ltb_spec z 0); [rewrite N | rewrite P]; auto.
  - inversion H; reflexivity.
Qed.

(** ** Deposits *)

(** C4, as stated, fails: the amount is converted to a float before it
    is used, and the new balance is a rounded sum.  The [int] [2^53 + 1] is
    a valid positive amount, but the record of its deposit carries the
    amount [2^53]; the [int] [2^1024] is a valid positive amount, but its
    deposit raises [OverflowError]; and a deposit of 1 on a balance of
    [10^16] returns [True] and leaves the balance at [10^16]. *)
Lemma deposit_converts_and_rounds :
  Account_deposit (PyInt (2 ^ 53 + 1)) a_time (mk_Account (ustr "a") 0%float [])
  = (Return true,
     mk_Account (ustr "a") 9007199254740992%float
       [record "deposit" 9007199254740992%float a_time 9007199254740992%float
          "success" None]) /\
  int_valued 9007199254740992%float (2 ^ 53) /\
  ~ int_valued 9007199254740992%float (2 ^ 53 + 1) /\
  Account_deposit (PyInt (2 ^ 1024)) a_time (mk_Account (ustr "a") 0%float [])
  = (Raise (OverflowError "int too large to convert to float"),
     mk_Account (ustr "a") 0%float []) /\
  Account_deposit (PyInt 1) a_time (mk_Account (ustr "a") 1e16%float [])
  = (Return true,
     mk_Account (ustr "a") 1e16%float
       [record "deposit" 1%float a_time 1e16%float "success" None]) /\
  int_valued 1e16%float (10 ^ 16) /\ int_valued 1%float 1.
Proof.
  split; [vm_compute; reflexivity|].
  split; [split; vm_compute; reflexivity|].
  split; [intros [_ H]; vm_compute in H; discriminate H|].
  split; [vm_compute; reflexivity|].
  split; [vm_compute; reflexivity|].
  split; split; vm_compute; reflexivity.
Qed.

(** C4, amended.  The amount a deposit works with is the float the
    validator returns: a float [> 0] is accepted as it is; an [int] or
    [bool] [z] with [0 < z < 2^1024 - 2^970] is accepted as [float(z)], a
    finite float that is [z] itself when [z <= 2^53]; for an [int] from
    [2^1024 - 2^970] on both deposits raise [OverflowError] and leave the
    account as it was.  For an accepted amount with float [d], a deposit
    returns [True], makes the balance the float sum [balance + d] and
    appends exactly one record: kind deposit, amount [d], the new balance,
    status success; its [credit_used] is [None] on a standard account and
    [False] on a credit account, whatever the sign of the new balance. *)
Theorem deposit_appends_success (now : datetime) :
  (forall d : float, (0 <? d)%float = true -> _validate_amount (PyFloat d) = Return d)
  /\
  (forall v z, as_number v = Some (NInt z) -> 0 < z < 2 ^ 1024 - 2 ^ 970 ->
     exists d, _validate_amount v = Return d /\ float_of_int z = Return d /\
               is_finite d = true /\ (z <= 2 ^ 53 -> int_valued d z))
  /\
  (forall v z, as_number v = Some (NInt z) -> 2 ^ 1024 - 2 ^ 970 <= z ->
     (forall self : Account,
        Account_deposit v now self
        = (Raise (OverflowError "int too large to convert to float"), self)) /\
     (forall self : CreditAccount,
        CreditAccount_deposit v now self
        = (Raise (OverflowError "int too large to convert to float"), self)))
  /\
  (forall a d, _validate_amount a = Return d ->
     (forall self : Account,
        Account_deposit a now self =
        (Return true,
         mk_Account (holder self) (_balance self + d)
           (operations_history self ++
            [record "deposit" d now (_balance self + d) "success" None])))
     /\
     (forall self : CreditAccount,
        CreditAccount_deposit a now self =
        (Return true,
         mk_CreditAccount
           (mk_Account (holder (base self)) (_balance (base self) + d)
              (operations_history (base self) ++
               [record "deposit" d now (_balance (base self) + d) "success" (Some false)]))
           (credit_limit self)))).
Proof.
  split; [exact validate_positive_float|].
  split; [exact validate_positive_int|].
  split.
  - intros v z An Hz.
    assert (V : _validate_amount v
                = Raise (OverflowError "int too large to convert to float")).
    { apply (validate_huge_int v z An). lia. }
    split; intros self.
    + apply (validate_raise_Account (Deposit v now)).
      intros a t [E | E]; inversion E; subst; exact V.
    + apply (validate_raise_CreditAccount (Deposit v now)).
      intros a t [E | E]; inversion E; subst; exact V.
  - intros a d H. split; intros self.
    + apply Account_deposit_eq, H.
    + apply CreditAccount_deposit_eq, H.
Qed.

Lemma deposit_appends_success_witness :
  _validate_amount (PyInt 80) = Return 80%float /\
  CreditAccount_deposit (PyInt 80) a_time
    (mk_CreditAccount (mk_Account (ustr "Petr") (-100)%float []) 300%float)
  = (Return true,
     mk_CreditAccount
       (mk_Account (ustr "Petr") (-20)%float
          [record "deposit" 80%float a_time (-20)%float "success" (Some false)])
       300%float).
Proof.
  split; [reflexivity|].
  exact (proj2 (proj2 (proj2 (proj2 (deposit_appends_success a_time)))
                  (PyInt 80) 80%float eq_refl)
           (mk_CreditAccount (mk_Account (ustr "Petr") (-100)%float []) 300%float)).
Defined.

(** ** Withdrawals from a standard account *)

(** C3, as stated, fails: the amount is converted to a float before it
    is compared, and the new balance is a rounded difference.  From a
    balance of [2^53] a withdrawal of the [int] [2^53 + 1], which is more,
    returns [True]; a withdrawal of 1 from a balance of [10^16] returns
    [True] and leaves the balance at [10^16]; and a withdrawal of the whole
    of an infinite balance, which the constructor accepts, leaves NaN, not
    0. *)
Lemma withdraw_converts_and_rounds :
  Account_init (PyStr (ustr "a")) (PyInt (2 ^ 53))
  = Return (mk_Account (ustr "a") 9007199254740992%float []) /\
  int_valued 9007199254740992%float (2 ^ 53) /\
  Account_withdraw (PyInt (2 ^ 53 + 1)) a_time (mk_Account (ustr "a") 9007199254740992%float [])
  = (Return true,
     mk_Account (ustr "a") 0%float
       [record "withdraw" 9007199254740992%float a_time 0%float "success" None]) /\
  Account_withdraw (PyInt 1) a_time (mk_Account (ustr "a") 1e16%float [])
  = (Return true,
     mk_Account (ustr "a") 1e16%float
       [record "withdraw" 1%float a_time 1e16%float "success" None]) /\
  Account_init (PyStr (ustr "a")) (PyFloat infinity)
  = Return (mk_Account (ustr "a") infinity []) /\
  _validate_amount (PyFloat infinity) = Return infinity /\
  fst (Account_withdraw (PyFloat infinity) a_time (mk_Account (ustr "a") infinity []))
  = Return true /\
  (_balance (snd (Account_withdraw (PyFloat infinity) a_time
                    (mk_Account (ustr "a") infinity [])))
   =? 0)%float = false.
Proof.
  split; [vm_compute; reflexivity|].
  split; [split; vm_compute; reflexivity|].
  repeat split; vm_compute; reflexivity.
Qed.

(** C3, amended.  For an accepted amount, with [w] the float the
    validator returns for it: if [w > balance], a comparison of floats, the
    call returns [False], the balance is unchanged and a fail record with
    amount [w], the unchanged balance and no [credit_used] is appended;
    otherwise it returns [True], the balance becomes the float difference
    [balance - w] and a success record with amount [w] and the new balance
    is appended.  When neither float is NaN the comparison is that of their
    values.  A withdrawal whose [w] equals the balance, a finite float,
    succeeds and leaves a balance equal to 0. *)
Theorem Account_withdraw_spec (a : pyval) (w : float) (now : datetime) (self : Account) :
  _validate_amount a = Return w ->
  let b := _balance self in
  ((b <? w)%float = true ->
   Account_withdraw a now self =
   (Return false,
    mk_Account (holder self) b
      (operations_history self ++ [record "withdraw" w now b "fail" None])))
  /\
  ((b <? w)%float = false ->
   Account_withdraw a now self =
   (Return true,
    mk_Account (holder self) (b - w)
      (operations_history self ++ [record "withdraw" w now (b - w) "success" None])))
  /\
  (is_nan b = false -> is_nan w = false -> ((b <? w)%float = true <-> FZ b < FZ w))
  /\
  ((w =? b)%float = true -> is_finite b = true ->
   fst (Account_withdraw a now self) = Return true /\
   (_balance (snd (Account_withdraw a now self)) =? 0)%float = true).
Proof.
  intros H b. rewrite (Account_withdraw_eq a w now self H). fold b.
  split; [|split; [|split]].
  - intros ->. reflexivity.
  - intros ->. reflexivity.
  - intros Nb Nw. rewrite ltb_FZ by assumption. apply Z.ltb_lt.
  - intros E F. rewrite (eqb_not_ltb b w).
    + cbn [fst snd _balance]. split; [reflexivity|]. apply sub_self_zero; assumption.
    + destruct (is_nan w) eqn:Nw; [rewrite eqb_nan in E by auto; discriminate|].
      rewrite eqb_FZ in * by (auto using is_finite_not_nan).
      apply Z.eqb_eq in E. apply Z.eqb_eq. lia.
Qed.

Lemma Account_withdraw_spec_witness :
  _validate_amount (PyInt 30) = Return 30%float /\
  (30 =? 30)%float = true /\ is_finite 30%float = true /\
  fst (Account_withdraw (PyInt 30) a_time (mk_Account (ustr "Ivan") 30%float [])) = Return true /\
  (_balance (snd (Account_withdraw (PyInt 30) a_time (mk_Account (ustr "Ivan") 30%float [])))
   =? 0)%float = true.
Proof.
  split; [reflexivity|]. split; [reflexivity|]. split; [reflexivity|].
  exact (proj2 (proj2 (proj2 (Account_withdraw_spec (PyInt 30) 30%float a_time
                                (mk_Account (ustr "Ivan") 30%float []) eq_refl)))
           eq_refl eq_refl).
Defined.

(** ** Withdrawals from a credit account *)

(** C1, as stated, fails.  The new balance is a rounded difference: on a
    credit account with limit [10^16] and balance [-10^16], which a
    withdrawal of [10^16] from 0 reaches, a further withdrawal of 1 returns
    [True] and leaves the balance at [-10^16], although
    [balance - 1 < -credit_limit].  And the test is [<], not [>=]: with a
    NaN credit limit, which the constructor accepts, a withdrawal succeeds
    although [balance - w >= -credit_limit] is false. *)
Lemma credit_withdraw_rounds_onto_limit :
  CreditAccount_init (PyStr (ustr "a")) (PyInt 0) (PyFloat 1e16)
  = Return (mk_CreditAccount (mk_Account (ustr "a") 0%float []) 1e16%float) /\
  CreditAccount_withdraw (PyFloat 1e16) a_time
    (mk_CreditAccount (mk_Account (ustr "a") 0%float []) 1e16%float)
  = (Return true,
     mk_CreditAccount
       (mk_Account (ustr "a") (-1e16)%float
          [record "withdraw" 1e16%float a_time (-1e16)%float "success" (Some true)])
       1e16%float) /\
  fst (CreditAccount_withdraw (PyInt 1) a_time
         (mk_CreditAccount (mk_Account (ustr "a") (-1e16)%float []) 1e16%float))
  = Return true /\
  _balance (base (snd (CreditAccount_withdraw (PyInt 1) a_time
                         (mk_CreditAccount (mk_Account (ustr "a") (-1e16)%float [])
                            1e16%float))))
  = (-1e16)%float /\
  FZ (-1e16)%float - FZ 1%float < - FZ 1e16%float /\
  CreditAccount_init (PyStr (ustr "a")) (PyFloat 0) (PyFloat nan)
  = Return (mk_CreditAccount (mk_Account (ustr "a") 0%float []) nan) /\
  _validate_amount (PyFloat 1) = Return 1%float /\
  fst (CreditAccount_withdraw (PyFloat 1) a_time
         (mk_CreditAccount (mk_Account (ustr "a") 0%float []) nan)) = Return true /\
  (- nan <=? 0 - 1)%float = false.
Proof. repeat split; vm_compute; reflexivity. Qed.

(** C1, amended.  For an accepted amount on a credit account, with [w]
    the float the validator returns for it and [balance - w] the float
    difference the method computes: the withdrawal is rejected when
    [balance - w < -credit_limit] and succeeds otherwise; when the credit
    limit and [balance - w] are not NaN, it succeeds iff
    [balance - w >= -credit_limit].  On success the balance becomes
    [balance - w] and the success record carries
    [credit_used = (before < 0) or (after < 0)]; on rejection the balance
    is unchanged and the fail record carries the unchanged balance and
    [credit_used = (before < 0)].  A withdrawal whose float difference
    equals [-credit_limit] succeeds.  When the balance, the limit and [w]
    are finite, a withdrawal with [balance - w >= -credit_limit] on the
    exact values succeeds, and one that is rejected has
    [balance - w < -credit_limit] on the exact values. *)
Theorem CreditAccount_withdraw_spec
    (a : pyval) (w : float) (now : datetime) (self : CreditAccount) :
  _validate_amount a = Return w ->
  let b := _balance (base self) in
  let floor := (- credit_limit self)%float in
  let after_success :=
    mk_CreditAccount
      (mk_Account (holder (base self)) (b - w)
         (operations_history (base self) ++
          [record "withdraw" w now (b - w) "success"
             (Some ((b <? 0)%float || (b - w <? 0)%float))]))
      (credit_limit self) in
  let after_reject :=
    mk_CreditAccount
      (mk_Account (holder (base self)) b
         (operations_history (base self) ++
          [record "withdraw" w now b "fail" (Some (b <? 0)%float)]))
      (credit_limit self) in
  (fst (CreditAccount_withdraw a now self) = Return true <-> (b - w <? floor)%float = false)
  /\
  (is_nan (credit_limit self) = false -> is_nan (b - w) = false ->
   (fst (CreditAccount_withdraw a now self) = Return true <-> (floor <=? b - w)%float = true))
  /\
  ((b - w <? floor)%float = false ->
   CreditAccount_withdraw a now self = (Return true, after_success))
  /\
  ((b - w <? floor)%float = true ->
   CreditAccount_withdraw a now self = (Return false, after_reject))
  /\
  ((b - w =? floor)%float = true ->
   CreditAccount_withdraw a now self = (Return true, after_success))
  /\
  (is_finite b = true -> is_finite (credit_limit self) = true -> is_finite w = true ->
   (- FZ (credit_limit self) <= FZ b - FZ w ->
    fst (CreditAccount_withdraw a now self) = Return true) /\
   (fst (CreditAccount_withdraw a now self) = Return false ->
    FZ b - FZ w < - FZ (credit_limit self))).
Proof.
  intros H b floor ok ko.
  pose proof (CreditAccount_withdraw_eq a w now self H) as E. cbn zeta in E.
  fold b floor in E. fold ok ko in E.
  assert (I1 : fst (CreditAccount_withdraw a now self) = Return true
               <-> (b - w <? floor)%float = false).
  { rewrite E. destruct (b - w <? floor)%float; cbn [fst]; split; congruence. }
  split; [exact I1|]. split; [|split; [|split; [|split]]].
  - intros NL Nn. rewrite I1.
    assert (Nf : is_nan floor = false) by (unfold floor; rewrite is_nan_opp; exact NL).
    rewrite ltb_negb_leb by assumption.
    destruct (floor <=? b - w)%float; cbn; split; congruence.
  - intros L. rewrite E, L. reflexivity.
  - intros L. rewrite E, L. reflexivity.
  - intros Q. rewrite E, (eqb_not_ltb _ _ Q). reflexivity.
  - intros Fb Fl Fw.
    destruct (sub_exact_floor b (credit_limit self) w Fb Fl Fw) as [A B]. split.
    + intros G. apply I1. exact (A G).
    + intros R. apply B. fold floor. rewrite E in R.
      destruct (b - w <? floor)%float; [reflexivity | discriminate R].
Qed.

Lemma CreditAccount_withdraw_spec_witness :
  _validate_amount (PyInt 300) = Return 300%float /\
  (fst (CreditAccount_withdraw (PyInt 300) a_time
          (mk_CreditAccount (mk_Account (ustr "Petr") 0%float []) 300%float)) = Return true
   <-> (- 300 <=? 0 - 300)%float = true) /\
  (0 - 300 =? - 300)%float = true /\
  CreditAccount_withdraw (PyInt 300) a_time
    (mk_CreditAccount (mk_Account (ustr "Petr") 0%float []) 300%float)
  = (Return true,
     mk_CreditAccount
       (mk_Account (ustr "Petr") (-300)%float
          [record "withdraw" 300%float a_time (-300)%float "success" (Some true)])
       300%float).
Proof.
  pose proof (CreditAccount_withdraw_spec (PyInt 300) 300%float a_time
                (mk_CreditAccount (mk_Account (ustr "Petr") 0%float []) 300%float) eq_refl)
    as (_ & Iff & _ & _ & Edge & _).
  split; [reflexivity|]. split; [exact (Iff eq_refl eq_refl)|].
  split; [reflexivity|]. exact (Edge eq_refl).
Defined.

Lemma Forall_and {A : Type} (P Q : A -> Prop) l :
  Forall P l -> Forall Q l -> Forall (fun x => P x /\ Q x) l.
Proof. induction 1; inversion 1; subst; constructor; auto. Qed.

Lemma Account_states_floor holder balance acc cs :
  Account_init holder balance = Return acc ->
  Forall (fun s => (_balance s <? 0)%float = false) (states acc (run Account_call cs acc)).
Proof.
  intros Hi.
  destruct (Account_init_inv holder balance acc Hi) as (s & n & _ & _ & An & Lz & Pn & _).
  apply (run_invariant (fun s => (_balance s <? 0)%float = false) (fun _ => True)).
  - intros c s0 _. apply Account_step_never_negative.
  - apply Forall_trivial.
  - rewrite <- (py_float_lt_zero n _ Pn). exact Lz.
Qed.

Lemma Account_states_not_nan holder balance acc cs :
  Account_init holder balance = Return acc ->
  no_special balance = true -> Forall real_or_rejected cs ->
  Forall (fun s => is_nan (_balance s) = false) (states acc (run Account_call cs acc)).
Proof.
  intros Hi Rb Rc.
  destruct (Account_init_inv holder balance acc Hi) as (s & n & _ & _ & An & Lz & Pn & _).
  apply (run_invariant (fun s => is_nan (_balance s) = false) real_or_rejected).
  - intros c s0. apply Account_step_not_nan.
  - exact Rc.
  - apply is_finite_not_nan. exact (py_float_no_special balance n _ An Pn Rb).
Qed.

Lemma CreditAccount_states_floor holder balance limit acc cs :
  CreditAccount_init holder balance limit = Return acc ->
  Forall (fun s => (_balance (base s) <? - credit_limit s)%float = false)
    (states acc (run CreditAccount_call cs acc)).
Proof.
  intros Hi.
  destruct (CreditAccount_init_inv holder balance limit acc Hi)
    as (s & nb & nl & _ & _ & Al & Pl & _ & Ab & Pb & I0 & _).
  apply (run_invariant
           (fun s => (_balance (base s) <? - credit_limit s)%float = false)
           (fun _ => True)).
  - intros c s0 _. apply CreditAccount_step_never_below.
  - apply Forall_trivial.
  - exact I0.
Qed.

Lemma CreditAccount_states_not_nan holder balance limit acc cs :
  CreditAccount_init holder balance limit = Return acc ->
  no_special balance = true -> no_special limit = true -> Forall real_or_rejected cs ->
  Forall (fun s => is_nan (_balance (base s)) = false /\
                   is_finite (credit_limit s) = true)
    (states acc (run CreditAccount_call cs acc)).
Proof.
  intros Hi Rb Rl Rc.
  destruct (CreditAccount_init_inv holder balance limit acc Hi)
    as (s & nb & nl & _ & _ & Al & Pl & _ & Ab & Pb & I0 & _).
  apply (run_invariant
           (fun s => is_nan (_balance (base s)) = false /\ is_finite (credit_limit s) = true)
           real_or_rejected).
  - intros c s0 Hc [H1 H2]. split.
    + apply CreditAccount_step_not_nan; assumption.
    + rewrite CreditAccount_step_limit. exact H2.
  - exact Rc.
  - split; [apply is_finite_not_nan; exact (py_float_no_special balance nb _ Ab Pb Rb)
           | exact (py_float_no_special limit nl _ Al Pl Rl)].
Qed.

(** C2, as stated, fails: NaN and the infinities are floats [> 0] or
    pass the test [<= 0], so the validator accepts them, and a balance that
    is NaN is not [>= 0].  On [Account('a', 0)] the calls [deposit(inf)] and
    [withdraw(inf)] both return [True] and leave the balance NaN; on
    [CreditAccount('a', 0, 5)] the call [deposit(nan)] returns [True] and
    leaves the balance NaN, which is not [>= -5]. *)
Lemma non_finite_amounts_break_floor :
  Account_init (PyStr (ustr "a")) (PyInt 0) = Return (mk_Account (ustr "a") 0%float []) /\
  List.map fst
    (run Account_call [Deposit (PyFloat infinity) a_time; Withdraw (PyFloat infinity) a_time]
       (mk_Account (ustr "a") 0%float []))
  = [Return true; Return true] /\
  (0 <=? _balance
           (final (mk_Account (ustr "a") 0%float [])
              (run Account_call
                 [Deposit (PyFloat infinity) a_time; Withdraw (PyFloat infinity) a_time]
                 (mk_Account (ustr "a") 0%float []))))%float = false /\
  CreditAccount_init (PyStr (ustr "a")) (PyInt 0) (PyInt 5)
  = Return (mk_CreditAccount (mk_Account (ustr "a") 0%float []) 5%float) /\
  List.map fst
    (run CreditAccount_call [Deposit (PyFloat nan) a_time]
       (mk_CreditAccount (mk_Account (ustr "a") 0%float []) 5%float))
  = [Return true] /\
  (let s := final (mk_CreditAccount (mk_Account (ustr "a") 0%float []) 5%float)
              (run CreditAccount_call [Deposit (PyFloat nan) a_time]
                 (mk_CreditAccount (mk_Account (ustr "a") 0%float []) 5%float)) in
   (- credit_limit s <=? _balance (base s))%float = false).
Proof. repeat split; vm_compute; reflexivity. Qed.

(** C2, amended.  For an account made by its constructor and any
    sequence of calls, after construction and after every call the balance
    is never [< 0] on a standard account and never [< -credit_limit] on a
    credit account; it is [>= 0], respectively [>= -credit_limit], whenever
    it is not NaN (and, on a credit account, the limit is not NaN).  That is
    the case in every state when the constructor arguments are ints or
    finite floats and every amount is an int or a finite float or is
    rejected by the validator. *)
Theorem balance_never_below_floor :
  (forall holder balance acc cs,
     Account_init holder balance = Return acc ->
     Forall (fun s => (_balance s <? 0)%float = false) (states acc (run Account_call cs acc))
     /\
     Forall (fun s => is_nan (_balance s) = false -> (0 <=? _balance s)%float = true)
       (states acc (run Account_call cs acc))
     /\
     (no_special balance = true -> Forall real_or_rejected cs ->
      Forall (fun s => (0 <=? _balance s)%float = true) (states acc (run Account_call cs acc))))
  /\
  (forall holder balance limit acc cs,
     CreditAccount_init holder balance limit = Return acc ->
     Forall (fun s => (_balance (base s) <? - credit_limit s)%float = false)
       (states acc (run CreditAccount_call cs acc))
     /\
     Forall (fun s => is_nan (_balance (base s)) = false -> is_nan (credit_limit s) = false ->
                      (- credit_limit s <=? _balance (base s))%float = true)
       (states acc (run CreditAccount_call cs acc))
     /\
     (no_special balance = true -> no_special limit = true -> Forall real_or_rejected cs ->
      Forall (fun s => (- credit_limit s <=? _balance (base s))%float = true)
        (states acc (run CreditAccount_call cs acc)))).
Proof.
  split.
  - intros holder balance acc cs Hi.
    pose proof (Account_states_floor holder balance acc cs Hi) as W.
    split; [exact W|]. split.
    + eapply Forall_impl; [| exact W]. cbn beta. intros s Hw Hn.
      apply ltb_false_leb; auto.
    + intros Rb Rc.
      pose proof (Account_states_not_nan holder balance acc cs Hi Rb Rc) as N.
      eapply Forall_impl; [| exact (Forall_and _ _ _ W N)].
      cbn beta. intros s [Hw Hn]. apply ltb_false_leb; auto.
  - intros holder balance limit acc cs Hi.
    pose proof (CreditAccount_states_floor holder balance limit acc cs Hi) as W.
    split; [exact W|]. split.
    + eapply Forall_impl; [| exact W]. cbn beta. intros s Hw Hn Hl.
      apply ltb_false_leb; auto. rewrite is_nan_opp. exact Hl.
    + intros Rb Rl Rc.
      pose proof (CreditAccount_states_not_nan holder balance limit acc cs Hi Rb Rl Rc) as N.
      eapply Forall_impl; [| exact (Forall_and _ _ _ W N)].
      cbn beta. intros s [Hw [Hn Hl]]. apply ltb_false_leb; auto.
      rewrite is_nan_opp. apply is_finite_not_nan, Hl.
Qed.

Lemma balance_never_below_floor_witness :
  Forall (fun s => (- credit_limit s <=? _balance (base s))%float = true)
    (states (mk_CreditAccount (mk_Account (ustr "Petr") 0%float []) 300%float)
       (run CreditAccount_call
          [Withdraw (PyInt 100) a_time; Withdraw (PyInt 250) a_time; Deposit (PyInt 80) a_time]
          (mk_CreditAccount (mk_Account (ustr "Petr") 0%float []) 300%float))).
Proof.
  exact (proj2 (proj2 (proj2 balance_never_below_floor (PyStr (ustr "Petr")) (PyInt 0)
                         (PyInt 300)
                         (mk_CreditAccount (mk_Account (ustr "Petr") 0%float []) 300%float)
                         [Withdraw (PyInt 100) a_time; Withdraw (PyInt 250) a_time;
                          Deposit (PyInt 80) a_time]
                         eq_refl))
           eq_refl eq_refl
           ltac:(repeat constructor)).
Defined.

(** ** Available credit *)

(** C9, as stated, fails: the validator accepts NaN, and once the
    balance is NaN so is the available credit.  On
    [CreditAccount('a', 0, 5)] the call [deposit(nan)] returns [True], and
    [get_available_credit] then returns NaN, which is not [>= 0].  A NaN
    credit limit, which the constructor accepts, does the same without any
    call. *)
Lemma available_credit_can_be_nan :
  CreditAccount_init (PyStr (ustr "a")) (PyInt 0) (PyInt 5)
  = Return (mk_CreditAccount (mk_Account (ustr "a") 0%float []) 5%float) /\
  List.map fst
    (run CreditAccount_call [Deposit (PyFloat nan) a_time]
       (mk_CreditAccount (mk_Account (ustr "a") 0%float []) 5%float))
  = [Return true] /\
  (let s := final (mk_CreditAccount (mk_Account (ustr "a") 0%float []) 5%float)
              (run CreditAccount_call [Deposit (PyFloat nan) a_time]
                 (mk_CreditAccount (mk_Account (ustr "a") 0%float []) 5%float)) in
   exists v, get_available_credit s = (Return v, s) /\
             is_nan v = true /\ (0 <=? v)%float = false) /\
  CreditAccount_init (PyStr (ustr "a")) (PyFloat 0) (PyFloat nan)
  = Return (mk_CreditAccount (mk_Account (ustr "a") 0%float []) nan) /\
  get_available_credit (mk_CreditAccount (mk_Account (ustr "a") 0%float []) nan)
  = (Return nan, mk_CreditAccount (mk_Account (ustr "a") 0%float []) nan) /\
  (0 <=? nan)%float = false.
Proof.
  split; [reflexivity|]. split; [reflexivity|].
  split; [exists nan; repeat split; vm_compute; reflexivity|].
  repeat split; reflexivity.
Qed.

(** C9, amended.  For a credit account made by its constructor and any
    sequence of calls, after construction and after every call
    [get_available_credit] leaves the account as it is and returns the float
    sum [balance + credit_limit]; that value is never [< 0], and it is
    [>= 0] whenever it is not NaN.  That is the case in every state when the
    constructor arguments are ints or finite floats and every amount is an
    int or a finite float or is rejected by the validator. *)
Theorem available_credit_never_negative holder balance limit acc cs :
  CreditAccount_init holder balance limit = Return acc ->
  Forall (fun s => exists v, get_available_credit s = (Return v, s) /\
                             v = (_balance (base s) + credit_limit s)%float /\
                             (v <? 0)%float = false /\
                             (is_nan v = false -> (0 <=? v)%float = true))
    (states acc (run CreditAccount_call cs acc))
  /\
  (no_special balance = true -> no_special limit = true -> Forall real_or_rejected cs ->
   Forall (fun s => exists v, get_available_credit s = (Return v, s) /\
                              v = (_balance (base s) + credit_limit s)%float /\
                              (0 <=? v)%float = true)
     (states acc (run CreditAccount_call cs acc))).
Proof.
  intros Hi.
  pose proof (CreditAccount_states_floor holder balance limit acc cs Hi) as W.
  split.
  - eapply Forall_impl; [| exact W]. cbn beta. intros s H.
    exists (_balance (base s) + credit_limit s)%float.
    split; [reflexivity|]. split; [reflexivity|].
    pose proof (available_never_negative _ _ H) as L.
    split; [exact L|]. intros N. apply ltb_false_leb; auto.
  - intros Rb Rl Rc.
    pose proof (CreditAccount_states_not_nan holder balance limit acc cs Hi Rb Rl Rc) as N.
    eapply Forall_impl; [| exact (Forall_and _ _ _ W N)]. cbn beta. intros s [H [Nb Fl]].
    exists (_balance (base s) + credit_limit s)%float.
    split; [reflexivity|]. split; [reflexivity|].
    apply add_limit_nonneg; [exact Fl|].
    apply ltb_false_leb; auto. rewrite is_nan_opp. apply is_finite_not_nan, Fl.
Qed.

Lemma available_credit_never_negative_witness :
  Forall (fun s => exists v, get_available_credit s = (Return v, s) /\
                             v = (_balance (base s) + credit_limit s)%float /\
                             (0 <=? v)%float = true)
    (states (mk_CreditAccount (mk_Account (ustr "Petr") 0%float []) 300%float)
       (run CreditAccount_call
          [Withdraw (PyInt 100) a_time; Withdraw (PyInt 250) a_time; Deposit (PyInt 80) a_time]
          (mk_CreditAccount (mk_Account (ustr "Petr") 0%float []) 300%float))).
Proof.
  exact (proj2 (available_credit_never_negative (PyStr (ustr "Petr")) (PyInt 0) (PyInt 300)
                  (mk_CreditAccount (mk_Account (ustr "Petr") 0%float []) 300%float)
                  [Withdraw (PyInt 100) a_time; Withdraw (PyInt 250) a_time;
                   Deposit (PyInt 80) a_time]
                  eq_refl)
           eq_refl eq_refl
           ltac:(repeat constructor)).
Defined.

(** ** The ledger *)

Lemma replay_app b h1 h2 : replay b (h1 ++ h2) = replay (replay b h1) h2.
Proof. unfold replay. apply fold_left_app. Qed.

Lemma last_cons {A : Type} (l : list A) (a d : A) : last (a :: l) d = last l a.
Proof.
  revert a d. induction l as [| x l IH]; intros a d; [reflexivity|].
  change (last (a :: x :: l) d) with (last (x :: l) d). rewrite !IH. reflexivity.
Qed.

Lemma final_cons {S : Type} (s : S) rs trace : final s (rs :: trace) = final (snd rs) trace.
Proof. unfold final. cbn [List.map]. apply last_cons. Qed.

(** The balance follows the records, for any kind of account whose calls
    do so one at a time. *)
Section Replay.

Context {S : Type}.
Variable step : call -> M S bool.
Variable account : S -> Account.

Hypothesis step_replay : forall c s,
  exists new,
    operations_history (account (snd (step c s))) = operations_history (account s) ++ new /\
    _balance (account (snd (step c s))) = replay (_balance (account s)) new.

Lemma run_replay cs : forall s,
  exists new,
    operations_history (account (final s (run step cs s)))
      = operations_history (account s) ++ new /\
    _balance (account (final s (run step cs s))) = replay (_balance (account s)) new.
Proof.
  induction cs as [| c cs IH]; intros s.
  - exists []. cbn. rewrite app_nil_r. auto.
  - cbn [run]. rewrite final_cons.
    destruct (step_replay c s) as (n1 & H1 & B1).
    destruct (IH (snd (step c s))) as (n2 & H2 & B2).
    exists (n1 ++ n2). rewrite H2, H1, B2, B1, replay_app, app_assoc. auto.
Qed.

End Replay.

Lemma Account_step_replay c self :
  exists new,
    operations_history (snd (Account_call c self)) = operations_history self ++ new /\
    _balance (snd (Account_call c self)) = replay (_balance self) new.
Proof.
  destruct (Account_call_cases c self) as [[e ->] | (w & r & s' & V & -> & _ & H)].
  - exists []. cbn. rewrite app_nil_r. auto.
  - cbn [snd].
    destruct H as [(B & _ & now & _ & ->) | [(B & _ & _ & now & _ & ->) | (B & _ & _ & now & _ & ->)]];
      eexists; (split; [reflexivity|]); rewrite B at 1; reflexivity.
Qed.

Lemma CreditAccount_step_replay c self :
  exists new,
    operations_history (base (snd (CreditAccount_call c self)))
      = operations_history (base self) ++ new /\
    _balance (base (snd (CreditAccount_call c self))) = replay (_balance (base self)) new.
Proof.
  destruct (CreditAccount_call_cases c self) as [[e ->] | (w & r & s' & V & -> & _ & _ & H)].
  - exists []. cbn. rewrite app_nil_r. auto.
  - cbn [snd]. cbn zeta in H.
    destruct H as [(B & _ & now & _ & ->) | [(B & _ & _ & now & _ & ->) | (B & _ & _ & now & _ & ->)]];
      eexists; (split; [reflexivity|]); rewrite B at 1; reflexivity.
Qed.

(** C5, as stated, fails: float addition rounds.  An account opened with
    0.1 and credited with 0.2 ends at 0.30000000000000004; the difference of
    the balances is not the recorded amount, in float arithmetic and on the
    exact values alike. *)
Lemma rounding_breaks_conservation :
  Account_init (PyStr (ustr "a")) (PyFloat 0.1) = Return (mk_Account (ustr "a") 0.1%float []) /\
  let acc := final (mk_Account (ustr "a") 0.1%float [])
               (run Account_call [Deposit (PyFloat 0.2) a_time]
                  (mk_Account (ustr "a") 0.1%float [])) in
  operations_history acc = [record "deposit" 0.2%float a_time (_balance acc) "success" None] /\
  conserved 0.1%float (_balance acc) (operations_history acc) = false /\
  FZ (_balance acc) - FZ 0.1%float <> FZ 0.2%float.
Proof.
  split; [reflexivity|]. split; [reflexivity|]. split; [reflexivity|].
  vm_compute. discriminate.
Qed.

(** C5, amended. For any sequence of calls on an account, the records
    appended are a suffix of the final history, and the final balance is the
    initial balance to which the amounts of the appended successful records
    are applied in order with float addition (deposits) and float
    subtraction (withdrawals). *)
Theorem ledger_replay (cs : list call) :
  (forall acc : Account,
     let acc' := final acc (run Account_call cs acc) in
     exists new,
       operations_history acc' = operations_history acc ++ new /\
       _balance acc' = replay (_balance acc) new)
  /\
  (forall acc : CreditAccount,
     let acc' := final acc (run CreditAccount_call cs acc) in
     exists new,
       operations_history (base acc') = operations_history (base acc) ++ new /\
       _balance (base acc') = replay (_balance (base acc)) new).
Proof.
  split; intros acc; cbn zeta.
  - apply (run_replay Account_call (fun s => s) Account_step_replay).
  - apply (run_replay CreditAccount_call base CreditAccount_step_replay).
Qed.

(** ** Rejected amounts *)

(** C6, as stated, fails: NaN is not a real number, yet the validator
    accepts it and the deposit appends a record; and the two rejections are
    an exception of class [TypeError] and one of class [ValueError]. *)
Lemma nan_amount_is_accepted :
  is_real (PyFloat nan) = false /\
  Account_deposit (PyFloat nan) a_time (mk_Account (ustr "a") 0%float [])
  = (Return true,
     mk_Account (ustr "a") nan [record "deposit" nan a_time nan "success" None]) /\
  _validate_amount (PyStr (ustr "ten")) = Raise (TypeError msg_amount_type) /\
  _validate_amount (PyInt 0) = Raise (ValueError msg_amount_positive).
Proof. repeat split; reflexivity. Qed.

(** C6, amended. A deposit or withdrawal, on either kind of account,
    whose amount is neither an [int] nor a [float] raises [TypeError]; one
    whose amount converts to a float [<= 0] raises [ValueError]; and a call
    that raises any exception leaves the account, balance and history,
    exactly as it was. *)
Theorem invalid_amount_changes_nothing (c : call) :
  (as_number (call_amount c) = None ->
   (forall self : Account, Account_call c self = (Raise (TypeError msg_amount_type), self)) /\
   (forall self : CreditAccount,
      CreditAccount_call c self = (Raise (TypeError msg_amount_type), self)))
  /\
  (forall n w, as_number (call_amount c) = Some n -> py_float n = Return w ->
   (w <=? 0)%float = true ->
   (forall self : Account,
      Account_call c self = (Raise (ValueError msg_amount_positive), self)) /\
   (forall self : CreditAccount,
      CreditAccount_call c self = (Raise (ValueError msg_amount_positive), self)))
  /\
  (forall (self self' : Account) e, Account_call c self = (Raise e, self') -> self' = self)
  /\
  (forall (self self' : CreditAccount) e,
     CreditAccount_call c self = (Raise e, self') -> self' = self).
Proof.
  split; [|split; [|split]].
  - intros An.
    assert (V : forall a now, c = Deposit a now \/ c = Withdraw a now ->
                _validate_amount a = Raise (TypeError msg_amount_type)).
    { intros a now [-> | ->]; cbn [call_amount] in An; unfold _validate_amount;
        rewrite An; reflexivity. }
    split; intros self;
      [apply validate_raise_Account | apply validate_raise_CreditAccount]; exact V.
  - intros n w An Pn L.
    assert (V : forall a now, c = Deposit a now \/ c = Withdraw a now ->
                _validate_amount a = Raise (ValueError msg_amount_positive)).
    { intros a now [-> | ->]; cbn [call_amount] in An; unfold _validate_amount;
        rewrite An, Pn, L; reflexivity. }
    split; intros self;
      [apply validate_raise_Account | apply validate_raise_CreditAccount]; exact V.
  - intros self self' e H.
    destruct (Account_call_cases c self) as [[e' E] | (w & r & s' & _ & E & _)];
      rewrite E in H; inversion H; reflexivity.
  - intros self self' e H.
    destruct (CreditAccount_call_cases c self) as [[e' E] | (w & r & s' & _ & E & _)];
      rewrite E in H; inversion H; reflexivity.
Qed.

Lemma invalid_amount_changes_nothing_witness :
  Account_call (Withdraw (PyStr (ustr "ten")) a_time) (mk_Account (ustr "Ivan") 30%float [])
  = (Raise (TypeError msg_amount_type), mk_Account (ustr "Ivan") 30%float []) /\
  CreditAccount_call (Deposit (PyFloat (-5)) a_time)
    (mk_CreditAccount (mk_Account (ustr "Petr") 0%float []) 300%float)
  = (Raise (ValueError msg_amount_positive),
     mk_CreditAccount (mk_Account (ustr "Petr") 0%float []) 300%float).
Proof.
  split.
  - exact (proj1 (proj1 (invalid_amount_changes_nothing
                           (Withdraw (PyStr (ustr "ten")) a_time)) eq_refl)
             (mk_Account (ustr "Ivan") 30%float [])).
  - exact (proj2 (proj1 (proj2 (invalid_amount_changes_nothing
                                  (Deposit (PyFloat (-5)) a_time)))
                    (NFloat (-5)) (-5)%float eq_refl eq_refl eq_refl)
             (mk_CreditAccount (mk_Account (ustr "Petr") 0%float []) 300%float)).
Defined.

(** ** Construction of a credit account *)

Lemma lstrip_spaces s : forallb isspace s = true -> lstrip s = [].
Proof.
  induction s as [| c s IH]; cbn [forallb lstrip]; [reflexivity|].
  intros H. apply andb_true_iff in H. destruct H as [-> H]. apply IH, H.
Qed.

Lemma strip_spaces s : forallb isspace s = true -> strip s = [].
Proof. intros H. unfold strip. rewrite (lstrip_spaces s H). reflexivity. Qed.

(** ** [str.strip] *)

Lemma lstrip_split s : exists l, s = l ++ lstrip s /\ forallb isspace l = true.
Proof.
  induction s as [| c s IH]; cbn [lstrip].
  - exists []. auto.
  - destruct (isspace c) eqn:E.
    + destruct IH as (l & H1 & H2). exists (c :: l). cbn [app forallb].
      rewrite E, H2. split; [f_equal; exact H1 | reflexivity].
    + exists []. auto.
Qed.

Lemma lstrip_head s c t : lstrip s = c :: t -> isspace c = false.
Proof.
  induction s as [| a s IH]; cbn [lstrip]; [discriminate|].
  destruct (isspace a) eqn:E; intros H; [apply IH, H|].
  inversion H; subst; exact E.
Qed.

Lemma lstrip_app l c : isspace c = false -> lstrip (l ++ [c]) = lstrip l ++ [c].
Proof.
  intros H. induction l as [| a l IH]; cbn [app lstrip].
  - rewrite H. reflexivity.
  - destruct (isspace a); [exact IH | reflexivity].
Qed.

Lemma forallb_rev_true {A : Type} (f : A -> bool) l :
  forallb f l = true -> forallb f (rev l) = true.
Proof.
  intros H. apply forallb_forall. intros x Hx. apply in_rev in Hx.
  exact (proj1 (forallb_forall f l) H x Hx).
Qed.

Lemma rstrip_split u : exists r, u = rstrip u ++ r /\ forallb isspace r = true.
Proof.
  unfold rstrip. destruct (lstrip_split (rev u)) as (l & H1 & H2). exists (rev l). split.
  - rewrite <- rev_app_distr, <- H1, rev_involutive. reflexivity.
  - apply forallb_rev_true, H2.
Qed.

(** [strip] removes a run of whitespace at each end, and nothing else. *)
Lemma strip_split s :
  exists l r, s = l ++ strip s ++ r /\ forallb isspace l = true /\ forallb isspace r = true.
Proof.
  destruct (lstrip_split s) as (l & H1 & H2).
  destruct (rstrip_split (lstrip s)) as (r & H3 & H4).
  exists l, r. unfold strip. rewrite <- H3. auto.
Qed.

Lemma strip_cons s c t : lstrip s = c :: t -> strip s = c :: rev (lstrip (rev t)).
Proof.
  intros H. pose proof (lstrip_head _ _ _ H) as Hc. unfold strip, rstrip. rewrite H.
  cbn [rev]. rewrite (lstrip_app _ _ Hc), rev_app_distr. reflexivity.
Qed.

Lemma strip_trimmed s : strip s <> [] -> trimmed (strip s) = true.
Proof.
  destruct (lstrip s) as [| c t] eqn:E.
  - unfold strip. rewrite E. intros H. exfalso. apply H. reflexivity.
  - rewrite (strip_cons s c t E). intros _. cbn [trimmed].
    pose proof (lstrip_head _ _ _ E) as Hc. rewrite Hc. cbn [negb andb].
    destruct (lstrip (rev t)) as [| d v] eqn:E2.
    + cbn. rewrite Hc. reflexivity.
    + cbn [rev]. rewrite last_last. rewrite (lstrip_head _ _ _ E2). reflexivity.
Qed.

Lemma trimmed_strip s : trimmed s = true -> strip s = s.
Proof.
  destruct s as [| c t]; [discriminate|]. cbn [trimmed]. intros H.
  apply andb_true_iff in H. destruct H as [H1 H2].
  apply negb_true_iff in H1, H2.
  rewrite (strip_cons (c :: t) c t) by (cbn [lstrip]; rewrite H1; reflexivity).
  f_equal. rewrite <- (rev_involutive t) at 2. f_equal.
  destruct (rev t) as [| d v] eqn:E; [reflexivity|].
  assert (Et : t = rev v ++ [d]).
  { rewrite <- (rev_involutive t), E. reflexivity. }
  rewrite Et, last_last in H2. cbn [lstrip]. rewrite H2. reflexivity.
Qed.

Lemma strip_empty_iff s : strip s = [] <-> forallb isspace s = true.
Proof.
  split; [|apply strip_spaces]. intros E.
  destruct (strip_split s) as (l & r & H & Hl & Hr). rewrite E in H. cbn [app] in H.
  rewrite H, forallb_app, Hl, Hr. reflexivity.
Qed.

Lemma valid_holder_spec h :
  valid_holder h = true <-> exists s, h = PyStr s /\ strip s <> [].
Proof.
  split.
  - destruct h as [| | | | s |]; cbn [valid_holder]; try discriminate.
    intros H. exists s. split; [reflexivity|]. intros E.
    apply strip_empty_iff in E. rewrite E in H. discriminate.
  - intros (s & -> & H). cbn [valid_holder]. apply negb_true_iff.
    destruct (forallb isspace s) eqn:E; [|reflexivity].
    exfalso. apply H, strip_empty_iff, E.
Qed.

(** C7, as stated, fails: a credit limit that is not a real number, NaN
    or an infinity, is accepted; a credit limit that is not a number at all
    raises [TypeError], not the [ValueError] of a negative one; and an [int]
    too large for a float raises [OverflowError], as the negative credit
    limit [-2^1024] and as the balance [2^1024], which is not below the
    limit. *)
Lemma nan_credit_limit_is_accepted :
  is_real (PyFloat nan) = false /\
  CreditAccount_init (PyStr (ustr "a")) (PyFloat 0) (PyFloat nan)
    = Return (mk_CreditAccount (mk_Account (ustr "a") 0%float []) nan) /\
  is_real (PyFloat infinity) = false /\
  CreditAccount_init (PyStr (ustr "a")) (PyFloat 0) (PyFloat infinity)
    = Return (mk_CreditAccount (mk_Account (ustr "a") 0%float []) infinity) /\
  CreditAccount_init (PyStr (ustr "a")) (PyFloat 0) PyNone = Raise (TypeError msg_limit_type) /\
  CreditAccount_init (PyStr (ustr "a")) (PyFloat 0) (PyInt (-1))
    = Raise (ValueError msg_limit_negative) /\
  CreditAccount_init (PyStr (ustr "a")) (PyFloat 0) (PyInt (- 2 ^ 1024))
    = Raise (OverflowError "int too large to convert to float") /\
  CreditAccount_init (PyStr (ustr "a")) (PyInt (2 ^ 1024)) (PyInt 0)
    = Raise (OverflowError "int too large to convert to float").
Proof. repeat split; vm_compute; reflexivity. Qed.

(** C7, amended.  [CreditAccount.__init__] checks the credit limit, then
    the balance, then the holder.  It raises [TypeError] when the credit
    limit is neither an [int] nor a [float], and [OverflowError] when it is
    an [int] of magnitude [2^1024 - 2^970] or more, which [float] cannot
    convert; every other limit converts to a float [l], and the constructor
    raises [ValueError] (credit limit) when [l < 0].  When [l < 0] is false
    it raises [TypeError] when the balance is neither an [int] nor a
    [float], and [OverflowError] when it is an [int] of magnitude
    [2^1024 - 2^970] or more; every other balance converts to a float [b],
    and the constructor raises [ValueError] (balance) when [b < -l].  When
    [b >= -l] it raises [ValueError] (holder) when the holder is not a
    string or is empty or all whitespace, and otherwise succeeds, storing
    the stripped holder, [b], [l] and an empty history.  A negative balance
    in [-l, 0) is thus accepted, where [Account.__init__] raises
    [ValueError]. *)
Theorem CreditAccount_init_spec (account_holder balance credit_limit : pyval) :
  let made := CreditAccount_init account_holder balance credit_limit in
  let overflow := OverflowError "int too large to convert to float" in
  (as_number credit_limit = None -> made = Raise (TypeError msg_limit_type))
  /\
  (forall z, as_number credit_limit = Some (NInt z) ->
     (2 ^ 1024 - 2 ^ 970 <= Z.abs z -> made = Raise overflow) /\
     (Z.abs z < 2 ^ 1024 - 2 ^ 970 -> exists l, converts_to credit_limit l))
  /\
  (forall f, as_number credit_limit = Some (NFloat f) -> converts_to credit_limit f)
  /\
  (forall l, converts_to credit_limit l ->
     ((l <? 0)%float = true -> made = Raise (ValueError msg_limit_negative))
     /\
     ((l <? 0)%float = false ->
      (as_number balance = None -> made = Raise (TypeError msg_balance_type))
      /\
      (forall z, as_number balance = Some (NInt z) ->
         (2 ^ 1024 - 2 ^ 970 <= Z.abs z -> made = Raise overflow) /\
         (Z.abs z < 2 ^ 1024 - 2 ^ 970 -> exists b, converts_to balance b))
      /\
      (forall f, as_number balance = Some (NFloat f) -> converts_to balance f)
      /\
      (forall b, converts_to balance b ->
        ((b <? - l)%float = true -> made = Raise (ValueError msg_balance_below))
        /\
        ((- l <=? b)%float = true ->
         ((forall s, account_holder <> PyStr s) -> made = Raise (ValueError msg_holder))
         /\
         (forall s, account_holder = PyStr s ->
            (forallb isspace s = true -> made = Raise (ValueError msg_holder))
            /\
            (forallb isspace s = false ->
             made = Return (mk_CreditAccount (mk_Account (strip s) b []) l)
             /\
             ((b <? 0)%float = true ->
              Account_init account_holder balance
              = Raise (ValueError msg_balance_negative)))))))).
Proof.
  intros made overflow. unfold made, overflow, CreditAccount_init.
  assert (Conv : forall v z, as_number v = Some (NInt z) ->
                   Z.abs z < 2 ^ 1024 - 2 ^ 970 -> exists x, converts_to v x).
  { intros v z Av Hz. destruct (proj1 (float_of_int_threshold z) Hz) as [x Ex].
    exists x, (NInt z). split; [exact Av | exact Ex]. }
  split; [|split; [|split]].
  - intros ->. reflexivity.
  - intros z An. split.
    + intros Hz. rewrite An. cbn [py_float].
      rewrite (proj2 (float_of_int_threshold z) Hz). reflexivity.
    + apply Conv, An.
  - intros f An. exists (NFloat f). split; [exact An | reflexivity].
  - intros l (nl & -> & ->). split.
    + intros ->. reflexivity.
    + intros ->. split; [|split; [|split]].
      * intros ->. reflexivity.
      * intros z An. split.
        -- intros Hz. rewrite An. cbn [py_float].
           rewrite (proj2 (float_of_int_threshold z) Hz). reflexivity.
        -- apply Conv, An.
      * intros f An. exists (NFloat f). split; [exact An | reflexivity].
      * intros b (nb & Ab & Pb). rewrite Ab, Pb. split.
        -- intros ->. reflexivity.
        -- intros L. rewrite (leb_not_ltb _ _ L). split.
           ++ intros N. destruct account_holder; try reflexivity.
              exfalso. eapply N; reflexivity.
           ++ intros s ->. split.
              ** intros W. rewrite (strip_spaces s W). reflexivity.
              ** intros Ns.
                 assert (St : strip s <> []).
                 { intros E. apply strip_empty_iff in E. rewrite E in Ns. discriminate Ns. }
                 split.
                 --- destruct (strip s); [congruence | reflexivity].
                 --- intros Neg. unfold Account_init. rewrite Ab.
                     rewrite (py_float_lt_zero nb b Pb), Neg.
                     destruct (strip s); [congruence | reflexivity].
Qed.

Lemma CreditAccount_init_spec_witness :
  CreditAccount_init (PyStr (ustr "  Petr ")) (PyInt (-100)) (PyInt 300)
    = Return (mk_CreditAccount (mk_Account (ustr "Petr") (-100)%float []) 300%float) /\
  Account_init (PyStr (ustr "  Petr ")) (PyInt (-100)) = Raise (ValueError msg_balance_negative).
Proof.
  pose proof (CreditAccount_init_spec (PyStr (ustr "  Petr ")) (PyInt (-100)) (PyInt 300)) as H.
  cbn zeta in H. destruct H as (_ & _ & _ & H).
  destruct (H 300%float (ex_intro _ (NInt 300) (conj eq_refl eq_refl))) as [_ H1].
  destruct (H1 eq_refl) as (_ & _ & _ & H1').
  destruct (H1' (-100)%float (ex_intro _ (NInt (-100)) (conj eq_refl eq_refl)))
    as [_ H2].
  destruct (H2 eq_refl) as [_ H3].
  destruct (H3 (ustr "  Petr ") eq_refl) as [_ H4].
  destruct (H4 eq_refl) as [H5 H6].
  split; [exact H5 | exact (H6 eq_refl)].
Defined.

(** ** The history *)

Lemma fold_append_map {A B : Type} (f : A -> B) (l : list A) (acc : list B) :
  fold_left (fun history x => history ++ [f x]) l acc = acc ++ List.map f l.
Proof.
  revert acc. induction l as [| x l IH]; intros acc; cbn [fold_left List.map].
  - rewrite app_nil_r. reflexivity.
  - rewrite IH, <- app_assoc. reflexivity.
Qed.

Lemma get_history_eq self :
  get_history self = (Return (List.map history_row (operations_history self)), self).
Proof.
  unfold get_history, bind, get, ret. rewrite fold_append_map. reflexivity.
Qed.

(** The store. *)

Lemma store_other h l o i : i <> l -> nth_error (store h l o) i = nth_error h i.
Proof.
  revert l i. induction h as [| x h IH]; intros l i N; [reflexivity|].
  destruct l, i; cbn [store nth_error]; try reflexivity; try congruence.
  apply IH. congruence.
Qed.

Lemma mutate_other h writes i :
  Forall (fun w => fst w <> i) writes -> nth_error (mutate h writes) i = nth_error h i.
Proof.
  unfold mutate. revert h. induction writes as [| w ws IH]; intros h F; [reflexivity|].
  inversion F; subst. cbn [fold_left]. rewrite IH by assumption.
  apply store_other. congruence.
Qed.

Lemma store_at_end (l : heap) o o' : store (l ++ [o]) (List.length l) o' = l ++ [o'].
Proof.
  induction l as [| x l IH]; cbn [app List.length store]; [reflexivity | rewrite IH; reflexivity].
Qed.

Lemma store_in_middle (l : heap) o o' tl :
  store (l ++ o :: tl) (List.length l) o' = l ++ o' :: tl.
Proof.
  induction l as [| x l IH]; cbn [app List.length store]; [reflexivity | rewrite IH; reflexivity].
Qed.

Lemma loop_step h done op :
  loop_body (List.length h) (loop_heap h done) (IOp op) = loop_heap h (done ++ [op]).
Proof.
  unfold loop_body, alloc, loop_heap.
  set (n := List.length h).
  set (refs := List.map IObj (seq (S n) (List.length done))).
  set (ds := List.map (fun op => ODict (history_row op)) done).
  assert (Len : List.length (h ++ OList refs :: ds) = (S n + List.length done)%nat).
  { rewrite length_app. unfold ds. cbn [List.length]. rewrite length_map. fold n. lia. }
  rewrite Len, <- Len, store_at_end. fold (history_row op).
  unfold list_append.
  assert (Nth : nth_error ((h ++ OList refs :: ds) ++ [ODict (history_row op)]) n
                = Some (OList refs)).
  { rewrite <- app_assoc. rewrite nth_error_app2 by (fold n; lia).
    fold n. rewrite Nat.sub_diag. reflexivity. }
  rewrite Nth. rewrite <- app_assoc. cbn [app]. unfold n. rewrite store_in_middle.
  f_equal. f_equal.
  - f_equal. fold refs. rewrite Len. rewrite (length_app done [op]). cbn [List.length].
    rewrite Nat.add_1_r, seq_S, map_app. reflexivity.
  - unfold ds. rewrite map_app. reflexivity.
Qed.

Lemma loop_run h ops done :
  fold_left (loop_body (List.length h)) (List.map IOp ops) (loop_heap h done)
  = loop_heap h (done ++ ops).
Proof.
  revert done. induction ops as [| op ops IH]; intros done; cbn [List.map fold_left].
  - rewrite app_nil_r. reflexivity.
  - rewrite loop_step, IH, <- app_assoc. reflexivity.
Qed.

Lemma get_history_store_eq h l ops :
  nth_error h l = Some (OList (List.map IOp ops)) ->
  get_history_store l h = Some (List.length h, loop_heap h ops).
Proof.
  intros E. unfold get_history_store. rewrite E. unfold alloc.
  apply f_equal, f_equal. exact (loop_run h ops []).
Qed.

Lemma loop_heap_old h ops i :
  (i < List.length h)%nat -> nth_error (loop_heap h ops) i = nth_error h i.
Proof. intros L. unfold loop_heap. apply nth_error_app1, L. Qed.

Lemma loop_heap_list h ops :
  nth_error (loop_heap h ops) (List.length h)
  = Some (OList (List.map IObj (seq (S (List.length h)) (List.length ops)))).
Proof.
  unfold loop_heap. rewrite nth_error_app2 by lia. rewrite Nat.sub_diag. reflexivity.
Qed.

Lemma loop_heap_row h ops k :
  nth_error (loop_heap h ops) (S (List.length h) + k)
  = option_map (fun op => ODict (history_row op)) (nth_error ops k).
Proof.
  unfold loop_heap. rewrite nth_error_app2 by lia.
  replace (S (List.length h) + k - List.length h)%nat with (S k) by lia.
  cbn [nth_error]. apply nth_error_map.
Qed.

Lemma rows_of_refs (H : heap) ops : forall base,
  (forall k, nth_error H (base + k)
             = option_map (fun op => ODict (history_row op)) (nth_error ops k)) ->
  flat_map (fun x =>
      match x with
      | IObj r => match nth_error H r with Some (ODict d) => [d] | _ => [] end
      | IOp _ => []
      end) (List.map IObj (seq base (List.length ops)))
  = List.map history_row ops.
Proof.
  induction ops as [| op ops IH]; intros base E; [reflexivity|].
  cbn [List.length seq List.map flat_map].
  pose proof (E 0%nat) as E0. rewrite Nat.add_0_r in E0. rewrite E0.
  cbn [nth_error option_map app]. f_equal.
  apply IH. intros k. specialize (E (S k)). rewrite Nat.add_succ_r in E. exact E.
Qed.

Lemma rows_at_loop h ops :
  rows_at (loop_heap h ops) (List.length h) = List.map history_row ops.
Proof.
  unfold rows_at. rewrite loop_heap_list.
  apply rows_of_refs. intros k. apply loop_heap_row.
Qed.

Lemma reachable_loop h ops :
  Forall (fun r => (List.length h <= r)%nat) (reachable (loop_heap h ops) (List.length h)).
Proof.
  unfold reachable. rewrite loop_heap_list. constructor; [lia|].
  apply Forall_forall. intros r In. apply in_flat_map in In.
  destruct In as (x & Ix & Ir). apply in_map_iff in Ix. destruct Ix as (k & <- & Ik).
  apply in_seq in Ik. destruct Ir as [<- | []]. lia.
Qed.

Lemma Account_call_appends c self r self' :
  Account_call c self = (Return r, self') ->
  exists op, operations_history self' = operations_history self ++ [op].
Proof.
  intros E. destruct (Account_call_cases c self) as [[e E'] | (w & r' & s' & _ & E' & _ & H)];
    rewrite E' in E; inversion E; subst.
  destruct H as [(_ & _ & now & _ & ->) | [(_ & _ & _ & now & _ & ->) | (_ & _ & _ & now & _ & ->)]];
    eexists; reflexivity.
Qed.

Lemma CreditAccount_call_appends c self r self' :
  CreditAccount_call c self = (Return r, self') ->
  exists op, operations_history (base self') = operations_history (base self) ++ [op].
Proof.
  intros E.
  destruct (CreditAccount_call_cases c self) as [[e E'] | (w & r' & s' & _ & E' & _ & _ & H)];
    rewrite E' in E; inversion E; subst. cbn zeta in H.
  destruct H as [(_ & _ & now & _ & ->) | [(_ & _ & _ & now & _ & ->) | (_ & _ & _ & now & _ & ->)]];
    eexists; reflexivity.
Qed.

(** C8. [get_history] returns the rows of the recorded operations in
    insertion order and leaves the account as it was, so that a second call
    returns the same content; after one more deposit or withdrawal that
    returns, and so records an operation, on either kind of account, the
    rows returned before are a strict prefix of the rows returned after
    (after a call that raises they are the same rows); and the list returned
    and its dicts are new objects: whatever the caller writes into them, the
    list held by the account is not changed. *)
Theorem get_history_is_a_copy (self : Account) :
  let rows := List.map history_row (operations_history self) in
  get_history self = (Return rows, self)
  /\
  (x <- get_history ;; y <- get_history ;; ret (x, y)) self = (Return (rows, rows), self)
  /\
  (forall c r self',
     Account_call c self = (Return r, self') ->
     exists row, get_history self' = (Return (rows ++ [row]), self'))
  /\
  (forall c e self',
     Account_call c self = (Raise e, self') -> get_history self' = (Return rows, self'))
  /\
  (forall (k : CreditAccount) c r k',
     base k = self -> CreditAccount_call c k = (Return r, k') ->
     exists row, inherited get_history k' = (Return (rows ++ [row]), k'))
  /\
  (forall (h : heap) (l : loc),
     nth_error h l = Some (OList (List.map IOp (operations_history self))) ->
     exists history h',
       get_history_store l h = Some (history, h') /\
       rows_at h' history = rows /\
       nth_error h' l = nth_error h l /\
       forall writes,
         Forall (fun w => In (fst w) (reachable h' history)) writes ->
         nth_error (mutate h' writes) l = nth_error h l).
Proof.
  intros rows. split; [apply get_history_eq|]. split; [|split; [|split; [|split]]].
  - unfold bind. rewrite !get_history_eq. reflexivity.
  - intros c r self' E. destruct (Account_call_appends c self r self' E) as [op Ho].
    exists (history_row op). rewrite get_history_eq, Ho, map_app. reflexivity.
  - intros c e self' E.
    destruct (Account_call_cases c self) as [[e' E'] | (w & r & s' & _ & E' & _)];
      rewrite E' in E; inversion E; subst. apply get_history_eq.
  - intros k c r k' <- E. destruct (CreditAccount_call_appends c k r k' E) as [op Ho].
    exists (history_row op). unfold inherited. rewrite get_history_eq, Ho, map_app.
    destruct k'; reflexivity.
  - intros h l E.
    assert (L : (l < List.length h)%nat) by (apply nth_error_Some; congruence).
    exists (List.length h), (loop_heap h (operations_history self)).
    split; [apply get_history_store_eq, E|]. split; [apply rows_at_loop|].
    split; [apply loop_heap_old, L|].
    intros writes W. rewrite mutate_other; [apply loop_heap_old, L|].
    pose proof (reachable_loop h (operations_history self)) as R.
    rewrite Forall_forall in R. eapply Forall_impl; [| exact W].
    cbn beta. intros w In Eq. specialize (R _ In). lia.
Qed.

Lemma get_history_is_a_copy_witness :
  let self :=
    mk_Account (ustr "Ivan") 150%float [record "deposit" 50%float a_time 150%float "success" None] in
  (exists row,
     get_history (snd (Account_call (Withdraw (PyInt 500) a_time) self))
     = (Return (List.map history_row (operations_history self) ++ [row]),
        snd (Account_call (Withdraw (PyInt 500) a_time) self))) /\
  (exists history h',
     get_history_store 0%nat [OList (List.map IOp (operations_history self))] = Some (history, h') /\
     nth_error (mutate h' [(history, OList []); (2%nat, ODict [])]) 0%nat
     = Some (OList (List.map IOp (operations_history self)))).
Proof.
  intros self.
  destruct (get_history_is_a_copy self) as (_ & _ & P & _ & _ & C). split.
  - exact (P (Withdraw (PyInt 500) a_time) false _ eq_refl).
  - destruct (C [OList (List.map IOp (operations_history self))] 0%nat eq_refl)
      as (history & h' & E & _ & _ & W).
    exists history, h'. split; [exact E|].
    inversion E; subst. apply W.
    constructor; [vm_compute; auto | constructor; [vm_compute; auto | constructor]].
Defined.

(** ** A credit account without credit *)

Lemma zero_limit l :
  (l =? 0)%float = true -> is_nan (- l) = false /\ FZ (- l) = 0.
Proof.
  intros H.
  destruct (is_nan l) eqn:N; [rewrite eqb_nan in H by auto; discriminate|].
  rewrite eqb_FZ in H by (auto; reflexivity). apply Z.eqb_eq in H. rewrite FZ_0 in H.
  rewrite is_nan_opp, FZ_opp, H. auto.
Qed.

Lemma ltb_like_zero b z :
  is_nan z = false -> FZ z = 0 -> (b <? z)%float = (b <? 0)%float.
Proof.
  intros Nz Ez. destruct (is_nan b) eqn:Nb.
  - rewrite !ltb_nan; auto.
  - rewrite !ltb_FZ by (auto; reflexivity). rewrite Ez, FZ_0. reflexivity.
Qed.

Lemma alike_append s c op op' :
  alike s c ->
  erase_flag op = erase_flag op' ->
  forall b,
  alike (mk_Account (holder s) b (operations_history s ++ [op]))
        (mk_CreditAccount
           (mk_Account (holder (base c)) b (operations_history (base c) ++ [op']))
           (credit_limit c)).
Proof.
  intros (Hh & Hb & Ho) E b. unfold alike. cbn.
  rewrite !map_app, Ho. cbn [List.map]. rewrite E. auto.
Qed.

Lemma alike_step c s k :
  (credit_limit k =? 0)%float = true -> alike s k ->
  fst (Account_call c s) = fst (CreditAccount_call c k) /\
  alike (snd (Account_call c s)) (snd (CreditAccount_call c k)) /\
  credit_limit (snd (CreditAccount_call c k)) = credit_limit k.
Proof.
  intros Z A. destruct (zero_limit _ Z) as [Nz Ez].
  pose proof A as (Hh & Hb & Ho).
  assert (R : forall e, _validate_amount (call_amount c) = Raise e ->
              Account_call c s = (Raise e, s) /\ CreditAccount_call c k = (Raise e, k)).
  { intros e V. split;
      [apply validate_raise_Account | apply validate_raise_CreditAccount];
      intros a now [-> | ->]; exact V. }
  split; [|split; [|apply CreditAccount_step_limit]].
  - destruct (_validate_amount (call_amount c)) as [w | e] eqn:V.
    + destruct c as [a now | a now]; cbn [Account_call CreditAccount_call call_amount] in *.
      * rewrite (Account_deposit_eq a w now s V), (CreditAccount_deposit_eq a w now k V).
        reflexivity.
      * rewrite (Account_withdraw_eq a w now s V), (CreditAccount_withdraw_eq a w now k V).
        cbn zeta. rewrite (sub_ltb_zero _ _ _ Nz Ez), <- Hb.
        destruct (_balance s <? w)%float; reflexivity.
    + destruct (R e eq_refl) as [-> ->]. reflexivity.
  - destruct (_validate_amount (call_amount c)) as [w | e] eqn:V.
    + destruct c as [a now | a now]; cbn [Account_call CreditAccount_call call_amount] in *.
      * rewrite (Account_deposit_eq a w now s V), (CreditAccount_deposit_eq a w now k V).
        cbn [snd]. rewrite <- Hb. apply alike_append; [exact A | reflexivity].
      * rewrite (Account_withdraw_eq a w now s V), (CreditAccount_withdraw_eq a w now k V).
        cbn zeta. rewrite (sub_ltb_zero _ _ _ Nz Ez), <- Hb.
        destruct (_balance s <? w)%float; cbn [snd];
          (apply alike_append; [exact A | reflexivity]).
    + destruct (R e eq_refl) as [-> ->]. exact A.
Qed.

(** C10. A credit account whose limit is zero behaves like a standard
    account: on the same holder and initial balance the two constructors
    both succeed, with accounts that agree, or both raise; and from accounts
    that agree every sequence of calls gives, call by call, the same outcome
    (the value returned or the exception raised) and accounts that agree
    again: same holder, same balance, same records up to [credit_used]. *)
Theorem zero_limit_is_standard :
  (forall holder balance limit l,
     converts_to limit l -> (l =? 0)%float = true ->
     same_construction (Account_init holder balance)
       (CreditAccount_init holder balance limit))
  /\
  (forall (s : Account) (c : CreditAccount) (cs : list call),
     (credit_limit c =? 0)%float = true -> alike s c ->
     Forall2 (fun rs rc => fst rs = fst rc /\ alike (snd rs) (snd rc))
       (run Account_call cs s) (run CreditAccount_call cs c)).
Proof.
  split.
  - intros h b lim l (nl & Al & Pl) Z. destruct (zero_limit _ Z) as [Nz Ez].
    assert (L0 : (l <? 0)%float = false).
    { destruct (is_nan l) eqn:N; [apply ltb_nan; auto|].
      rewrite eqb_FZ in Z by (auto; reflexivity). apply Z.eqb_eq in Z.
      rewrite ltb_FZ by (auto; reflexivity). rewrite Z. reflexivity. }
    unfold same_construction, Account_init, CreditAccount_init.
    rewrite Al, Pl, L0.
    destruct (as_number b) as [nb|] eqn:Ab.
    + destruct (py_float nb) as [x | e] eqn:Pb.
      * rewrite (ltb_like_zero x _ Nz Ez), <- (py_float_lt_zero nb x Pb).
        destruct h; try (destruct (lt_zero nb); exact I).
        destruct (strip s) eqn:St; [destruct (lt_zero nb); exact I|].
        destruct (lt_zero nb); [exact I|].
        unfold alike. cbn. auto.
      * destruct h; try exact I. destruct (strip s); [exact I|].
        destruct (lt_zero nb); exact I.
    + destruct h; try exact I. destruct (strip s); exact I.
  - intros s c cs. revert s c. induction cs as [| x cs IH]; intros s c Z A; cbn [run].
    + constructor.
    + destruct (alike_step x s c Z A) as (H1 & H2 & H3).
      constructor; [split; assumption|].
      apply IH; [rewrite H3; exact Z | exact H2].
Qed.

Lemma zero_limit_is_standard_witness :
  same_construction (Account_init (PyStr (ustr "Ivan")) (PyInt 100))
    (CreditAccount_init (PyStr (ustr "Ivan")) (PyInt 100) (PyFloat 0)) /\
  Forall2 (fun rs rc => fst rs = fst rc /\ alike (snd rs) (snd rc))
    (run Account_call
       [Deposit (PyInt 50) a_time; Withdraw (PyInt 500) a_time; Withdraw (PyInt 120) a_time]
       (mk_Account (ustr "Ivan") 100%float []))
    (run CreditAccount_call
       [Deposit (PyInt 50) a_time; Withdraw (PyInt 500) a_time; Withdraw (PyInt 120) a_time]
       (mk_CreditAccount (mk_Account (ustr "Ivan") 100%float []) 0%float)).
Proof.
  split.
  - exact (proj1 zero_limit_is_standard (PyStr (ustr "Ivan")) (PyInt 100) (PyFloat 0) 0%float
             (ex_intro _ (NFloat 0) (conj eq_refl eq_refl)) eq_refl).
  - exact (proj2 zero_limit_is_standard (mk_Account (ustr "Ivan") 100%float [])
             (mk_CreditAccount (mk_Account (ustr "Ivan") 100%float []) 0%float)
             [Deposit (PyInt 50) a_time; Withdraw (PyInt 500) a_time;
              Withdraw (PyInt 120) a_time]
             eq_refl (conj eq_refl (conj eq_refl eq_refl))).
Defined.

(** * Further properties: the constructors *)

(** ** Invariants along a run *)

Lemma final_invariant {S : Type} (P : S -> Prop) (step : call -> M S bool) :
  (forall c s, P s -> P (snd (step c s))) ->
  forall cs s, P s -> P (final s (run step cs s)).
Proof.
  intros Hstep cs. induction cs as [| c cs IH]; intros s Hs.
  - exact Hs.
  - cbn [run]. rewrite final_cons. apply IH, Hstep, Hs.
Qed.

Lemma Account_step_holder c self : holder (snd (Account_call c self)) = holder self.
Proof.
  destruct (Account_call_cases c self) as [[e ->] | (w & r & s' & _ & -> & E & _)];
    [reflexivity | exact E].
Qed.

Lemma CreditAccount_step_holder c self :
  holder (base (snd (CreditAccount_call c self))) = holder (base self).
Proof.
  destruct (CreditAccount_call_cases c self) as [[e ->] | (w & r & s' & _ & -> & E & _)];
    [reflexivity | exact E].
Qed.

(** ** The holder *)

(** X1. Both constructors store the holder with the whitespace at its two
    ends removed and nothing else changed: the stored name is not empty and
    neither begins nor ends with a whitespace character. *)
Theorem holder_is_trimmed (h b l : pyval) :
  (forall acc, Account_init h b = Return acc ->
     exists s pre post, h = PyStr s /\ s = pre ++ holder acc ++ post /\
       forallb isspace pre = true /\ forallb isspace post = true /\
       trimmed (holder acc) = true)
  /\
  (forall acc, CreditAccount_init h b l = Return acc ->
     exists s pre post, h = PyStr s /\ s = pre ++ holder (base acc) ++ post /\
       forallb isspace pre = true /\ forallb isspace post = true /\
       trimmed (holder (base acc)) = true).
Proof.
  split; intros acc H.
  - destruct (Account_init_inv _ _ _ H) as (s & n & -> & St & _ & _ & _ & ->).
    destruct (strip_split s) as (pre & post & E & Hl & Hr).
    exists s, pre, post. cbn [holder]. repeat split; auto. apply strip_trimmed, St.
  - destruct (CreditAccount_init_inv _ _ _ _ H) as (s & nb & nl & -> & St & _ & _ & _ & _ & _ & _ & ->).
    destruct (strip_split s) as (pre & post & E & Hl & Hr).
    exists s, pre, post. cbn [holder base]. repeat split; auto. apply strip_trimmed, St.
Qed.

Lemma holder_is_trimmed_witness :
  Account_init (PyStr (ustr "  Ivan Petrov ")) (PyInt 100)
    = Return (mk_Account (ustr "Ivan Petrov") 100%float []) /\
  trimmed (ustr "Ivan Petrov") = true.
Proof.
  split; [reflexivity|].
  destruct (proj1 (holder_is_trimmed (PyStr (ustr "  Ivan Petrov ")) (PyInt 100) PyNone)
              (mk_Account (ustr "Ivan Petrov") 100%float []) eq_refl)
    as (s & pre & post & _ & _ & _ & _ & T).
  exact T.
Defined.

(** ** The constructor's conditions are kept *)

Lemma Account_init_again s b :
  trimmed s = true -> (b <? 0)%float = false ->
  Account_init (PyStr s) (PyFloat b) = Return (mk_Account s b []).
Proof.
  intros T L. unfold Account_init. rewrite (trimmed_strip s T).
  cbn [as_number lt_zero py_float]. rewrite L.
  destruct s; [discriminate T | reflexivity].
Qed.

Lemma CreditAccount_init_again s b l :
  trimmed s = true -> (l <? 0)%float = false -> (b <? - l)%float = false ->
  CreditAccount_init (PyStr s) (PyFloat b) (PyFloat l)
  = Return (mk_CreditAccount (mk_Account s b []) l).
Proof.
  intros T Ll Lb. unfold CreditAccount_init. cbn [as_number py_float].
  rewrite Ll, Lb, (trimmed_strip s T).
  destruct s; [discriminate T | reflexivity].
Qed.

(** X2. Whatever calls were made on an account, its constructor accepts the
    holder and balance (and credit limit) the account now has, and builds an
    account with these and an empty history: the conditions checked at
    construction hold in every later state. *)
Theorem constructor_accepts_own_state (h b l : pyval) (cs : list call) :
  (forall acc, Account_init h b = Return acc ->
     let acc' := final acc (run Account_call cs acc) in
     Account_init (PyStr (holder acc')) (PyFloat (_balance acc'))
     = Return (mk_Account (holder acc') (_balance acc') []))
  /\
  (forall acc, CreditAccount_init h b l = Return acc ->
     let acc' := final acc (run CreditAccount_call cs acc) in
     CreditAccount_init (PyStr (holder (base acc'))) (PyFloat (_balance (base acc')))
       (PyFloat (credit_limit acc'))
     = Return (mk_CreditAccount (mk_Account (holder (base acc')) (_balance (base acc')) [])
                 (credit_limit acc'))).
Proof.
  split; intros acc H acc'.
  - assert (I : trimmed (holder acc') = true /\ (_balance acc' <? 0)%float = false).
    { apply (final_invariant
               (fun s => trimmed (holder s) = true /\ (_balance s <? 0)%float = false)
               Account_call).
      - intros c s [T L]. rewrite Account_step_holder. split; [exact T|].
        apply Account_step_never_negative, L.
      - destruct (Account_init_inv _ _ _ H) as (s & n & _ & St & _ & L & P & ->).
        cbn [holder _balance] in *. split; [apply strip_trimmed, St|].
        rewrite <- (py_float_lt_zero n _ P). exact L. }
    destruct I as [T L]. apply Account_init_again; assumption.
  - assert (I : trimmed (holder (base acc')) = true /\
                (credit_limit acc' <? 0)%float = false /\
                (_balance (base acc') <? - credit_limit acc')%float = false).
    { apply (final_invariant
               (fun s => trimmed (holder (base s)) = true /\
                         (credit_limit s <? 0)%float = false /\
                         (_balance (base s) <? - credit_limit s)%float = false)
               CreditAccount_call).
      - intros c s (T & Ll & Lb). rewrite CreditAccount_step_holder.
        split; [exact T|]. split.
        + rewrite CreditAccount_step_limit. exact Ll.
        + apply CreditAccount_step_never_below, Lb.
      - destruct (CreditAccount_init_inv _ _ _ _ H)
          as (s & nb & nl & _ & St & _ & _ & Ll & _ & _ & Lb & ->).
        cbn [holder base _balance credit_limit] in *.
        split; [apply strip_trimmed, St|]. split; assumption. }
    destruct I as (T & Ll & Lb). apply CreditAccount_init_again; assumption.
Qed.

Lemma constructor_accepts_own_state_witness :
  let acc := mk_CreditAccount (mk_Account (ustr "Petr") 0%float []) 300%float in
  let acc' := final acc (run CreditAccount_call
                           [Withdraw (PyInt 100) a_time; Withdraw (PyInt 250) a_time;
                            Deposit (PyInt 80) a_time] acc) in
  _balance (base acc') = (-20)%float /\
  CreditAccount_init (PyStr (ustr "Petr")) (PyFloat (-20)) (PyFloat 300)
  = Return (mk_CreditAccount (mk_Account (ustr "Petr") (-20)%float []) 300%float).
Proof.
  split; [reflexivity|].
  exact (proj2 (constructor_accepts_own_state (PyStr (ustr " Petr")) (PyInt 0) (PyInt 300)
                  [Withdraw (PyInt 100) a_time; Withdraw (PyInt 250) a_time;
                   Deposit (PyInt 80) a_time])
           (mk_CreditAccount (mk_Account (ustr "Petr") 0%float []) 300%float) eq_refl).
Defined.

(** ** The order of the checks *)

(** X3. [Account.__init__] checks the holder first, then the type of the
    balance, then its sign, and converts the balance last: an invalid holder
    raises [ValueError] whatever the balance is; with a valid holder, a
    balance that is no number raises [TypeError], a negative one
    [ValueError], however large, and an [int] of [2^1024 - 2^970] or more
    [OverflowError], since [float] cannot convert it; any other balance, a
    float that is not negative or an [int] from 0 to below
    [2^1024 - 2^970], is stored as [float(balance)], not below zero, with
    the stripped holder and an empty history. *)
Theorem Account_init_spec (account_holder balance : pyval) :
  let made := Account_init account_holder balance in
  (valid_holder account_holder = false -> made = Raise (ValueError msg_holder))
  /\
  (valid_holder account_holder = true ->
   (as_number balance = None -> made = Raise (TypeError msg_balance_type))
   /\
   (forall n, as_number balance = Some n ->
      (lt_zero n = true -> made = Raise (ValueError msg_balance_negative))
      /\
      (forall z, n = NInt z -> 2 ^ 1024 - 2 ^ 970 <= z ->
         made = Raise (OverflowError "int too large to convert to float"))
      /\
      (lt_zero n = false -> (forall z, n = NInt z -> z < 2 ^ 1024 - 2 ^ 970) ->
         exists s b, account_holder = PyStr s /\ py_float n = Return b /\
           made = Return (mk_Account (strip s) b []) /\
           (b <? 0)%float = false))).
Proof.
  intros made. unfold made. split.
  - intros V. unfold Account_init.
    destruct account_holder as [| | | | s |]; try reflexivity.
    cbn [valid_holder] in V. apply negb_false_iff in V.
    rewrite (strip_spaces s V). reflexivity.
  - intros V. apply valid_holder_spec in V. destruct V as (s & -> & St).
    unfold Account_init.
    destruct (strip s) as [| c t] eqn:E; [congruence|]. split.
    + intros ->. reflexivity.
    + intros n ->. split; [|split].
      * intros ->. reflexivity.
      * intros z -> Hz. cbn [lt_zero py_float].
        assert (P : 0 < 2 ^ 1024 - 2 ^ 970).
        { change (2 ^ 1024) with (2 ^ 970 * 2 ^ 54).
          assert (0 < 2 ^ 970) by (apply pow2_pos; lia). nia. }
        assert (L : (z <? 0) = false) by (apply Z.ltb_ge; lia).
        rewrite L, (proj2 (float_of_int_threshold z)) by lia. reflexivity.
      * intros L R.
        assert (P : exists b, py_float n = Return b).
        { destruct n as [z | f]; [|exists f; reflexivity].
          cbn [lt_zero] in L. apply Z.ltb_ge in L. cbn [py_float].
          apply (proj1 (float_of_int_threshold z)).
          specialize (R z eq_refl). lia. }
        destruct P as [b P]. rewrite L, P. exists s, b. rewrite E.
        split; [reflexivity|]. split; [reflexivity|]. split; [reflexivity|].
        rewrite <- (py_float_lt_zero n b P). exact L.
Qed.

Lemma Account_init_spec_witness :
  Account_init (PyStr (ustr " Ivan ")) (PyInt 100)
    = Return (mk_Account (ustr "Ivan") 100%float []) /\
  Account_init (PyStr (ustr "   ")) (PyStr (ustr "ten")) = Raise (ValueError msg_holder).
Proof.
  pose proof (Account_init_spec (PyStr (ustr " Ivan ")) (PyInt 100)) as H.
  pose proof (Account_init_spec (PyStr (ustr "   ")) (PyStr (ustr "ten"))) as K.
  cbn zeta in H, K. destruct H as [_ H]. destruct K as [K _].
  destruct (H eq_refl) as [_ H1].
  destruct (H1 (NInt 100) eq_refl) as (_ & _ & H2).
  assert (R : forall z, NInt 100 = NInt z -> z < 2 ^ 1024 - 2 ^ 970).
  { intros z Ez. inversion Ez; subst z. vm_compute. reflexivity. }
  destruct (H2 eq_refl R) as (s & b & Es & Pb & E & _).
  split; [reflexivity | exact (K eq_refl)].
Defined.

(** X4. The two constructors report different errors on the same invalid
    arguments.  With an invalid holder and a balance that is no number,
    [Account] raises [ValueError] for the holder and [CreditAccount], whose
    holder check comes last, [TypeError] for the balance.  With an [int]
    balance of [-2^1024] or less, [Account] compares the [int] and raises
    [ValueError], while [CreditAccount] converts it first and raises
    [OverflowError]. *)
Theorem constructors_differ_on_errors (h b l : pyval) (fl : float) :
  converts_to l fl -> (fl <? 0)%float = false ->
  (valid_holder h = false -> as_number b = None ->
   Account_init h b = Raise (ValueError msg_holder) /\
   CreditAccount_init h b l = Raise (TypeError msg_balance_type))
  /\
  (valid_holder h = true -> forall z, b = PyInt z -> z <= - 2 ^ 1024 ->
   Account_init h b = Raise (ValueError msg_balance_negative) /\
   CreditAccount_init h b l = Raise (OverflowError "int too large to convert to float")).
Proof.
  intros (nl & Al & Pl) Ll. split.
  - intros V Nb. split.
    + unfold Account_init. destruct h as [| | | | s |]; try reflexivity.
      cbn [valid_holder] in V. apply negb_false_iff in V.
      rewrite (strip_spaces s V). reflexivity.
    + unfold CreditAccount_init. rewrite Al, Pl, Ll, Nb. reflexivity.
  - intros V z -> Hz. assert (P : 0 < 2 ^ 1024) by (apply pow2_pos; lia). split.
    + apply valid_holder_spec in V. destruct V as (s & -> & St).
      unfold Account_init. destruct (strip s) as [| c t] eqn:E; [congruence|].
      cbn [as_number lt_zero].
      assert (L : (z <? 0) = true) by (apply Z.ltb_lt; lia).
      rewrite L. reflexivity.
    + unfold CreditAccount_init. rewrite Al, Pl, Ll. cbn [as_number py_float].
      rewrite (float_of_int_overflow z) by lia. reflexivity.
Qed.

Lemma constructors_differ_on_errors_witness :
  Account_init PyNone (PyStr (ustr "100")) = Raise (ValueError msg_holder) /\
  CreditAccount_init PyNone (PyStr (ustr "100")) (PyInt 300)
    = Raise (TypeError msg_balance_type).
Proof.
  exact (proj1 (constructors_differ_on_errors PyNone (PyStr (ustr "100")) (PyInt 300) 300%float
                  (ex_intro _ (NInt 300) (conj eq_refl eq_refl)) eq_refl)
           eq_refl eq_refl).
Defined.

(** * Further properties: amounts and single calls *)

(** ** [int] amounts *)

(** X5. The validator on an [int] or [bool] amount [z] (the conversion
    [float(z)] comes before the sign test): up to [2^53] a positive [z] is
    returned as the float of exactly that value, and up to the largest
    float as a positive finite float; [z <= 0] raises [ValueError], unless
    [|z| >= 2^1024], which raises [OverflowError] whatever the sign. *)
Theorem validate_int_amount (v : pyval) (z : Z) :
  as_number v = Some (NInt z) ->
  (0 < z <= 2 ^ 53 -> exists w, _validate_amount v = Return w /\ int_valued w z)
  /\
  (0 < z <= (2 ^ 53 - 1) * 2 ^ 971 ->
   exists w, _validate_amount v = Return w /\ is_finite w = true /\ (0 <? w)%float = true)
  /\
  (- ((2 ^ 53 - 1) * 2 ^ 971) <= z <= 0 ->
   _validate_amount v = Raise (ValueError msg_amount_positive))
  /\
  (2 ^ 1024 <= Z.abs z ->
   _validate_amount v = Raise (OverflowError "int too large to convert to float")).
Proof.
  intros A. rewrite (validate_int v z A). split; [|split; [|split]].
  - intros [P B]. destruct (float_of_int_exact z) as (w & -> & I); [lia|].
    exists w. assert (L : (0 <? z) = true) by (apply Z.ltb_lt; lia). rewrite L. auto.
  - intros [P B]. destruct (float_of_int_in_range z) as (w & E); [lia|]. rewrite E.
    exists w. assert (L : (0 <? z) = true) by (apply Z.ltb_lt; lia). rewrite L.
    split; [reflexivity|]. destruct (float_of_int_spec z w E) as [_ F].
    split; [exact F|]. pose proof (float_of_int_pos z w E P) as Q.
    apply leb_false_ltb; [apply is_finite_not_nan, F | reflexivity | exact Q].
  - intros [B P]. destruct (float_of_int_in_range z) as (w & E); [lia|]. rewrite E.
    assert (L : (0 <? z) = false) by (apply Z.ltb_ge; lia). rewrite L. reflexivity.
  - intros B. rewrite (float_of_int_overflow z B). reflexivity.
Qed.

Lemma validate_int_amount_witness :
  (exists w, _validate_amount (PyBool true) = Return w /\ int_valued w 1) /\
  _validate_amount (PyInt (- 2 ^ 1024))
    = Raise (OverflowError "int too large to convert to float").
Proof.
  split.
  - exact (proj1 (validate_int_amount (PyBool true) 1 eq_refl) ltac:(cbn; lia)).
  - exact (proj2 (proj2 (proj2 (validate_int_amount (PyInt (- 2 ^ 1024)) (- 2 ^ 1024) eq_refl)))
             ltac:(cbn; lia)).
Defined.

(** ** One call moves the balance one way *)

Local Open Scope float_scope.

Lemma not_nan_sub_l x y : is_nan (x - y) = false -> is_nan x = false.
Proof.
  intros H. destruct (is_nan x) eqn:N; [|reflexivity].
  rewrite sub_nan in H by auto. discriminate.
Qed.

Lemma not_nan_sub_r x y : is_nan (x - y) = false -> is_nan y = false.
Proof.
  intros H. destruct (is_nan y) eqn:N; [|reflexivity].
  rewrite sub_nan in H by auto. discriminate.
Qed.

Lemma leb_refl x : is_nan x = false -> (x <=? x) = true.
Proof. intros N. apply leb_intro; auto. lia. Qed.

(** Taking a non-negative amount away does not raise a balance. *)
Lemma leb_sub_pos b a :
  is_nan (b - a) = false -> (0 <=? a) = true -> (b - a <=? b) = true.
Proof.
  intros N Pa. pose proof (not_nan_sub_l _ _ N) as Nb.
  apply leb_true in Pa. rewrite FZ_0 in Pa. destruct Pa as (_ & Na & Pa). pose proof BIG_pos.
  apply leb_intro; [exact N | exact Nb |].
  destruct (float_cases a) as [Na' | sa Ea | Fa]; [congruence | |].
  - rewrite (FZ_inf a sa Ea) in Pa. destruct sa; cbn [cond_Zopp] in Pa; try lia.
    destruct (float_cases b) as [Nb' | sb Eb | Fb]; [congruence | |].
    + pose proof (sub_inf_inf b a sb false Eb Ea) as E. destruct sb; cbn [Bool.eqb] in E.
      * rewrite (FZ_inf _ _ E), (FZ_inf _ _ Eb). lia.
      * exfalso. apply is_nan_false in N. apply N. exact E.
    + pose proof (sub_fin_inf b a false Fb Ea) as E.
      rewrite (FZ_inf _ _ E). cbn [cond_Zopp negb].
      pose proof (FZ_fin_bound b Fb). lia.
  - destruct (float_cases b) as [Nb' | sb Eb | Fb]; [congruence | |].
    + pose proof (sub_inf_fin b a sb Eb Fa) as E.
      rewrite (FZ_inf _ _ E), (FZ_inf _ _ Eb). lia.
    + destruct (rounded_between _ _ (sub_rounds b a Fb Fa)) as [_ B].
      apply (B b Fb). lia.
Qed.

Lemma validated_nonneg a w :
  _validate_amount a = Return w -> is_nan w = false -> (0 <=? w) = true.
Proof.
  intros V N. destruct (validate_inv a w V) as (_ & _ & _ & P).
  apply ltb_leb. apply leb_false_ltb; [exact N | reflexivity | exact P].
Qed.

Local Close Scope float_scope.

(** X6. A call never moves the balance the wrong way: after a deposit the
    balance is at least what it was, after a withdrawal at most what it was
    (equal when the withdrawal is rejected), on both kinds of account and
    with the rounding of float arithmetic; the new balance is supposed not
    to be NaN. *)
Theorem balance_moves_one_way (c : call) :
  (forall (self self' : Account) r,
     Account_call c self = (Return r, self') -> is_nan (_balance self') = false ->
     match c with
     | Deposit _ _ => (_balance self <=? _balance self')%float = true
     | Withdraw _ _ =>
       (_balance self' <=? _balance self)%float = true /\
       (r = false -> _balance self' = _balance self)
     end)
  /\
  (forall (self self' : CreditAccount) r,
     CreditAccount_call c self = (Return r, self') ->
     is_nan (_balance (base self')) = false ->
     match c with
     | Deposit _ _ => (_balance (base self) <=? _balance (base self'))%float = true
     | Withdraw _ _ =>
       (_balance (base self') <=? _balance (base self))%float = true /\
       (r = false -> _balance (base self') = _balance (base self))
     end).
Proof.
  split; intros self self' r H N.
  - destruct (Account_call_cases c self) as [[e E] | (w & r' & s' & V & E & _ & K)];
      rewrite E in H; inversion H; subst r' s'; clear H.
    destruct K as [(B & _ & now & -> & _) | [(B & -> & _ & now & -> & _) | (B & -> & _ & now & -> & _)]].
    + rewrite B in *. apply leb_add_pos; [exact N|].
      apply (validated_nonneg _ _ V). exact (not_nan_add_r _ _ N).
    + rewrite B in *. split; [|discriminate]. apply leb_sub_pos; [exact N|].
      apply (validated_nonneg _ _ V). exact (not_nan_sub_r _ _ N).
    + rewrite B in *. split; [|reflexivity]. apply leb_refl, N.
  - destruct (CreditAccount_call_cases c self) as [[e E] | (w & r' & s' & V & E & _ & _ & K)];
      rewrite E in H; inversion H; subst r' s'; clear H. cbn zeta in K.
    destruct K as [(B & _ & now & -> & _) | [(B & -> & _ & now & -> & _) | (B & -> & _ & now & -> & _)]].
    + rewrite B in *. apply leb_add_pos; [exact N|].
      apply (validated_nonneg _ _ V). exact (not_nan_add_r _ _ N).
    + rewrite B in *. split; [|discriminate]. apply leb_sub_pos; [exact N|].
      apply (validated_nonneg _ _ V). exact (not_nan_sub_r _ _ N).
    + rewrite B in *. split; [|reflexivity]. apply leb_refl, N.
Qed.

Lemma balance_moves_one_way_witness :
  (0.1 <=? 0.30000000000000004)%float = true.
Proof.
  exact (proj1 (balance_moves_one_way (Deposit (PyFloat 0.2) a_time))
           (mk_Account (ustr "a") 0.1%float []) _ true eq_refl eq_refl).
Defined.

(** A deposit can leave the balance where it was: the amount is absorbed
    by the rounding. *)
Lemma deposit_can_be_absorbed :
  let self := mk_Account (ustr "a") 1e16%float [] in
  _balance (snd (Account_deposit (PyFloat 0.5) a_time self)) = _balance self.
Proof. reflexivity. Qed.

(** ** Withdrawals and the available credit *)

Local Open Scope float_scope.

(** An amount below the rounded sum [b + l] is below the exact sum, and
    the rounded difference respects the limit. *)
Lemma below_available b l w :
  is_finite b = true -> is_finite l = true -> is_finite w = true ->
  (w <? b + l) = true -> (b - w <? - l) = false.
Proof.
  intros Fb Fl Fw H. apply ltb_true in H. destruct H as (_ & _ & H).
  destruct (rounded_between _ _ (add_rounds b l Fb Fl)) as [_ Ba].
  destruct (rounded_between _ _ (sub_rounds b w Fb Fw)) as [Ns Bs].
  assert (E : (FZ w < FZ b + FZ l)%Z).
  { destruct (Z_lt_le_dec (FZ w) (FZ b + FZ l)) as [|G]; [assumption|].
    pose proof (proj2 (Ba w Fw) G). lia. }
  pose proof (opp_finite l Fl) as Fo.
  rewrite ltb_FZ by (try exact Ns; apply is_finite_not_nan, Fo).
  apply Z.ltb_ge. apply (Bs (- l) Fo). rewrite FZ_opp. lia.
Qed.

Local Close Scope float_scope.

(** X7. On a credit account with finite balance and limit, a withdrawal
    of a finite amount that is strictly below what [get_available_credit]
    returns succeeds; hence a rejected withdrawal asked for at least the
    available credit. *)
Theorem withdraw_below_available_credit
    (a : pyval) (w : float) (now : datetime) (self : CreditAccount) (credit : float) :
  _validate_amount a = Return w -> is_finite w = true ->
  is_finite (_balance (base self)) = true -> is_finite (credit_limit self) = true ->
  fst (get_available_credit self) = Return credit ->
  ((w <? credit)%float = true -> fst (CreditAccount_withdraw a now self) = Return true)
  /\
  (fst (CreditAccount_withdraw a now self) = Return false -> (credit <=? w)%float = true).
Proof.
  intros V Fw Fb Fl G.
  assert (Ec : credit = (_balance (base self) + credit_limit self)%float).
  { cbn in G. inversion G. reflexivity. }
  subst credit.
  assert (K : (w <? _balance (base self) + credit_limit self)%float = true ->
              fst (CreditAccount_withdraw a now self) = Return true).
  { intros L. rewrite (CreditAccount_withdraw_eq a w now self V). cbn zeta.
    rewrite (below_available _ _ _ Fb Fl Fw L). reflexivity. }
  split; [exact K|]. intros R.
  destruct (rounded_between _ _ (add_rounds _ _ Fb Fl)) as [Na _].
  apply ltb_false_leb; [apply is_finite_not_nan, Fw | exact Na |].
  destruct (w <? _balance (base self) + credit_limit self)%float eqn:L; [|reflexivity].
  rewrite (K eq_refl) in R. discriminate R.
Qed.

Lemma withdraw_below_available_credit_witness :
  let self := mk_CreditAccount (mk_Account (ustr "Petr") (-100)%float []) 300%float in
  fst (get_available_credit self) = Return 200%float /\
  fst (CreditAccount_withdraw (PyInt 150) a_time self) = Return true.
Proof.
  split; [reflexivity|].
  exact (proj1 (withdraw_below_available_credit (PyInt 150) 150%float a_time
                  (mk_CreditAccount (mk_Account (ustr "Petr") (-100)%float []) 300%float)
                  200%float eq_refl eq_refl eq_refl eq_refl eq_refl) eq_refl).
Defined.

(** The bound is strict: a withdrawal of exactly the available credit can
    be rejected, since the available credit is a rounded sum. *)
Lemma withdraw_of_available_credit_can_fail :
  let self := mk_CreditAccount (mk_Account (ustr "a") 1e16%float []) 3%float in
  fst (get_available_credit self) = Return 10000000000000004%float /\
  fst (CreditAccount_withdraw (PyFloat 10000000000000004) a_time self) = Return false.
Proof. split; reflexivity. Qed.

(** ** The flag of a withdrawal *)

Local Open Scope float_scope.

Lemma sub_stays_negative b w :
  (b <? 0) = true -> (w <=? 0) = false -> is_nan w = false -> (b - w <? 0) = true.
Proof.
  intros Hb Hw Nw. rewrite (sub_ltb_zero b w 0) by reflexivity.
  apply ltb_true in Hb. destruct Hb as (Nb & _ & Lb). rewrite FZ_0 in Lb.
  rewrite leb_FZ in Hw by (auto; reflexivity). rewrite FZ_0 in Hw. apply Z.leb_gt in Hw.
  rewrite ltb_FZ by assumption. apply Z.ltb_lt. lia.
Qed.

Lemma withdraw_flag b w :
  (w <=? 0) = false -> is_nan w = false -> (b <? 0) || (b - w <? 0) = (b - w <? 0).
Proof.
  intros Hw Nw. destruct (b <? 0) eqn:Hb; [|reflexivity].
  rewrite (sub_stays_negative b w Hb Hw Nw). reflexivity.
Qed.

Local Close Scope float_scope.

(** ** Balances and limits that are not numbers *)

Local Open Scope float_scope.

Lemma ltb_neg_infinity x l :
  Prim2SF l = S754_infinity false -> (x <? - l) = false.
Proof.
  intros El. destruct (is_nan x) eqn:N; [apply ltb_nan; auto|].
  assert (Nl : is_nan (- l) = false) by (rewrite is_nan_opp; eapply inf_not_nan, El).
  rewrite ltb_FZ by assumption. rewrite FZ_opp, (FZ_inf l false El). cbn [cond_Zopp].
  apply Z.ltb_ge. pose proof BIG_pos.
  destruct (float_cases x) as [Nx | sx Ex | Fx]; [congruence | |].
  - rewrite (FZ_inf x sx Ex). destruct sx; cbn [cond_Zopp]; lia.
  - pose proof (FZ_fin_bound x Fx). lia.
Qed.

Local Close Scope float_scope.

(** X8. Once the balance is NaN it stays NaN, and no withdrawal is
    rejected any more: every comparison with NaN is false, so a call with an
    accepted amount returns [True], on both kinds of account. *)
Theorem nan_balance_is_absorbing (c : call) :
  (forall self : Account, is_nan (_balance self) = true ->
     is_nan (_balance (snd (Account_call c self))) = true /\
     (forall r, fst (Account_call c self) = Return r -> r = true))
  /\
  (forall self : CreditAccount, is_nan (_balance (base self)) = true ->
     is_nan (_balance (base (snd (CreditAccount_call c self)))) = true /\
     (forall r, fst (CreditAccount_call c self) = Return r -> r = true)).
Proof.
  split; intros self N.
  - destruct (Account_call_cases c self) as [[e E] | (w & r' & s' & V & E & _ & K)];
      rewrite E; cbn [fst snd]; [split; [exact N | discriminate]|].
    destruct K as [(B & -> & _) | [(B & -> & _) | (B & _ & L & _)]].
    + rewrite B. split; [apply add_nan; auto | congruence].
    + rewrite B. split; [apply sub_nan; auto | congruence].
    + rewrite ltb_nan in L by auto. discriminate L.
  - destruct (CreditAccount_call_cases c self) as [[e E] | (w & r' & s' & V & E & _ & _ & K)];
      rewrite E; cbn [fst snd]; [split; [exact N | discriminate]|]. cbn zeta in K.
    destruct K as [(B & -> & _) | [(B & -> & _) | (B & _ & L & _)]].
    + rewrite B. split; [apply add_nan; auto | congruence].
    + rewrite B. split; [apply sub_nan; auto | congruence].
    + rewrite ltb_nan in L by (left; apply sub_nan; auto). discriminate L.
Qed.

Lemma nan_balance_is_absorbing_witness :
  let self := mk_Account (ustr "a") nan [] in
  is_nan (_balance (snd (Account_call (Withdraw (PyInt 1000000) a_time) self))) = true.
Proof.
  exact (proj1 (proj1 (nan_balance_is_absorbing (Withdraw (PyInt 1000000) a_time))
                  (mk_Account (ustr "a") nan []) eq_refl)).
Defined.

(** X9. A credit account opened with the limit [+inf], which the
    constructor accepts, has no limit: after any run of calls, no withdrawal
    of an accepted amount is rejected. *)
Theorem infinite_limit_never_rejects (h b : pyval) (acc : CreditAccount) (cs : list call)
    (a : pyval) (w : float) (now : datetime) :
  CreditAccount_init h b (PyFloat infinity) = Return acc ->
  _validate_amount a = Return w ->
  let self := final acc (run CreditAccount_call cs acc) in
  fst (CreditAccount_withdraw a now self) = Return true.
Proof.
  intros H V self.
  assert (El : credit_limit self = infinity).
  { apply (final_invariant (fun s => credit_limit s = infinity) CreditAccount_call).
    - intros c s E. rewrite CreditAccount_step_limit. exact E.
    - destruct (CreditAccount_init_inv _ _ _ _ H) as (s & nb & nl & _ & _ & Al & Pl & _).
      cbn [as_number] in Al. inversion Al; subst nl. cbn [py_float] in Pl.
      inversion Pl. reflexivity. }
  rewrite (CreditAccount_withdraw_eq a w now self V). cbn zeta.
  rewrite (ltb_neg_infinity _ (credit_limit self)); [reflexivity|].
  rewrite El. reflexivity.
Qed.

Lemma infinite_limit_never_rejects_witness :
  fst (CreditAccount_withdraw (PyFloat 1e300) a_time
         (mk_CreditAccount (mk_Account (ustr "a") 0%float []) infinity)) = Return true.
Proof.
  exact (infinite_limit_never_rejects (PyStr (ustr "a")) (PyInt 0)
           (mk_CreditAccount (mk_Account (ustr "a") 0%float []) infinity) []
           (PyFloat 1e300) 1e300%float a_time eq_refl eq_refl).
Defined.

(** * Further properties: the history of a run *)

Lemma appended_app before after new :
  operations_history after = operations_history before ++ new ->
  appended before after = new.
Proof.
  intros E. unfold appended. rewrite E, skipn_app, skipn_all, Nat.sub_diag. reflexivity.
Qed.

(** What a run of calls leaves in the history, for any kind of account
    whose calls append their record one at a time. *)
Section Trace.

Context {S : Type}.
Variable step : call -> M S bool.
Variable account : S -> Account.
Variable good : Operation -> Prop.

Hypothesis step_record : forall c s,
  (exists e, step c s = (Raise e, s)) \/
  (exists r s' op, step c s = (Return r, s') /\
     operations_history (account s') = operations_history (account s) ++ [op] /\
     op_type op = call_kind c /\ timestamp op = call_time c /\
     validated c = Some (amount op) /\ is_success op = r /\
     balance_after op = _balance (account s') /\
     _balance (account s') = replay (_balance (account s)) [op] /\
     good op).

Lemma run_records cs : forall s,
  let trace := run step cs s in
  exists new,
    operations_history (account (final s trace)) = operations_history (account s) ++ new /\
    List.map op_type new = List.map call_kind (answered cs trace) /\
    List.map timestamp new = List.map call_time (answered cs trace) /\
    List.map (fun op => Some (amount op)) new = List.map validated (answered cs trace) /\
    List.map is_success new = returned trace /\
    _balance (account (final s trace))
      = last (List.map balance_after new) (_balance (account s)) /\
    (forall p op q, new = p ++ op :: q ->
       balance_after op = replay (_balance (account s)) (p ++ [op])) /\
    Forall good new.
Proof.
  induction cs as [| c cs IH]; intros s; cbn zeta.
  - exists []. cbn. rewrite app_nil_r. repeat split; auto.
    intros p op q E. destruct p; discriminate E.
  - cbn [run]. rewrite final_cons.
    destruct (step_record c s) as [[e E] | (r & s' & op & E & Hh & Hk & Ht & Hv & Hs & Ha & Hb & Hg)];
      rewrite E; cbn [snd fst answered returned flat_map app].
    + exact (IH s).
    + destruct (IH s') as (new & Ih & Ik & It & Iv & Is & Ib & Ic & Ig).
      exists (op :: new). cbn [List.map].
      split; [rewrite Ih, Hh, <- app_assoc; reflexivity|].
      split; [rewrite Hk, Ik; reflexivity|].
      split; [rewrite Ht, It; reflexivity|].
      split; [rewrite Hv, Iv; reflexivity|].
      split; [rewrite Hs; unfold returned in Is; rewrite Is; reflexivity|].
      split; [rewrite last_cons, Ha; exact Ib|].
      split; [|constructor; assumption].
      intros p op' q Eq. destruct p as [| x p]; cbn [app] in Eq; inversion Eq; subst.
      * cbn [app]. rewrite Ha. exact Hb.
      * rewrite (Ic p op' q eq_refl).
        change ((x :: p) ++ [op']) with ([x] ++ (p ++ [op'])).
        rewrite (replay_app (_balance (account s)) [x] (p ++ [op'])), <- Hb. reflexivity.
Qed.

End Trace.

(** ** One call, as the record it leaves *)

Ltac record_fields V :=
  eexists _, _, _; (split; [reflexivity|]);
  cbn [operations_history base _balance call_kind call_time record
       op_type timestamp amount balance_after];
  (split; [reflexivity|]); (split; [reflexivity|]); (split; [reflexivity|]);
  (split; [unfold validated; cbn [call_amount]; rewrite V; reflexivity|]);
  (split; [reflexivity|]); (split; [reflexivity|]); (split; [reflexivity|]).

Lemma Account_step_record c s :
  (exists e, Account_call c s = (Raise e, s)) \/
  (exists r s' op, Account_call c s = (Return r, s') /\
     operations_history s' = operations_history s ++ [op] /\
     op_type op = call_kind c /\ timestamp op = call_time c /\
     validated c = Some (amount op) /\ is_success op = r /\
     balance_after op = _balance s' /\
     _balance s' = replay (_balance s) [op] /\
     well_formed false op = true).
Proof.
  destruct c as [a now | a now]; cbn [Account_call];
    destruct (_validate_amount a) as [w | e] eqn:V.
  - right. destruct (validate_inv _ _ V) as (_ & _ & _ & P).
    rewrite (Account_deposit_eq a w now s V). record_fields V.
    unfold well_formed. cbn [amount]. rewrite P. reflexivity.
  - left. exists e. unfold Account_deposit, bind, lift. rewrite V. reflexivity.
  - right. destruct (validate_inv _ _ V) as (_ & _ & _ & P).
    rewrite (Account_withdraw_eq a w now s V).
    destruct (_balance s <? w)%float; record_fields V;
      unfold well_formed; cbn [amount]; rewrite P; reflexivity.
  - left. exists e. unfold Account_withdraw, bind, lift. rewrite V. reflexivity.
Qed.

Lemma CreditAccount_step_record c s :
  (exists e, CreditAccount_call c s = (Raise e, s)) \/
  (exists r s' op, CreditAccount_call c s = (Return r, s') /\
     operations_history (base s') = operations_history (base s) ++ [op] /\
     op_type op = call_kind c /\ timestamp op = call_time c /\
     validated c = Some (amount op) /\ is_success op = r /\
     balance_after op = _balance (base s') /\
     _balance (base s') = replay (_balance (base s)) [op] /\
     (well_formed true op = true /\ flag_tells_sign op)).
Proof.
  destruct c as [a now | a now]; cbn [CreditAccount_call];
    destruct (_validate_amount a) as [w | e] eqn:V.
  - right. destruct (validate_inv _ _ V) as (_ & _ & _ & P).
    rewrite (CreditAccount_deposit_eq a w now s V). record_fields V.
    split; [unfold well_formed; cbn [amount]; rewrite P; reflexivity|].
    intros K. discriminate K.
  - left. exists e. unfold CreditAccount_deposit, bind, lift. rewrite V. reflexivity.
  - right. destruct (validate_inv _ _ V) as (_ & _ & _ & P).
    rewrite (CreditAccount_withdraw_eq a w now s V). cbn zeta.
    destruct (_balance (base s) - w <? - credit_limit s)%float; record_fields V;
      (split; [unfold well_formed; cbn [amount]; rewrite P; reflexivity|]);
      unfold flag_tells_sign; cbn [amount balance_after credit_used]; intros _ N.
    + reflexivity.
    + rewrite (withdraw_flag _ _ P N). reflexivity.
  - left. exists e. unfold CreditAccount_withdraw, bind, lift. rewrite V. reflexivity.
Qed.

(** ** One record for each call that returned *)

(** X10. A run of calls appends to the history exactly one record for each
    call that returned, in the order of the calls, and none for a call that
    raised: the record has the kind of its call, the time of its call, the
    amount the validator returned, and the status success exactly when the
    call returned [True]. *)
Theorem one_record_per_answered_call (cs : list call) :
  (forall acc : Account,
     let trace := run Account_call cs acc in
     let new := appended acc (final acc trace) in
     operations_history (final acc trace) = operations_history acc ++ new /\
     List.map op_type new = List.map call_kind (answered cs trace) /\
     List.map timestamp new = List.map call_time (answered cs trace) /\
     List.map (fun op => Some (amount op)) new = List.map validated (answered cs trace) /\
     List.map is_success new = returned trace)
  /\
  (forall acc : CreditAccount,
     let trace := run CreditAccount_call cs acc in
     let new := appended (base acc) (base (final acc trace)) in
     operations_history (base (final acc trace)) = operations_history (base acc) ++ new /\
     List.map op_type new = List.map call_kind (answered cs trace) /\
     List.map timestamp new = List.map call_time (answered cs trace) /\
     List.map (fun op => Some (amount op)) new = List.map validated (answered cs trace) /\
     List.map is_success new = returned trace).
Proof.
  split; intros acc; cbn zeta.
  - destruct (run_records Account_call (fun s => s) _ Account_step_record cs acc)
      as (new & Eh & Ek & Et & Ev & Es & _).
    rewrite (appended_app _ _ _ Eh). auto.
  - destruct (run_records CreditAccount_call base _ CreditAccount_step_record cs acc)
      as (new & Eh & Ek & Et & Ev & Es & _).
    rewrite (appended_app _ _ _ Eh). auto.
Qed.

(** ** The balance and the last record *)

(** X11. After any run of calls, [get_balance] returns the
    [balance_after] of the last record the run appended, or the balance the
    run started with when no call returned; reading the balance changes
    nothing. *)
Theorem get_balance_is_last_record (cs : list call) :
  (forall acc : Account,
     let acc' := final acc (run Account_call cs acc) in
     get_balance acc'
     = (Return (last (List.map balance_after (appended acc acc')) (_balance acc)), acc'))
  /\
  (forall acc : CreditAccount,
     let acc' := final acc (run CreditAccount_call cs acc) in
     inherited get_balance acc'
     = (Return (last (List.map balance_after (appended (base acc) (base acc')))
                  (_balance (base acc))), acc')).
Proof.
  split; intros acc; cbn zeta.
  - destruct (run_records Account_call (fun s => s) _ Account_step_record cs acc)
      as (new & Eh & _ & _ & _ & _ & Eb & _).
    rewrite (appended_app _ _ _ Eh), <- Eb. reflexivity.
  - destruct (run_records CreditAccount_call base _ CreditAccount_step_record cs acc)
      as (new & Eh & _ & _ & _ & _ & Eb & _).
    rewrite (appended_app _ _ _ Eh), <- Eb.
    destruct (final acc (run CreditAccount_call cs acc)) as [b l]. reflexivity.
Qed.

(** ** The history can be audited *)

(** X12. Every record a run appends carries, as [balance_after], the
    balance obtained by applying the successful records up to and including
    itself, in order, to the balance the run started with. *)
Theorem records_replay_to_their_balance (cs : list call) :
  (forall (acc : Account) p op q,
     appended acc (final acc (run Account_call cs acc)) = p ++ op :: q ->
     balance_after op = replay (_balance acc) (p ++ [op]))
  /\
  (forall (acc : CreditAccount) p op q,
     appended (base acc) (base (final acc (run CreditAccount_call cs acc))) = p ++ op :: q ->
     balance_after op = replay (_balance (base acc)) (p ++ [op])).
Proof.
  split; intros acc p op q.
  - destruct (run_records Account_call (fun s => s) _ Account_step_record cs acc)
      as (new & Eh & _ & _ & _ & _ & _ & Ec & _).
    rewrite (appended_app _ _ _ Eh). apply Ec.
  - destruct (run_records CreditAccount_call base _ CreditAccount_step_record cs acc)
      as (new & Eh & _ & _ & _ & _ & _ & Ec & _).
    rewrite (appended_app _ _ _ Eh). apply Ec.
Qed.

Lemma records_replay_to_their_balance_witness :
  let acc := mk_Account (ustr "Ivan") 100%float [] in
  let cs := [Deposit (PyInt 50) a_time; Withdraw (PyInt 500) a_time;
             Withdraw (PyInt 120) a_time] in
  replay 100%float
    [record "deposit" 50%float a_time 150%float "success" None;
     record "withdraw" 500%float a_time 150%float "fail" None;
     record "withdraw" 120%float a_time 30%float "success" None] = 30%float.
Proof.
  cbn zeta. symmetry.
  exact (proj1 (records_replay_to_their_balance
                  [Deposit (PyInt 50) a_time; Withdraw (PyInt 500) a_time;
                   Withdraw (PyInt 120) a_time])
           (mk_Account (ustr "Ivan") 100%float [])
           [record "deposit" 50%float a_time 150%float "success" None;
            record "withdraw" 500%float a_time 150%float "fail" None]
           (record "withdraw" 120%float a_time 30%float "success" None)
           [] eq_refl).
Defined.

(** ** The shape of the records *)

(** X13. Every record a run appends is well formed: a deposit record
    always has status success (a deposit is never recorded as failed), a
    withdrawal record has status success or fail, the amount is one the
    validator accepted, [credit_used] is [None] on a standard account and a
    [bool] on a credit account, [False] on every deposit. *)
Theorem records_are_well_formed (cs : list call) :
  (forall acc : Account,
     forallb (well_formed false) (appended acc (final acc (run Account_call cs acc))) = true)
  /\
  (forall acc : CreditAccount,
     forallb (well_formed true)
       (appended (base acc) (base (final acc (run CreditAccount_call cs acc)))) = true).
Proof.
  split; intros acc.
  - destruct (run_records Account_call (fun s => s) _ Account_step_record cs acc)
      as (new & Eh & _ & _ & _ & _ & _ & _ & Eg).
    rewrite (appended_app _ _ _ Eh). apply forallb_forall.
    intros op Hop. exact (proj1 (Forall_forall _ _) Eg op Hop).
  - destruct (run_records CreditAccount_call base _ CreditAccount_step_record cs acc)
      as (new & Eh & _ & _ & _ & _ & _ & _ & Eg).
    rewrite (appended_app _ _ _ Eh). apply forallb_forall.
    intros op Hop. exact (proj1 (proj1 (Forall_forall _ _) Eg op Hop)).
Qed.

(** X14. On a credit account, the [credit_used] field of every withdrawal
    record, successful or failed, says whether the balance the record
    reports is negative (the amount is supposed not to be NaN); on a
    successful withdrawal the test of the balance before the call adds
    nothing. *)
Theorem credit_flag_tells_sign (cs : list call) (acc : CreditAccount) :
  Forall flag_tells_sign
    (appended (base acc) (base (final acc (run CreditAccount_call cs acc)))).
Proof.
  destruct (run_records CreditAccount_call base _ CreditAccount_step_record cs acc)
    as (new & Eh & _ & _ & _ & _ & _ & _ & Eg).
  rewrite (appended_app _ _ _ Eh).
  apply Forall_forall. intros op Hop. exact (proj2 (proj1 (Forall_forall _ _) Eg op Hop)).
Qed.

Lemma credit_flag_tells_sign_witness :
  flag_tells_sign (record "withdraw" 100%float a_time (-100)%float "success" (Some true)) /\
  flag_tells_sign (record "withdraw" 250%float a_time (-100)%float "fail" (Some true)).
Proof.
  pose proof (credit_flag_tells_sign
                [Withdraw (PyInt 100) a_time; Withdraw (PyInt 250) a_time]
                (mk_CreditAccount (mk_Account (ustr "Petr") 0%float []) 300%float)) as H.
  inversion H as [| ? ? H1 H2]; subst. inversion H2 as [| ? ? H3 _]; subst.
  split; assumption.
Defined.

(** With a NaN amount the flag and the sign part: the withdrawal is
    accepted, the balance becomes NaN, which is not negative, and the flag
    is [True]. *)
Lemma nan_withdrawal_flag :
  let acc := mk_CreditAccount (mk_Account (ustr "a") (-1)%float []) 5%float in
  operations_history (base (snd (CreditAccount_withdraw (PyFloat nan) a_time acc)))
  = [record "withdraw" nan a_time nan "success" (Some true)].
Proof. reflexivity. Qed.

(** ** What no call changes *)

(** X15. No call changes the holder of an account or the credit limit of
    a credit account: after any run they are what the run started with. *)
Theorem holder_and_limit_never_change (cs : list call) :
  (forall acc : Account, holder (final acc (run Account_call cs acc)) = holder acc)
  /\
  (forall acc : CreditAccount,
     let acc' := final acc (run CreditAccount_call cs acc) in
     holder (base acc') = holder (base acc) /\ credit_limit acc' = credit_limit acc).
Proof.
  split; intros acc.
  - apply (final_invariant (fun s => holder s = holder acc) Account_call); [|reflexivity].
    intros c s E. rewrite Account_step_holder. exact E.
  - apply (final_invariant
             (fun s => holder (base s) = holder (base acc) /\ credit_limit s = credit_limit acc)
             CreditAccount_call); [|split; reflexivity].
    intros c s [E1 E2]. rewrite CreditAccount_step_holder, CreditAccount_step_limit. auto.
Qed.

(** * Further properties: accounts in whole numbers

    The balance of an account that is opened and used with [int] amounts
    is exact as long as the sums stay within [2^53]: no operation rounds,
    and the ledger equation of the specification holds as it is written. *)

Lemma deposits_nonneg cs : 0 <= deposits cs.
Proof.
  induction cs as [| c cs IH]; cbn [deposits fold_right]; [lia|].
  fold (deposits cs). destruct c as [[] t | a t]; lia.
Qed.

Lemma deposits_cons c cs : deposits (c :: cs) = deposits [c] + deposits cs.
Proof.
  cbn [deposits fold_right]. fold (deposits cs). destruct c as [[] t | a t]; lia.
Qed.

Lemma total_app kind h op :
  total kind (h ++ [op])
  = if is_success op && is_kind kind op then (total kind h + amount op)%float
    else total kind h.
Proof. unfold total. rewrite fold_left_app. reflexivity. Qed.

Lemma validate_small_int z :
  0 < z <= 2 ^ 53 -> exists w, _validate_amount (PyInt z) = Return w /\ int_valued w z.
Proof.
  intros [P B]. rewrite (validate_int (PyInt z) z eq_refl).
  destruct (float_of_int_exact z) as (w & -> & I); [lia|].
  exists w. assert (L : (0 <? z) = true) by (apply Z.ltb_lt; lia). rewrite L. auto.
Qed.

Lemma validate_nonpos_int z : z <= 0 -> exists e, _validate_amount (PyInt z) = Raise e.
Proof.
  intros P. rewrite (validate_int (PyInt z) z eq_refl).
  destruct (float_of_int z) as [w | e]; [|eauto].
  assert (L : (0 <? z) = false) by (apply Z.ltb_ge; lia). rewrite L. eauto.
Qed.

Lemma int_call_amount bound c :
  int_call bound c = true -> exists z, call_amount c = PyInt z /\ z <= bound.
Proof.
  unfold int_call, int_amount. destruct (call_amount c); try discriminate.
  intros H. apply Z.leb_le in H. eauto.
Qed.

(** ** A standard account *)

(** One call on a standard account that holds an integer. *)
Lemma Account_int_call c s b D W :
  int_ledger s b D W -> 0 <= b -> 0 <= D -> 0 <= W -> D <= b + W ->
  int_call (2 ^ 53) c = true ->
  b + W + deposits [c] <= 2 ^ 53 ->
  exists D' W',
    int_ledger (snd (Account_call c s)) (int_step c b) D' W' /\
    0 <= int_step c b /\ 0 <= D' /\ 0 <= W' /\
    int_step c b - b = (D' - D) - (W' - W) /\
    int_step c b + W' = b + W + deposits [c].
Proof.
  intros (Ib & Id & Iw) Pb Pd Pw Hd Hc Hcap.
  destruct (int_call_amount _ _ Hc) as (z & Ea & Bz).
  destruct (Z_le_gt_dec z 0) as [Zn | Zp].
  - destruct (validate_nonpos_int z Zn) as [e V].
    assert (E : Account_call c s = (Raise e, s)).
    { apply validate_raise_Account. intros a now [-> | ->]; cbn [call_amount] in Ea;
        rewrite Ea; exact V. }
    assert (L : (0 <? z) = false) by (apply Z.ltb_ge; lia).
    rewrite E. cbn [snd]. exists D, W.
    destruct c as [a now | a now]; cbn [call_amount] in Ea; subst a;
      cbn [int_step deposits fold_right]; rewrite L; cbn [andb];
      (split; [exact (conj Ib (conj Id Iw))|]); lia.
  - destruct (validate_small_int z) as (w & V & Iz); [lia|].
    assert (L : (0 <? z) = true) by (apply Z.ltb_lt; lia).
    destruct c as [a now | a now]; cbn [call_amount] in Ea; subst a;
      cbn [int_step deposits fold_right] in *; rewrite L; cbn [Account_call andb].
    + rewrite (Account_deposit_eq _ w now s V). cbn [snd].
      exists (D + z), W. unfold int_ledger.
      cbn [_balance operations_history]. rewrite !total_app.
      change (is_success _ && is_kind "deposit" _) with true.
      change (is_success _ && is_kind "withdraw" _) with false.
      cbn [amount].
      split; [split; [|split]|].
      * apply int_valued_add; auto. lia.
      * apply int_valued_add; auto. lia.
      * exact Iw.
      * lia.
    + rewrite (Account_withdraw_eq _ w now s V).
      rewrite (int_valued_ltb _ _ _ _ Ib Iz).
      destruct (Z.ltb_spec b z) as [Lt | Ge].
      * assert (L' : (z <=? b) = false) by (apply Z.leb_gt; lia). rewrite L'. cbn [snd].
        exists D, W. unfold int_ledger.
        cbn [_balance operations_history]. rewrite !total_app.
        change (is_success _ && is_kind "deposit" _) with false.
        change (is_success _ && is_kind "withdraw" _) with false.
        split; [exact (conj Ib (conj Id Iw))|]. lia.
      * assert (L' : (z <=? b) = true) by (apply Z.leb_le; lia). rewrite L'. cbn [snd].
        exists D, (W + z). unfold int_ledger.
        cbn [_balance operations_history]. rewrite !total_app.
        change (is_success _ && is_kind "deposit" _) with false.
        change (is_success _ && is_kind "withdraw" _) with true.
        cbn [amount].
        split; [split; [|split]|].
        -- apply int_valued_sub; auto. lia.
        -- exact Id.
        -- apply int_valued_add; auto. lia.
        -- lia.
Qed.

Lemma Account_int_run cs : forall s b D W,
  int_ledger s b D W -> 0 <= b -> 0 <= D -> 0 <= W -> D <= b + W ->
  forallb (int_call (2 ^ 53)) cs = true ->
  b + W + deposits cs <= 2 ^ 53 ->
  let b' := fold_left (fun b c => int_step c b) cs b in
  exists D' W',
    int_ledger (final s (run Account_call cs s)) b' D' W' /\
    0 <= b' /\ 0 <= D' /\ 0 <= W' /\
    b' - b = (D' - D) - (W' - W) /\ b' + W' <= 2 ^ 53.
Proof.
  induction cs as [| c cs IH]; intros s b D W I Pb Pd Pw Hd Hc Hcap; cbn zeta.
  - exists D, W. cbn [fold_left run]. cbn [deposits fold_right] in Hcap.
    split; [exact I|]. lia.
  - cbn [forallb] in Hc. apply andb_true_iff in Hc. destruct Hc as [Hc Hcs].
    pose proof (deposits_nonneg cs) as Pcs. rewrite deposits_cons in Hcap.
    destruct (Account_int_call c s b D W I Pb Pd Pw Hd Hc ltac:(lia))
      as (D1 & W1 & I1 & Pb1 & Pd1 & Pw1 & E1 & C1).
    destruct (IH (snd (Account_call c s)) (int_step c b) D1 W1 I1 Pb1 Pd1 Pw1
                ltac:(lia) Hcs ltac:(lia))
      as (D2 & W2 & I2 & Pb2 & Pd2 & Pw2 & E2 & C2).
    cbn [run fold_left]. rewrite final_cons.
    exists D2, W2. split; [exact I2|]. lia.
Qed.

Lemma conserved_int initial final h B b D W :
  int_valued initial B -> int_valued final b ->
  int_valued (total "deposit" h) D -> int_valued (total "withdraw" h) W ->
  b - B = D - W -> Z.abs (b - B) <= 2 ^ 53 ->
  conserved initial final h = true.
Proof.
  intros I0 I1 Id Iw E Bd. unfold conserved.
  rewrite (int_valued_eqb _ _ (b - B) (D - W)).
  - apply Z.eqb_eq, E.
  - apply int_valued_sub; auto.
  - apply int_valued_sub; auto. lia.
Qed.

(** X16. A standard account opened with an [int] balance [B] and used with
    [int] amounts of at most [2^53] is exact, as long as [B] plus the
    deposits stays within [2^53]: after any such run the balance is the
    integer an account on whole numbers would hold, and the equation
    [final - initial = deposits - withdrawals] of the successful records
    holds in the program's own float arithmetic. *)
Theorem integer_account_is_exact (h : pyval) (B : Z) (acc : Account) (cs : list call) :
  Account_init h (PyInt B) = Return acc ->
  forallb (int_call (2 ^ 53)) cs = true ->
  B + deposits cs <= 2 ^ 53 ->
  let acc' := final acc (run Account_call cs acc) in
  int_valued (_balance acc') (fold_left (fun b c => int_step c b) cs B) /\
  conserved (_balance acc) (_balance acc') (operations_history acc') = true.
Proof.
  intros H Hc Hcap acc'.
  destruct (Account_init_inv _ _ _ H) as (s & n & _ & _ & An & Ln & Pn & Ea).
  cbn [as_number] in An. inversion An; subst n. cbn [lt_zero py_float] in Ln, Pn.
  apply Z.ltb_ge in Ln. pose proof (deposits_nonneg cs) as Pcs.
  destruct (float_of_int_exact B) as (f & Ef & IB); [lia|].
  rewrite Ef in Pn. inversion Pn; subst f.
  assert (I : int_ledger acc B 0 0).
  { rewrite Ea. unfold int_ledger. cbn [_balance operations_history].
    split; [exact IB|]. split; exact int_valued_zero. }
  destruct (Account_int_run cs acc B 0 0 I Ln ltac:(lia) ltac:(lia) ltac:(lia) Hc ltac:(lia))
    as (D' & W' & (Ib & Id & Iw) & Pb & Pd & Pw & E & C).
  fold acc' in Ib, Id, Iw. split; [exact Ib|].
  apply (conserved_int _ _ _ B _ D' W' IB Ib Id Iw); lia.
Qed.

Lemma integer_account_is_exact_witness :
  let acc := mk_Account (ustr "Ivan") 100%float [] in
  let cs := [Deposit (PyInt 50) a_time; Withdraw (PyInt 500) a_time;
             Withdraw (PyInt 120) a_time] in
  let acc' := final acc (run Account_call cs acc) in
  int_valued (_balance acc') 30 /\
  conserved 100%float (_balance acc') (operations_history acc') = true.
Proof.
  cbn zeta.
  exact (integer_account_is_exact (PyStr (ustr "Ivan")) 100
           (mk_Account (ustr "Ivan") 100%float [])
           [Deposit (PyInt 50) a_time; Withdraw (PyInt 500) a_time;
            Withdraw (PyInt 120) a_time]
           eq_refl eq_refl ltac:(cbn; lia)).
Defined.

(** ** A credit account *)

(** One call on a credit account that holds an integer. *)
Lemma CreditAccount_int_call c s b D W L :
  int_ledger (base s) b D W -> int_valued (credit_limit s) L ->
  0 <= L <= 2 ^ 53 -> - L <= b -> 0 <= D -> 0 <= W -> D <= b + W + L ->
  int_call (2 ^ 53 - L) c = true ->
  b + W + L + deposits [c] <= 2 ^ 53 ->
  exists D' W',
    int_ledger (base (snd (CreditAccount_call c s))) (int_credit_step L c b) D' W' /\
    credit_limit (snd (CreditAccount_call c s)) = credit_limit s /\
    - L <= int_credit_step L c b /\ 0 <= D' /\ 0 <= W' /\
    int_credit_step L c b - b = (D' - D) - (W' - W) /\
    int_credit_step L c b + W' = b + W + deposits [c].
Proof.
  intros (Ib & Id & Iw) Il PL Pb Pd Pw Hd Hc Hcap.
  destruct (int_call_amount _ _ Hc) as (z & Ea & Bz).
  destruct (Z_le_gt_dec z 0) as [Zn | Zp].
  - destruct (validate_nonpos_int z Zn) as [e V].
    assert (E : CreditAccount_call c s = (Raise e, s)).
    { apply validate_raise_CreditAccount. intros a now [-> | ->]; cbn [call_amount] in Ea;
        rewrite Ea; exact V. }
    assert (Lz : (0 <? z) = false) by (apply Z.ltb_ge; lia).
    rewrite E. cbn [snd]. exists D, W.
    destruct c as [a now | a now]; cbn [call_amount] in Ea; subst a;
      cbn [int_credit_step deposits fold_right]; rewrite Lz; cbn [andb];
      (split; [exact (conj Ib (conj Id Iw))|]); (split; [reflexivity|]); lia.
  - destruct (validate_small_int z) as (w & V & Iz); [lia|].
    assert (Lz : (0 <? z) = true) by (apply Z.ltb_lt; lia).
    destruct c as [a now | a now]; cbn [call_amount] in Ea; subst a;
      cbn [int_credit_step deposits fold_right] in *; rewrite Lz;
      cbn [CreditAccount_call andb].
    + rewrite (CreditAccount_deposit_eq _ w now s V). cbn [snd].
      exists (D + z), W. unfold int_ledger.
      cbn [base credit_limit _balance operations_history]. rewrite !total_app.
      change (is_success _ && is_kind "deposit" _) with true.
      change (is_success _ && is_kind "withdraw" _) with false.
      cbn [amount].
      split; [split; [|split]|split; [reflexivity|]].
      * apply int_valued_add; auto. lia.
      * apply int_valued_add; auto. lia.
      * exact Iw.
      * lia.
    + rewrite (CreditAccount_withdraw_eq _ w now s V). cbn zeta.
      assert (In : int_valued (_balance (base s) - w) (b - z)).
      { apply int_valued_sub; auto. lia. }
      rewrite (int_valued_ltb _ _ _ _ In (int_valued_opp _ _ Il)).
      destruct (Z.ltb_spec (b - z) (- L)) as [Lt | Ge].
      * assert (L' : (- L <=? b - z) = false) by (apply Z.leb_gt; lia). rewrite L'. cbn [snd].
        exists D, W. unfold int_ledger.
        cbn [base credit_limit _balance operations_history]. rewrite !total_app.
        change (is_success _ && is_kind "deposit" _) with false.
        change (is_success _ && is_kind "withdraw" _) with false.
        split; [exact (conj Ib (conj Id Iw))|]. split; [reflexivity|]. lia.
      * assert (L' : (- L <=? b - z) = true) by (apply Z.leb_le; lia). rewrite L'. cbn [snd].
        exists D, (W + z). unfold int_ledger.
        cbn [base credit_limit _balance operations_history]. rewrite !total_app.
        change (is_success _ && is_kind "deposit" _) with false.
        change (is_success _ && is_kind "withdraw" _) with true.
        cbn [amount].
        split; [split; [|split]|split; [reflexivity|]].
        -- exact In.
        -- exact Id.
        -- apply int_valued_add; auto. lia.
        -- lia.
Qed.

Lemma CreditAccount_int_run cs L : forall s b D W,
  int_ledger (base s) b D W -> int_valued (credit_limit s) L ->
  0 <= L <= 2 ^ 53 -> - L <= b -> 0 <= D -> 0 <= W -> D <= b + W + L ->
  forallb (int_call (2 ^ 53 - L)) cs = true ->
  b + W + L + deposits cs <= 2 ^ 53 ->
  let b' := fold_left (fun b c => int_credit_step L c b) cs b in
  exists D' W',
    int_ledger (base (final s (run CreditAccount_call cs s))) b' D' W' /\
    - L <= b' /\ 0 <= D' /\ 0 <= W' /\
    b' - b = (D' - D) - (W' - W) /\ b' + W' + L <= 2 ^ 53.
Proof.
  induction cs as [| c cs IH]; intros s b D W I Il PL Pb Pd Pw Hd Hc Hcap; cbn zeta.
  - exists D, W. cbn [fold_left run]. cbn [deposits fold_right] in Hcap.
    split; [exact I|]. lia.
  - cbn [forallb] in Hc. apply andb_true_iff in Hc. destruct Hc as [Hc Hcs].
    pose proof (deposits_nonneg cs) as Pcs. rewrite deposits_cons in Hcap.
    destruct (CreditAccount_int_call c s b D W L I Il PL Pb Pd Pw Hd Hc ltac:(lia))
      as (D1 & W1 & I1 & El & Pb1 & Pd1 & Pw1 & E1 & C1).
    rewrite <- El in Il.
    destruct (IH (snd (CreditAccount_call c s)) (int_credit_step L c b) D1 W1 I1 Il PL Pb1
                Pd1 Pw1 ltac:(lia) Hcs ltac:(lia))
      as (D2 & W2 & I2 & Pb2 & Pd2 & Pw2 & E2 & C2).
    cbn [run fold_left]. rewrite final_cons.
    exists D2, W2. split; [exact I2|]. lia.
Qed.

(** X17. A credit account opened with an [int] balance [B] and an [int]
    limit [L] and used with [int] amounts of at most [2^53 - L] is exact, as
    long as [B + L] plus the deposits stays within [2^53]: after any such
    run the balance is the integer a credit account on whole numbers would
    hold, and the equation [final - initial = deposits - withdrawals] of
    the successful records holds in the program's own float arithmetic. *)
Theorem integer_credit_account_is_exact
    (h : pyval) (B L : Z) (acc : CreditAccount) (cs : list call) :
  CreditAccount_init h (PyInt B) (PyInt L) = Return acc ->
  0 <= L <= 2 ^ 53 -> - L <= B ->
  forallb (int_call (2 ^ 53 - L)) cs = true ->
  B + L + deposits cs <= 2 ^ 53 ->
  let acc' := final acc (run CreditAccount_call cs acc) in
  int_valued (_balance (base acc')) (fold_left (fun b c => int_credit_step L c b) cs B) /\
  conserved (_balance (base acc)) (_balance (base acc')) (operations_history (base acc')) = true.
Proof.
  intros H PL PB Hc Hcap acc'.
  destruct (CreditAccount_init_inv _ _ _ _ H)
    as (s & nb & nl & _ & _ & Al & Pl & _ & Ab & Pb & _ & Ea).
  cbn [as_number] in Al, Ab. inversion Al; subst nl. inversion Ab; subst nb.
  cbn [py_float] in Pl, Pb. pose proof (deposits_nonneg cs) as Pcs.
  destruct (float_of_int_exact B) as (fb & Eb & IB); [lia|].
  destruct (float_of_int_exact L) as (fl & El & IL); [lia|].
  rewrite Eb in Pb. inversion Pb; subst fb. rewrite El in Pl. inversion Pl; subst fl.
  assert (I : int_ledger (base acc) B 0 0).
  { rewrite Ea. unfold int_ledger. cbn [base _balance operations_history].
    split; [exact IB|]. split; exact int_valued_zero. }
  destruct (CreditAccount_int_run cs L acc B 0 0 I IL PL PB ltac:(lia) ltac:(lia) ltac:(lia)
              Hc ltac:(lia))
    as (D' & W' & (Ib & Id & Iw) & Pb' & Pd & Pw & E & C).
  fold acc' in Ib, Id, Iw. split; [exact Ib|].
  apply (conserved_int _ _ _ B _ D' W' IB Ib Id Iw); lia.
Qed.

Lemma integer_credit_account_is_exact_witness :
  let acc := mk_CreditAccount (mk_Account (ustr "Petr") 0%float []) 300%float in
  let cs := [Withdraw (PyInt 100) a_time; Withdraw (PyInt 250) a_time;
             Deposit (PyInt 80) a_time] in
  let acc' := final acc (run CreditAccount_call cs acc) in
  int_valued (_balance (base acc')) (-20) /\
  conserved 0%float (_balance (base acc')) (operations_history (base acc')) = true.
Proof.
  cbn zeta.
  exact (integer_credit_account_is_exact (PyStr (ustr "Petr")) 0 300
           (mk_CreditAccount (mk_Account (ustr "Petr") 0%float []) 300%float)
           [Withdraw (PyInt 100) a_time; Withdraw (PyInt 250) a_time;
            Deposit (PyInt 80) a_time]
           eq_refl ltac:(cbn; lia) ltac:(lia) eq_refl ltac:(cbn; lia)).
Defined.

(** * Further properties: what [get_history] shows *)

(** ** Timestamps, to the second *)

Lemma digits_length w n : List.length (digits w n) = w.
Proof.
  revert n. induction w as [| w IH]; intros n; cbn [digits]; [reflexivity|].
  rewrite length_app, IH. cbn. lia.
Qed.

Lemma digits_inj w : forall n m,
  (n < 10 ^ N.of_nat w)%N -> (m < 10 ^ N.of_nat w)%N -> digits w n = digits w m -> n = m.
Proof.
  induction w as [| w IH]; intros n m Hn Hm E.
  - cbn in Hn, Hm. lia.
  - cbn [digits] in E. apply app_inj_tail in E. destruct E as [E1 E2].
    rewrite Nat2N.inj_succ, N.pow_succ_r' in Hn, Hm.
    assert (Q : (n / 10 = m / 10)%N).
    { apply IH; [| | exact E1]; apply N.Div0.div_lt_upper_bound; assumption. }
    assert (R : (n mod 10 = m mod 10)%N) by (inversion E2; lia).
    rewrite (N.div_mod n 10), (N.div_mod m 10) by lia. rewrite Q, R. reflexivity.
Qed.

Lemma app_inj_length {A : Type} (a a' b b' : list A) :
  List.length a = List.length a' -> a ++ b = a' ++ b' -> a = a' /\ b = b'.
Proof.
  revert a'. induction a as [| x a IH]; intros [| x' a'] L E; try discriminate L.
  - auto.
  - cbn [app] in E. inversion E; subst. cbn [List.length] in L.
    destruct (IH a' ltac:(lia) H1) as [-> ->]. auto.
Qed.

(** The formatted timestamp gives the time to the second. *)
Lemma isoformat_inj t u :
  valid_datetime t = true -> valid_datetime u = true ->
  isoformat t = isoformat u ->
  year t = year u /\ month t = month u /\ day t = day u /\
  hour t = hour u /\ minute t = minute u /\ second t = second u.
Proof.
  unfold valid_datetime. intros Vt Vu E.
  repeat (apply andb_true_iff in Vt; destruct Vt as [Vt ?]).
  repeat (apply andb_true_iff in Vu; destruct Vu as [Vu ?]).
  repeat match goal with
         | H : (_ <=? _)%N = true |- _ => apply N.leb_le in H
         | H : (_ <? _)%N = true |- _ => apply N.ltb_lt in H
         end.
  unfold isoformat in E.
  apply app_inj_length in E; [|rewrite !digits_length; reflexivity]. destruct E as [Ey E].
  apply app_inj_length in E; [|reflexivity]. destruct E as [_ E].
  apply app_inj_length in E; [|rewrite !digits_length; reflexivity]. destruct E as [Em E].
  apply app_inj_length in E; [|reflexivity]. destruct E as [_ E].
  apply app_inj_length in E; [|rewrite !digits_length; reflexivity]. destruct E as [Ed E].
  apply app_inj_length in E; [|reflexivity]. destruct E as [_ E].
  apply app_inj_length in E; [|rewrite !digits_length; reflexivity]. destruct E as [Eh E].
  apply app_inj_length in E; [|reflexivity]. destruct E as [_ E].
  apply app_inj_length in E; [|rewrite !digits_length; reflexivity]. destruct E as [Ei E].
  apply app_inj_length in E; [|reflexivity]. destruct E as [_ Es].
  change (10 ^ N.of_nat 4)%N with 10000%N in *.
  repeat split.
  - apply (digits_inj 4); [cbn; lia | cbn; lia | exact Ey].
  - apply (digits_inj 2); [cbn; lia | cbn; lia | exact Em].
  - apply (digits_inj 2); [cbn; lia | cbn; lia | exact Ed].
  - apply (digits_inj 2); [cbn; lia | cbn; lia | exact Eh].
  - apply (digits_inj 2); [cbn; lia | cbn; lia | exact Ei].
  - apply (digits_inj 2); [cbn; lia | cbn; lia | exact Es].
Qed.

(** ** The rows *)

Lemma history_row_eq op :
  history_row op =
  [ (ustr "op_type", PyStr (op_type op));
    (ustr "amount", PyFloat (amount op));
    (ustr "timestamp", PyStr (isoformat (timestamp op)));
    (ustr "balance_after", PyFloat (balance_after op));
    (ustr "status", PyStr (status op));
    (ustr "credit_used",
       match credit_used op with Some b => PyBool b | None => PyNone end) ].
Proof. reflexivity. Qed.

Lemma to_the_second_eq op1 op2 :
  to_the_second op1 = to_the_second op2 <->
  op_type op1 = op_type op2 /\ amount op1 = amount op2 /\
  balance_after op1 = balance_after op2 /\ status op1 = status op2 /\
  credit_used op1 = credit_used op2 /\
  year (timestamp op1) = year (timestamp op2) /\
  month (timestamp op1) = month (timestamp op2) /\
  day (timestamp op1) = day (timestamp op2) /\
  hour (timestamp op1) = hour (timestamp op2) /\
  minute (timestamp op1) = minute (timestamp op2) /\
  second (timestamp op1) = second (timestamp op2).
Proof.
  unfold to_the_second. split.
  - intros E. inversion E. repeat split; assumption.
  - intros (-> & -> & -> & -> & -> & -> & -> & -> & -> & -> & ->). reflexivity.
Qed.

Lemma history_row_inj op1 op2 :
  valid_datetime (timestamp op1) = true -> valid_datetime (timestamp op2) = true ->
  (history_row op1 = history_row op2 <-> to_the_second op1 = to_the_second op2).
Proof.
  intros V1 V2. rewrite to_the_second_eq, !history_row_eq. split.
  - intros E.
    remember (isoformat (timestamp op1)) as i1 eqn:E1.
    remember (isoformat (timestamp op2)) as i2 eqn:E2.
    injection E as Eo Ea Et Eb Es Ec. subst i1 i2.
    destruct (isoformat_inj _ _ V1 V2 Et) as (? & ? & ? & ? & ? & ?).
    repeat split; try assumption.
    destruct (credit_used op1), (credit_used op2); congruence.
  - intros (Eo & Ea & Eb & Es & Ec & Ey & Em & Ed & Eh & Ei & Ese).
    unfold isoformat. rewrite Eo, Ea, Eb, Es, Ec, Ey, Em, Ed, Eh, Ei, Ese. reflexivity.
Qed.

Lemma cons_eq_iff {A : Type} (a b : A) (l m : list A) :
  a :: l = b :: m <-> a = b /\ l = m.
Proof. split; [intros E; inversion E; auto | intros [-> ->]; reflexivity]. Qed.

Lemma history_rows_inj l1 : forall l2,
  forallb (fun op => valid_datetime (timestamp op)) l1 = true ->
  forallb (fun op => valid_datetime (timestamp op)) l2 = true ->
  (List.map history_row l1 = List.map history_row l2 <->
   List.map to_the_second l1 = List.map to_the_second l2).
Proof.
  induction l1 as [| x l1 IH]; intros [| y l2] V1 V2; cbn [List.map]; try tauto;
    try (split; discriminate).
  cbn [forallb] in V1, V2. apply andb_true_iff in V1, V2.
  destruct V1 as [Vx V1], V2 as [Vy V2].
  pose proof (history_row_inj x y Vx Vy) as Hxy. pose proof (IH l2 V1 V2) as Hl.
  rewrite !cons_eq_iff. tauto.
Qed.

(** X18. [get_history] shows the recorded operations in full, except for
    the microseconds of their timestamps: two histories give the same rows
    exactly when their records agree in every field, the timestamps agreeing
    to the second. *)
Theorem get_history_keeps_the_records (a1 a2 : Account) :
  forallb (fun op => valid_datetime (timestamp op)) (operations_history a1) = true ->
  forallb (fun op => valid_datetime (timestamp op)) (operations_history a2) = true ->
  (fst (get_history a1) = fst (get_history a2) <->
   List.map to_the_second (operations_history a1)
   = List.map to_the_second (operations_history a2)).
Proof.
  intros V1 V2. rewrite !get_history_eq. cbn [fst].
  rewrite <- (history_rows_inj _ _ V1 V2). split; intros E.
  - congruence.
  - rewrite E; reflexivity.
Qed.

Lemma get_history_keeps_the_records_witness :
  let t1 := mk_datetime 2024 1 15 10 30 0 250000 in
  let t2 := mk_datetime 2024 1 15 10 30 0 750000 in
  fst (get_history
         (mk_Account (ustr "a") 50%float [record "deposit" 50%float t1 50%float "success" None]))
  = fst (get_history
           (mk_Account (ustr "a") 50%float [record "deposit" 50%float t2 50%float "success" None])).
Proof.
  cbn zeta.
  exact (proj2 (get_history_keeps_the_records
                  (mk_Account (ustr "a") 50%float
                     [record "deposit" 50%float (mk_datetime 2024 1 15 10 30 0 250000)
                        50%float "success" None])
                  (mk_Account (ustr "a") 50%float
                     [record "deposit" 50%float (mk_datetime 2024 1 15 10 30 0 750000)
                        50%float "success" None])
                  eq_refl eq_refl) eq_refl).
Defined.
